(** * random_data_loader: schema-driven generators and the batched loader

    A shallow embedding of the Go packages [dataloader] and [domain]:
    - the schema model (internal/core/domain/table-parser.go),
    - the value generators (the generators file of package dataloader),
    - the default selection policy (set_generators.go),
    - the insert statement builder and the producer / worker pipeline
      (data-loader.go).

    Conventions.  Go's [int] and [int64] are 64-bit two's complement
    integers, written here as [Z] with the wrap-around made explicit by
    [wrap64].  A Go [string] is a sequence of bytes, written as Rocq's
    [string] (a sequence of 8-bit [ascii]).  Declared SQL types are ASCII, so
    [strings.ToLower] and [strings.TrimSpace] are given on ASCII bytes.
    The generator registry [map[string]DataGenerator] is a [gmap].

    Calls that draw from [math/rand/v2] are functions of a tape of random
    draws, and a run-time panic is an outcome of its own.  [GenerateValue]
    is given for the generators whose values are integers, booleans, strings
    or bytes (string, integer, boolean, enum, JSON, binary, bit string); the
    float, date, timestamp, UUID, IP, geometry, money and interval
    generators are carried as configurations. *)

From Stdlib Require Import ZArith Lia List Ascii Bool Permutation.
From Stdlib Require Import Numbers.DecimalString.
From Stdlib Require Numbers.HexadecimalString.
From Stdlib Require String.
From stdpp Require Import base gmap strings list.

Import ListNotations.
Local Open Scope Z_scope.

(* ===================================================================== *)
(** * Go runtime: integers *)
(* ===================================================================== *)

Definition maxInt64 : Z := 9223372036854775807.
Definition minInt64 : Z := -9223372036854775808.

(** Two's complement wrap-around of a mathematical integer into [int64]. *)
Definition wrap64 (z : Z) : Z := (z + 2 ^ 63) mod 2 ^ 64 - 2 ^ 63.

Definition int_add (a b : Z) : Z := wrap64 (a + b).
Definition int_sub (a b : Z) : Z := wrap64 (a - b).

Definition in_int64 (z : Z) : Prop := minInt64 <= z <= maxInt64.

(* ===================================================================== *)
(** * Go runtime: byte strings *)
(* ===================================================================== *)

(** The double quote character, as a one-byte string. *)
Definition dquote : string := String (ascii_of_nat 34) EmptyString.

Definition len (s : string) : Z := Z.of_nat (String.length s).

(** [s[lo:hi]].  Every slice expression of the modelled code has
    [0 <= lo <= hi <= len s]; outside of that range Go panics and this total
    version clamps. *)
Definition slice (s : string) (lo hi : Z) : string :=
  String.substring (Z.to_nat lo) (Z.to_nat (hi - lo)) s.

(** [s[lo:]] *)
Definition slice_from (s : string) (lo : Z) : string := slice s lo (len s).

(** [s[i]], for [0 <= i < len s]. *)
Definition byte_at (s : string) (i : Z) : ascii :=
  match String.get (Z.to_nat i) s with
  | Some c => c
  | None => Ascii.zero
  end.

Module GoStrings.

(** Go's [strings.HasPrefix s sub]. *)
Fixpoint HasPrefix (s sub : string) {struct sub} : bool :=
  match sub, s with
  | EmptyString, _ => true
  | String c sub', String d s' => Ascii.eqb c d && HasPrefix s' sub'
  | String _ _, EmptyString => false
  end.

(** [Index_from i s sub]: index of the first instance of [sub] in [s],
    counted from [i], or [-1]. *)
Fixpoint Index_from (i : Z) (s sub : string) : Z :=
  if HasPrefix s sub then i
  else match s with
       | EmptyString => -1
       | String _ s' => Index_from (i + 1) s' sub
       end.

Definition Index (s sub : string) : Z := Index_from 0 s sub.

(** [LastIndex_from i s sub]: index of the last instance, or [-1]. *)
Fixpoint LastIndex_from (i : Z) (s sub : string) : Z :=
  match s with
  | EmptyString => if HasPrefix s sub then i else -1
  | String _ s' =>
      let r := LastIndex_from (i + 1) s' sub in
      if r =? -1 then (if HasPrefix s sub then i else -1) else r
  end.

Definition LastIndex (s sub : string) : Z := LastIndex_from 0 s sub.

Definition Contains (s sub : string) : bool := 0 <=? Index s sub.

Definition lower_byte (c : ascii) : ascii :=
  let n := N_of_ascii c in
  if ((65 <=? n) && (n <=? 90))%N then ascii_of_N (n + 32) else c.

Fixpoint ToLower (s : string) : string :=
  match s with
  | EmptyString => EmptyString
  | String c s' => String (lower_byte c) (ToLower s')
  end.

(** [strings.Split s sep] for a one-byte separator: the pieces between
    the separators, always at least one piece. *)
Fixpoint Split (s : string) (sep : ascii) : list string :=
  match s with
  | EmptyString => [EmptyString]
  | String c s' =>
      if Ascii.eqb c sep then EmptyString :: Split s' sep
      else match Split s' sep with
           | [] => [String c EmptyString]
           | piece :: rest => String c piece :: rest
           end
  end.

Fixpoint Join (elems : list string) (sep : string) : string :=
  match elems with
  | [] => EmptyString
  | [e] => e
  | e :: rest => e +:+ sep +:+ Join rest sep
  end.

Fixpoint drop (n : nat) (s : string) : string :=
  match n, s with
  | O, _ => s
  | S n', String _ s' => drop n' s'
  | S _, EmptyString => EmptyString
  end.

(** [strings.Replace s old new 1]: the first instance of [old] replaced. *)
Fixpoint Replace1 (s old new : string) : string :=
  if HasPrefix s old then new +:+ drop (String.length old) s
  else match s with
       | EmptyString => EmptyString
       | String c s' => String c (Replace1 s' old new)
       end.

Fixpoint mem_byte (c : ascii) (cutset : string) : bool :=
  match cutset with
  | EmptyString => false
  | String d cutset' => Ascii.eqb c d || mem_byte c cutset'
  end.

Fixpoint TrimLeft (s cutset : string) : string :=
  match s with
  | EmptyString => EmptyString
  | String c s' => if mem_byte c cutset then TrimLeft s' cutset else s
  end.

Fixpoint TrimRight (s cutset : string) : string :=
  match s with
  | EmptyString => EmptyString
  | String c s' =>
      match TrimRight s' cutset with
      | EmptyString => if mem_byte c cutset then EmptyString
                       else String c EmptyString
      | t => String c t
      end
  end.

Definition Trim (s cutset : string) : string :=
  TrimRight (TrimLeft s cutset) cutset.

(** Tab, line feed, vertical tab, form feed, carriage return, space. *)
Definition asciiSpace : string :=
  String (ascii_of_nat 9) (String (ascii_of_nat 10) (String (ascii_of_nat 11)
 (String (ascii_of_nat 12) (String (ascii_of_nat 13) (String (ascii_of_nat 32)
  EmptyString))))).

Definition TrimSpace (s : string) : string := Trim s asciiSpace.

End GoStrings.

Module strconv.

Definition is_digit (c : ascii) : bool :=
  let n := N_of_ascii c in ((48 <=? n) && (n <=? 57))%N.

Definition digit_val (c : ascii) : Z := Z.of_N (N_of_ascii c) - 48.

(** Value of a non-empty run of decimal digits. *)
Fixpoint digits (acc : Z) (s : string) : option Z :=
  match s with
  | EmptyString => Some acc
  | String c s' =>
      if is_digit c then digits (10 * acc + digit_val c) s' else None
  end.

Definition unsigned (s : string) : option Z :=
  match s with
  | EmptyString => None
  | _ => digits 0 s
  end.

(** [strconv.Atoi]: an optional sign, then decimal digits; [None] stands
    for a non-nil error (syntax or range). *)
Definition Atoi (s : string) : option Z :=
  let signed :=
    match s with
    | String "+" s' => unsigned s'
    | String "-" s' => match unsigned s' with
                       | Some v => Some (- v)
                       | None => None
                       end
    | _ => unsigned s
    end in
  match signed with
  | Some v => if (minInt64 <=? v) && (v <=? maxInt64) then Some v else None
  | None => None
  end.

(** [strconv.Itoa], also [fmt.Sprintf] of the verb [%d]. *)
Definition Itoa (i : Z) : string := NilZero.string_of_int (Z.to_int i).

End strconv.

Module fmt.

(** The verb [%x] of [fmt.Sprintf] on an integer that is not negative:
    lower-case hexadecimal digits, no padding. *)
Definition hex (i : Z) : string :=
  HexadecimalString.NilZero.string_of_int (Z.to_hex_int i).

End fmt.

(* ===================================================================== *)
(** * Randomness and panics *)
(* ===================================================================== *)

(** Outcome of a call: a value, a run-time panic, or (only for the
    fuel-bounded recursion of the JSON generator) fuel exhaustion. *)
Inductive Result (A : Type) : Type :=
| Ok (a : A)
| Panic (msg : string)
| OutOfFuel.
Arguments Ok {A} a.
Arguments Panic {A} msg.
Arguments OutOfFuel {A}.

(** The process-wide random source of [math/rand/v2], as an infinite tape
    of draws.  Each call consumes the head of the tape. *)
Definition Rand : Type := nat -> Z.

Definition advance (r : Rand) : Rand := fun k => r (S k).

(** Computations that consume randomness and may panic. *)
Definition M (A : Type) : Type := Rand -> Result (A * Rand).

Definition ret {A} (a : A) : M A := fun r => Ok (a, r).

Definition bind {A B} (m : M A) (f : A -> M B) : M B :=
  fun r => match m r with
           | Ok (a, r') => f a r'
           | Panic msg => Panic msg
           | OutOfFuel => OutOfFuel
           end.

Definition panic {A} (msg : string) : M A := fun _ => Panic msg.
Definition out_of_fuel {A} : M A := fun _ => OutOfFuel.

#[global] Instance M_ret : MRet M := @ret.
#[global] Instance M_bind : MBind M := fun A B f m => bind m f.

(** [for range n { body }], collecting what each iteration produces. *)
Fixpoint for_range {A} (n : nat) (body : M A) : M (list A) :=
  match n with
  | O => ret []
  | S n' => x ← body; xs ← for_range n' body; ret (x :: xs)
  end.

Module rand.

(** [rand.IntN n]: a value of the half-open interval [[0,n)]; panics
    when [n <= 0]. *)
Definition IntN (n : Z) : M Z :=
  fun r => if n <=? 0 then Panic "invalid argument to IntN"
           else Ok (r O mod n, advance r).

End rand.

(** [make([]T, n)] panics on a negative length. *)
Definition make_len (n : Z) : M nat :=
  if n <? 0 then panic "makeslice: len out of range" else ret (Z.to_nat n).

(* ===================================================================== *)
(** * Schema model (package domain) *)
(* ===================================================================== *)

Record TableColumn := {
  Name : string;
  DataType : string;
  Nullable : bool;
  Default : string
}.

Record TableIndex := {
  IndexName : string;
  IndexColumns : list string;
  IsUnique : bool;
  IsPrimary : bool
}.

Record ForeignKey := {
  FKName : string;
  FKColumns : list string;
  ReferencedTable : string;
  ReferencedColumns : list string
}.

Record TableStructure := {
  TableName : string;
  Columns : list TableColumn;
  Indexes : list TableIndex;
  ForeignKeys : list ForeignKey
}.

(* ===================================================================== *)
(** * Value generators *)
(* ===================================================================== *)

Definition alphanumeric : string :=
  "abcdefghijklmnopqrstuvwxyzABCDEFGHIJKLMNOPQRSTUVWXYZ0123456789".

(** [randomString length]: the helper at the end of the generators file. *)
Definition randomString (length : Z) : M string :=
  n ← make_len length;
  result ← for_range n (i ← rand.IntN (len alphanumeric);
                        ret (byte_at alphanumeric i));
  ret (String.string_of_list_ascii result).

Module StringGenerator.
Record t := Build { Length : Z; Chars : string }.

Definition GenerateValue (g : t) : M string :=
  n ← make_len (Length g);
  result ← for_range n (i ← rand.IntN (len (Chars g));
                        ret (byte_at (Chars g) i));
  ret (String.string_of_list_ascii result).
End StringGenerator.

Definition NewStringGenerator (length : Z) : StringGenerator.t :=
  {| StringGenerator.Length := length; StringGenerator.Chars := alphanumeric |}.

Module IntGenerator.
Record t := Build { Min : Z; Max : Z }.

(** [return g.Min + int64(rand.IntN(int(g.Max-g.Min+1)))] *)
Definition GenerateValue (g : t) : M Z :=
  n ← rand.IntN (int_add (int_sub (Max g) (Min g)) 1);
  ret (int_add (Min g) n).
End IntGenerator.

Definition NewIntGenerator (min max : Z) : IntGenerator.t :=
  {| IntGenerator.Min := min; IntGenerator.Max := max |}.

(** A [float64] configuration constant; every one in the policy is a whole
    number. *)
Inductive float64 : Type := Float64 (whole : Z).

Module FloatGenerator.
Record t := Build { Min : float64; Max : float64; Prec : Z }.
End FloatGenerator.

Definition NewFloatGenerator (min max : float64) (prec : Z) : FloatGenerator.t :=
  {| FloatGenerator.Min := min; FloatGenerator.Max := max;
     FloatGenerator.Prec := prec |}.

Module BoolGenerator.
Record t := Build { }.

Definition GenerateValue (g : t) : M bool :=
  n ← rand.IntN 2; ret (n =? 1).
End BoolGenerator.

Definition NewBoolGenerator : BoolGenerator.t := BoolGenerator.Build.

Module time.
(** [time.Date(year, month, day, hour, min, sec, nsec, time.UTC)] *)
Record Time := Date {
  year : Z; month : Z; day : Z; hour : Z; minute : Z; sec : Z; nsec : Z
}.

(** [time.Unix(sec, nsec)]: the instant [sec] seconds and [nsec]
    nanoseconds after 1970-01-01T00:00:00Z. *)
Record Instant := UnixTime { seconds : Z; nanos : Z }.

(** Leap days of the years before [y] (proleptic Gregorian calendar). *)
Definition leap_days_before (y : Z) : Z :=
  (y - 1) / 4 - (y - 1) / 100 + (y - 1) / 400.

Definition isLeap (y : Z) : bool :=
  (y mod 4 =? 0) && (negb (y mod 100 =? 0) || (y mod 400 =? 0)).

(** Days of a common year before the first of month [m], [1 <= m <= 12]. *)
Definition daysBefore (m : Z) : Z :=
  nth (Z.to_nat (m - 1))
      [0; 31; 59; 90; 120; 151; 181; 212; 243; 273; 304; 334] 0.

(** [t.Unix()] for a [t] made by [time.Date] in UTC.  [Date] brings the
    month into [1..12] by carrying into the year; days, hours, minutes,
    seconds and whole seconds of nanoseconds add up linearly.  (Years far
    enough from 1970 to overflow [int64] are outside of this model.) *)
Definition Unix (t : Time) : Z :=
  let y := year t + (month t - 1) / 12 in
  let m := (month t - 1) mod 12 + 1 in
  let days :=
    365 * (y - 1970) + (leap_days_before y - leap_days_before 1970)
    + daysBefore m + (if isLeap y && (3 <=? m) then 1 else 0)
    + (day t - 1) in
  86400 * days + 3600 * hour t + 60 * minute t + sec t
  + nsec t / 1000000000.
End time.

Module DateGenerator.
Record t := Build { Start : time.Time; End_ : time.Time }.

(** [delta := g.End.Unix() - g.Start.Unix()
     sec := int64(rand.IntN(int(delta))) + g.Start.Unix()
     return time.Unix(sec, 0)] *)
Definition GenerateValue (g : t) : M time.Instant :=
  let delta := int_sub (time.Unix (End_ g)) (time.Unix (Start g)) in
  n ← rand.IntN delta;
  let sec := int_add n (time.Unix (Start g)) in
  ret (time.UnixTime sec 0).
End DateGenerator.

Definition NewDateGenerator (start end_ : time.Time) : DateGenerator.t :=
  {| DateGenerator.Start := start; DateGenerator.End_ := end_ |}.

Module TimestampGenerator.
Record t := Build { Start : time.Time; End_ : time.Time; WithTZ : bool }.
End TimestampGenerator.

Definition NewTimestampGenerator (start end_ : time.Time) (withTZ : bool)
  : TimestampGenerator.t :=
  {| TimestampGenerator.Start := start; TimestampGenerator.End_ := end_;
     TimestampGenerator.WithTZ := withTZ |}.

Module EnumGenerator.
Record t := Build { Values : list string }.

(** [return g.Values[rand.IntN(len(g.Values))]] *)
Definition GenerateValue (g : t) : M string :=
  i ← rand.IntN (Z.of_nat (length (Values g)));
  ret (nth (Z.to_nat i) (Values g) EmptyString).
End EnumGenerator.

Definition NewEnumGenerator (values : list string) : EnumGenerator.t :=
  {| EnumGenerator.Values := values |}.

Module JSONGenerator.
Record t := Build {
  Fields : Z;      (* Number of fields in the object *)
  Depth : Z;       (* Maximum nesting depth *)
  ArrayItems : Z;  (* Maximum number of items in arrays *)
  Format : string  (* "mysql" or "postgres" *)
}.

Definition leaf_value : M string :=
  s ← randomString 5; ret (dquote +:+ "leaf_value_" +:+ s +:+ dquote).

(** [generateObject depth].  The recursion of the source is on
    [depth + 1], guarded by [depth < g.Depth - 1]; [fuel] bounds the
    number of nested calls and [OutOfFuel] reports its exhaustion. *)
Fixpoint generateObject (fuel : nat) (g : t) (depth : Z) : M string :=
  match fuel with
  | O => out_of_fuel
  | S fuel' =>
      if Depth g <=? depth then leaf_value
      else
        n ← rand.IntN (Fields g);
        let fields := n + 1 in
        parts ← for_range (Z.to_nat fields)
          (k ← randomString 3;
           let key := "key_" +:+ k in
           choice ← rand.IntN 4;
           value ←
             (if choice =? 0 then
                (* String *)
                s ← randomString 5;
                ret (dquote +:+ "value_" +:+ s +:+ dquote)
              else if choice =? 1 then
                (* Number *)
                v ← rand.IntN 1000; ret (strconv.Itoa v)
              else if choice =? 2 then
                (* Object (if not too deep) *)
                if depth <? int_sub (Depth g) 1
                then generateObject fuel' g (depth + 1)
                else leaf_value
              else if choice =? 3 then
                (* Array *)
                m ← rand.IntN (ArrayItems g);
                let items := m + 1 in
                elements ← for_range (Z.to_nat items)
                  (if depth <? int_sub (Depth g) 1 then
                     coin ← rand.IntN 2;
                     if coin =? 0 then generateObject fuel' g (depth + 1)
                     else s ← randomString 3;
                          ret (dquote +:+ "item_" +:+ s +:+ dquote)
                   else s ← randomString 3;
                        ret (dquote +:+ "item_" +:+ s +:+ dquote));
                ret ("[" +:+ GoStrings.Join elements ", " +:+ "]")
              else ret EmptyString);
           ret (dquote +:+ key +:+ dquote +:+ ": " +:+ value));
        ret ("{" +:+ GoStrings.Join parts ", " +:+ "}")
  end.

(** Nested calls go from [depth] up to [g.Depth - 1]: this much fuel is
    never exhausted (lemma [generateObject_fuel]). *)
Definition enough_fuel (g : t) (depth : Z) : nat :=
  S (Z.to_nat (Depth g - depth)).

(** [GenerateValue]: both branches on [g.Format] return the same text. *)
Definition GenerateValue (g : t) : M string :=
  json ← generateObject (enough_fuel g 0) g 0;
  if String.eqb (Format g) "postgres" then ret json else ret json.
End JSONGenerator.

Definition NewJSONGenerator (fields depth arrayItems : Z) (format : string)
  : JSONGenerator.t :=
  {| JSONGenerator.Fields := fields; JSONGenerator.Depth := depth;
     JSONGenerator.ArrayItems := arrayItems; JSONGenerator.Format := format |}.

Module UUIDGenerator.
Record t := Build { }.
End UUIDGenerator.

Definition NewUUIDGenerator : UUIDGenerator.t := UUIDGenerator.Build.

Module IPGenerator.
Record t := Build { IPv6 : bool }.

(** IPv6: eight groups printed with [%x] and joined by colons; IPv4:
    [fmt.Sprintf("%d.%d.%d.%d", ...)] of four draws below 256. *)
Definition GenerateValue (g : t) : M string :=
  if IPv6 g then
    parts ← for_range 8 (n ← rand.IntN 65536; ret (fmt.hex n));
    ret (GoStrings.Join parts ":")
  else
    a ← rand.IntN 256;
    b ← rand.IntN 256;
    c ← rand.IntN 256;
    d ← rand.IntN 256;
    ret (strconv.Itoa a +:+ "." +:+ strconv.Itoa b +:+ "."
         +:+ strconv.Itoa c +:+ "." +:+ strconv.Itoa d).
End IPGenerator.

Definition NewIPGenerator (ipv6 : bool) : IPGenerator.t :=
  {| IPGenerator.IPv6 := ipv6 |}.

Module BinaryGenerator.
Record t := Build { Length : Z }.

(** [make([]byte, 0, capacity)]: an empty slice; panics on a negative
    capacity.  (The allocation limit of the platform is not modelled.) *)
Definition make_empty (capacity : Z) : M (list ascii) :=
  if capacity <? 0 then panic "makeslice: cap out of range" else ret [].

(** [data := make([]byte, 0, g.Length)
     for range data { data = append(data, byte(rand.IntN(256))) }
     return data]
    The range expression is evaluated once, before the loop. *)
Definition GenerateValue (g : t) : M (list ascii) :=
  data ← make_empty (Length g);
  appended ← for_range (length data)
               (b ← rand.IntN 256; ret (ascii_of_N (Z.to_N b)));
  ret (data ++ appended).
End BinaryGenerator.

Definition NewBinaryGenerator (length : Z) : BinaryGenerator.t :=
  {| BinaryGenerator.Length := length |}.

Module GeometryGenerator.
Record t := Build { Type_ : string }.
End GeometryGenerator.

Definition NewGeometryGenerator (geomType : string) : GeometryGenerator.t :=
  {| GeometryGenerator.Type_ := GoStrings.ToLower geomType |}.

Module MoneyGenerator.
Record t := Build { Min : float64; Max : float64 }.
End MoneyGenerator.

Definition NewMoneyGenerator (min max : float64) : MoneyGenerator.t :=
  {| MoneyGenerator.Min := min; MoneyGenerator.Max := max |}.

Module IntervalGenerator.
Record t := Build { MinHours : Z; MaxHours : Z }.

(** [hours := g.MinHours + rand.IntN(g.MaxHours-g.MinHours+1)
     minutes := rand.IntN(60)
     seconds := rand.IntN(60)
     return fmt.Sprintf("%d hours %d minutes %d seconds", ...)] *)
Definition GenerateValue (g : t) : M string :=
  n ← rand.IntN (int_add (int_sub (MaxHours g) (MinHours g)) 1);
  let hours := int_add (MinHours g) n in
  minutes ← rand.IntN 60;
  seconds ← rand.IntN 60;
  ret (strconv.Itoa hours +:+ " hours " +:+ strconv.Itoa minutes
       +:+ " minutes " +:+ strconv.Itoa seconds +:+ " seconds").
End IntervalGenerator.

Definition NewIntervalGenerator (minHours maxHours : Z) : IntervalGenerator.t :=
  {| IntervalGenerator.MinHours := minHours;
     IntervalGenerator.MaxHours := maxHours |}.

Module BitStringGenerator.
Record t := Build { Length : Z }.

Definition GenerateValue (g : t) : M string :=
  n ← make_len (Length g);
  bits ← for_range n (b ← rand.IntN 2;
                      ret (if b =? 1 then "1"%char else "0"%char));
  ret (String.string_of_list_ascii bits).
End BitStringGenerator.

Definition NewBitStringGenerator (length : Z) : BitStringGenerator.t :=
  {| BitStringGenerator.Length := length |}.

(** The interface [DataGenerator], as the sum of its implementations. *)
Inductive DataGenerator : Type :=
| GString (g : StringGenerator.t)
| GInt (g : IntGenerator.t)
| GFloat (g : FloatGenerator.t)
| GBool (g : BoolGenerator.t)
| GDate (g : DateGenerator.t)
| GTimestamp (g : TimestampGenerator.t)
| GEnum (g : EnumGenerator.t)
| GJSON (g : JSONGenerator.t)
| GUUID (g : UUIDGenerator.t)
| GIP (g : IPGenerator.t)
| GBinary (g : BinaryGenerator.t)
| GGeometry (g : GeometryGenerator.t)
| GMoney (g : MoneyGenerator.t)
| GInterval (g : IntervalGenerator.t)
| GBitString (g : BitStringGenerator.t).

(* ===================================================================== *)
(** * The loader and the default selection policy *)
(* ===================================================================== *)

(** [TableDataLoader].  The database handle [DB] is kept by the pipeline
    model below; the policy and the statement builder do not use it. *)
Record TableDataLoader := {
  DBType : string;    (* "mysql" or "postgres" *)
  TableStruct : TableStructure;
  Generators : gmap string DataGenerator;
  BatchSize : Z;
  NumGoroutines : Z
}.

Definition NewTableDataLoader (dbType : string) (tableStruct : TableStructure)
    (batchSize parallel : Z) : TableDataLoader :=
  {| DBType := dbType; TableStruct := tableStruct; Generators := ∅;
     BatchSize := batchSize; NumGoroutines := parallel |}.

Definition with_generators (l : TableDataLoader)
    (gens : gmap string DataGenerator) : TableDataLoader :=
  {| DBType := DBType l; TableStruct := TableStruct l; Generators := gens;
     BatchSize := BatchSize l; NumGoroutines := NumGoroutines l |}.

(** [l.Generators[columnName] = generator] *)
Definition SetGenerator (l : TableDataLoader) (columnName : string)
    (generator : DataGenerator) : TableDataLoader :=
  with_generators l (<[columnName := generator]> (Generators l)).

(** [parseEnumValues]: the values between the first opening and the last
    closing parenthesis, split at commas, trimmed of spaces and quotes. *)
Definition enum_fallback : list string := ["enum_value1"; "enum_value2"].

Definition quotes : string := "'" +:+ dquote.

Definition parseEnumValues (dataType : string) : list string :=
  let start := GoStrings.Index dataType "(" in
  let end_ := GoStrings.LastIndex dataType ")" in
  if (start =? -1) || (end_ =? -1) || (end_ <=? start) then enum_fallback
  else
    let valuesString := slice dataType (start + 1) end_ in
    let rawValues := GoStrings.Split valuesString "," in
    let values :=
      List.filter (fun cleanVal => negb (String.eqb cleanVal EmptyString))
        (List.map (fun val => GoStrings.Trim (GoStrings.TrimSpace val) quotes)
                  rawValues) in
    match values with
    | [] => enum_fallback
    | _ => values
    end.

(** Text between the first "(" and the first ")" after it, when both are
    there: [dataType[start+1 : start+end]]. *)
Definition paren_argument (dataType : string) : option string :=
  let start := GoStrings.Index dataType "(" in
  if start =? -1 then None
  else
    let end_ := GoStrings.Index (slice_from dataType start) ")" in
    if end_ =? -1 then None
    else Some (slice dataType (start + 1) (start + end_)).

(** The size of [char(n)], [varchar(n)], [bit(n)], [varbit(n)]. *)
Definition sized_length (dataType : string) (default cap : Z) : Z :=
  match paren_argument dataType with
  | Some arg => match strconv.Atoi arg with
                | Some size => Z.min size cap
                | None => default
                end
  | None => default
  end.

(** The scale of [decimal(p,s)]: the second comma-separated number. *)
Definition decimal_precision (dataType : string) : Z :=
  match paren_argument dataType with
  | Some arg =>
      match GoStrings.Split arg "," with
      | _ :: part1 :: _ =>
          match strconv.Atoi (GoStrings.TrimSpace part1) with
          | Some p => p
          | None => 2
          end
      | _ => 2
      end
  | None => 2
  end.

(** The first loop of the body: is the column the only member of a
    primary-key index, with a type that mentions "int"? *)
Definition isPrimaryAutoIncrement (ts : TableStructure) (column : TableColumn)
  : bool :=
  let dataType := GoStrings.ToLower (DataType column) in
  existsb (fun index =>
             IsPrimary index
             && (Z.of_nat (length (IndexColumns index)) =? 1)
             && String.eqb (nth 0 (IndexColumns index) EmptyString) (Name column)
             && GoStrings.Contains dataType "int")
          (Indexes ts).

(** The second loop: is the column named in some foreign key? *)
Definition isForeignKey (ts : TableStructure) (column : TableColumn) : bool :=
  existsb (fun fk => existsb (fun col => String.eqb col (Name column))
                             (FKColumns fk))
          (ForeignKeys ts).

Definition date_start : time.Time := time.Date 2000 1 1 0 0 0 0.
Definition date_end : time.Time := time.Date 2023 12 31 0 0 0 0.
Definition timestamp_end : time.Time := time.Date 2023 12 31 23 59 59 0.

(** The [switch typeTokens[0]] of the body: the generator for a column that
    is neither skipped nor a foreign key, or [None] when the matching case
    assigns nothing. *)
Definition generator_for_type (dbType : string) (column : TableColumn)
  : option DataGenerator :=
  let dataType := GoStrings.ToLower (DataType column) in
  let typeTokens := GoStrings.Split dataType " " in
  let token := nth 0 typeTokens EmptyString in
  let case := String.eqb token in
  let has := GoStrings.Contains dataType in
  if case "char" || case "varchar" then
    Some (GString (NewStringGenerator (sized_length dataType 10 100)))
  else if case "text" then
    if has "tiny" then Some (GString (NewStringGenerator 50))
    else if has "medium" then Some (GString (NewStringGenerator 200))
    else if has "long" then Some (GString (NewStringGenerator 500))
    else Some (GString (NewStringGenerator 100))
  else if case "tinyint" then
    if has "unsigned" then Some (GInt (NewIntGenerator 0 255))
    else Some (GInt (NewIntGenerator (-128) 127))
  else if case "smallint" then
    if has "unsigned" then Some (GInt (NewIntGenerator 0 65535))
    else Some (GInt (NewIntGenerator (-32768) 32767))
  else if case "mediumint" then
    if has "unsigned" then Some (GInt (NewIntGenerator 0 16777215))
    else Some (GInt (NewIntGenerator (-8388608) 8388607))
  else if case "int" || case "integer" then
    if has "unsigned" then Some (GInt (NewIntGenerator 0 2147483647))
    else Some (GInt (NewIntGenerator (-2147483648) 2147483647))
  else if case "bigint" then
    if has "unsigned" then Some (GInt (NewIntGenerator 0 9223372036854775807))
    else Some (GInt (NewIntGenerator (-9223372036854775808)
                                     9223372036854775807))
  else if case "float" || case "real" then
    Some (GFloat (NewFloatGenerator (Float64 (-1000)) (Float64 1000) 2))
  else if case "double" || case "decimal" || case "numeric" then
    Some (GFloat (NewFloatGenerator (Float64 (-10000)) (Float64 10000)
                                    (decimal_precision dataType)))
  else if case "bool" || case "boolean" then
    Some (GBool NewBoolGenerator)
  else if case "date" then
    Some (GDate (NewDateGenerator date_start date_end))
  else if case "time" then
    if negb (has "timestamp") then Some (GString (NewStringGenerator 8))
    else None
  else if case "timestamp" || case "datetime" then
    let withTZ := has "with time zone" || has "timestamptz" in
    Some (GTimestamp (NewTimestampGenerator date_start timestamp_end withTZ))
  else if case "enum" then
    Some (GEnum (NewEnumGenerator (parseEnumValues (DataType column))))
  else if case "set" then
    Some (GEnum (NewEnumGenerator (parseEnumValues (DataType column))))
  else if case "json" || case "jsonb" then
    Some (GJSON (NewJSONGenerator 3 2 3 dbType))
  else if case "uuid" then
    Some (GUUID NewUUIDGenerator)
  else if case "inet" || case "cidr" then
    Some (GIP (NewIPGenerator false))
  else if case "macaddr" then
    Some (GString (NewStringGenerator 17))
  else if case "bit" || case "varbit" then
    Some (GBitString (NewBitStringGenerator (sized_length dataType 8 64)))
  else if case "blob" || case "binary" || case "bytea" then
    let length :=
      if has "tiny" then 100
      else if has "medium" then 1000
      else if has "long" then 10000
      else 500 in
    Some (GBinary (NewBinaryGenerator length))
  else if case "point" || case "geometry" then
    let geomType :=
      if has "linestring" then "linestring"
      else if has "polygon" then "polygon"
      else "point" in
    Some (GGeometry (NewGeometryGenerator geomType))
  else if case "money" then
    Some (GMoney (NewMoneyGenerator (Float64 0) (Float64 10000)))
  else if case "interval" then
    Some (GInterval (NewIntervalGenerator 0 100))
  else
    (* For unknown types, use string generator as a fallback *)
    Some (GString (NewStringGenerator 10)).

(** What one iteration of the loop of [SetDefaultGenerators] decides for
    its column: a generator to bind, or nothing ([continue], or a case
    that assigns nothing). *)
Definition default_generator (dbType : string) (ts : TableStructure)
    (column : TableColumn) : option DataGenerator :=
  let dataType := GoStrings.ToLower (DataType column) in
  if isPrimaryAutoIncrement ts column then
    (* Skip auto-increment columns *)
    None
  else if isForeignKey ts column then
    if GoStrings.Contains dataType "int" then
      Some (GInt (NewIntGenerator 1 1000))
    else if GoStrings.Contains dataType "char"
            || GoStrings.Contains dataType "text" then
      Some (GString (NewStringGenerator 8))
    else None
  else generator_for_type dbType column.

(** One iteration: [l.Generators[column.Name] = ...] when a generator was
    chosen. *)
Definition set_default_generator (dbType : string) (ts : TableStructure)
    (gens : gmap string DataGenerator) (column : TableColumn)
  : gmap string DataGenerator :=
  match default_generator dbType ts column with
  | Some generator => <[Name column := generator]> gens
  | None => gens
  end.

(** [SetDefaultGenerators]: the loop over [l.TableStruct.Columns].  The
    returned error is always nil. *)
Definition SetDefaultGenerators (l : TableDataLoader) : TableDataLoader :=
  with_generators l
    (fold_left (set_default_generator (DBType l) (TableStruct l))
               (Columns (TableStruct l)) (Generators l)).

(* ===================================================================== *)
(** * The insert statement of [LoadData] *)
(* ===================================================================== *)

(** The names of the columns that have a generator, in column order. *)
Definition columnNames (l : TableDataLoader) : list string :=
  List.map Name
    (List.filter (fun column => bool_decide (is_Some (Generators l !! Name column)))
                 (Columns (TableStruct l))).

(** One "?" per column that has a generator. *)
Definition placeholders (l : TableDataLoader) : list string :=
  List.map (fun _ => "?") (columnNames l).

(** [for i := 1; i <= n; i++ { query = strings.Replace(query, "?", "$i", 1) }],
    with [count] iterations left. *)
Fixpoint number_placeholders (count : nat) (i : Z) (query : string) : string :=
  match count with
  | O => query
  | S count' =>
      number_placeholders count' (i + 1)
        (GoStrings.Replace1 query "?" ("$" +:+ strconv.Itoa i))
  end.

(** The query text built at the start of [LoadData]. *)
Definition insert_query (l : TableDataLoader) : string :=
  let query :=
    "INSERT INTO " +:+ TableName (TableStruct l)
    +:+ " (" +:+ GoStrings.Join (columnNames l) ", "
    +:+ ") VALUES (" +:+ GoStrings.Join (placeholders l) ", " +:+ ")" in
  if String.eqb (DBType l) "postgres"
  then number_placeholders (length (placeholders l)) 1 query
  else query.

(* ===================================================================== *)
(** * The pipeline of [LoadData]: producer, channel, workers *)
(* ===================================================================== *)

(** [LoadData] starts one producer goroutine ([generateRows]) and
    [NumGoroutines] workers ([Load]) that share a channel, then waits for
    the workers.  The goroutines are modelled as small state machines and an
    execution as a sequence of scheduling events; the context can be
    cancelled between any two steps.

    A row is what the producer builds in one iteration by calling the
    generators; its content plays no role here, so the row type and the
    function that builds the row of each iteration are parameters (the
    generators are taken to return).  The database is reduced to counters:
    statements executed, commits, rows made durable by a commit.  Each
    database call of a worker either succeeds or fails, as the event says;
    the first [BeginTx] of a worker, whose error the source discards, is
    taken to succeed.  A channel made with capacity 0 hands a row over when
    a worker is ready for it; it is modelled as a single slot. *)

(** Which database call of a worker step fails, if any. *)
Inductive Fault : Type :=
| NoFault | ExecFails | CommitFails | BeginFails | PrepareFails.

Definition fault_eqb (a b : Fault) : bool :=
  match a, b with
  | NoFault, NoFault | ExecFails, ExecFails | CommitFails, CommitFails
  | BeginFails, BeginFails | PrepareFails, PrepareFails => true
  | _, _ => false
  end.

Inductive Event : Type :=
| Cancel                          (* the context is cancelled *)
| Produce                         (* the producer takes a step *)
| Work (i : nat) (fault : Fault)  (* worker [i] takes a step *)
| Join.                           (* [wg.Wait()] returns; [LoadData] returns nil *)

Section Pipeline.

Variable Row : Type.
Variable generate : nat -> Row.

(** Control points of the goroutine of [generateRows]. *)
Inductive ProducerPC : Type :=
| PLoop (k : nat)               (* [k] iterations of [for range numRows] done *)
| PSend (k : nat) (values : Row)  (* in [default: ch <- values] *)
| PClosed (k : nat)             (* after [close(ch)] *)
| PCancelled (k : nat).         (* returned from [case <-ctx.Done()] *)

(** Control points of [Load]. *)
Inductive WorkerPC : Type :=
| WStart                        (* before [BeginTx] and [PrepareContext] *)
| WReceive                      (* at [for values := range valuesChan] *)
| WRow (values : Row)           (* a row received, before the [select] *)
| WFinal                        (* after the loop, before the last [Commit] *)
| WDone.                        (* returned; [wg.Done()] has run *)

Record Worker := {
  pc : WorkerPC;
  count : Z;        (* executions since the last commit *)
  pending : Z       (* rows executed in the open transaction *)
}.

Record State := {
  cancelled : bool;
  producer : ProducerPC;
  channel : list Row;
  closed : bool;
  workers : list Worker;
  execs : Z;        (* successful [ExecContext] calls *)
  commits : Z;      (* successful [Commit] calls *)
  stored : Z;       (* rows of committed transactions *)
  returned : bool   (* [LoadData] has returned (nil) *)
}.

Record Config := {
  numRows : Z;
  capacity : nat;       (* the [batchSize] argument of [LoadData] *)
  batch : Z;            (* [l.BatchSize] *)
  goroutines : Z        (* [l.NumGoroutines] *)
}.

Variable cfg : Config.

Definition slots : nat := Nat.max 1 (capacity cfg).

Definition init : State :=
  {| cancelled := false; producer := PLoop 0; channel := []; closed := false;
     workers := repeat {| pc := WStart; count := 0; pending := 0 |}
                       (Z.to_nat (goroutines cfg));
     execs := 0; commits := 0; stored := 0; returned := false |}.

Definition set_producer (s : State) (p : ProducerPC) (ch : list Row)
    (cl : bool) : State :=
  {| cancelled := cancelled s; producer := p; channel := ch; closed := cl;
     workers := workers s; execs := execs s; commits := commits s;
     stored := stored s; returned := returned s |}.

Definition set_worker (s : State) (i : nat) (w : Worker) (ch : list Row)
    (e c st : Z) : State :=
  {| cancelled := cancelled s; producer := producer s; channel := ch;
     closed := closed s; workers := <[i := w]> (workers s);
     execs := e; commits := c; stored := st; returned := returned s |}.

(** One step of the producer:
    [for range numRows { values := ...; select { case <-ctx.Done(): return
     default: ch <- values } }; close(ch)]. *)
Definition generateRows_step (s : State) : option State :=
  match producer s with
  | PLoop k =>
      if Z.of_nat k <? numRows cfg then
        if cancelled s
        then Some (set_producer s (PCancelled k) (channel s) (closed s))
        else Some (set_producer s (PSend k (generate k)) (channel s) (closed s))
      else Some (set_producer s (PClosed k) (channel s) true)
  | PSend k values =>
      if (length (channel s) <? slots)%nat
      then Some (set_producer s (PLoop (S k)) (channel s ++ [values]) (closed s))
      else None
  | PClosed _ | PCancelled _ => None
  end.

(** The worker leaves: the deferred [Rollback] drops the open
    transaction. *)
Definition leave (w : Worker) : Worker :=
  {| pc := WDone; count := count w; pending := 0 |}.

(** One step of worker [i]. *)
Definition Load_step (i : nat) (fault : Fault) (s : State) : option State :=
  match workers s !! i with
  | None => None
  | Some w =>
      let keep w' := Some (set_worker s i w' (channel s) (execs s) (commits s)
                                      (stored s)) in
      match pc w with
      | WStart =>
          (* tx, _ := BeginTx; stmt, err := tx.PrepareContext *)
          if fault_eqb fault PrepareFails then keep (leave w)
          else keep {| pc := WReceive; count := 0; pending := 0 |}
      | WReceive =>
          match channel s with
          | values :: rest =>
              Some (set_worker s i
                      {| pc := WRow values; count := count w;
                         pending := pending w |}
                      rest (execs s) (commits s) (stored s))
          | [] =>
              if closed s
              then keep {| pc := WFinal; count := count w;
                           pending := pending w |}
              else None
          end
      | WRow values =>
          if cancelled s then
            (* case <-ctx.Done(): break OuterLoop *)
            keep {| pc := WFinal; count := count w; pending := pending w |}
          else if fault_eqb fault ExecFails then keep (leave w)
          else
            let count' := count w + 1 in
            let pending' := pending w + 1 in
            if batch cfg <=? count' then
              if fault_eqb fault CommitFails then
                Some (set_worker s i (leave w) (channel s) (execs s + 1)
                                 (commits s) (stored s))
              else if fault_eqb fault BeginFails
                      || fault_eqb fault PrepareFails then
                Some (set_worker s i (leave w) (channel s) (execs s + 1)
                                 (commits s + 1) (stored s + pending'))
              else
                Some (set_worker s i
                        {| pc := WReceive; count := 0; pending := 0 |}
                        (channel s) (execs s + 1) (commits s + 1)
                        (stored s + pending'))
            else
              Some (set_worker s i
                      {| pc := WReceive; count := count';
                         pending := pending' |}
                      (channel s) (execs s + 1) (commits s) (stored s))
      | WFinal =>
          if fault_eqb fault CommitFails then keep (leave w)
          else
            Some (set_worker s i (leave w) (channel s) (execs s)
                             (commits s + 1) (stored s + pending w))
      | WDone => None
      end
  end.

Definition is_done (w : Worker) : bool :=
  match pc w with WDone => true | _ => false end.

(** [wg.Wait()] returns once every worker has called [wg.Done()]. *)
Definition join_step (s : State) : option State :=
  if forallb is_done (workers s) && negb (returned s) then
    Some {| cancelled := cancelled s; producer := producer s;
            channel := channel s; closed := closed s; workers := workers s;
            execs := execs s; commits := commits s; stored := stored s;
            returned := true |}
  else None.

Definition cancel_step (s : State) : option State :=
  Some {| cancelled := true; producer := producer s; channel := channel s;
          closed := closed s; workers := workers s; execs := execs s;
          commits := commits s; stored := stored s; returned := returned s |}.

(** A step is [None] when the goroutine is blocked or has finished. *)
Definition step (e : Event) (s : State) : option State :=
  match e with
  | Cancel => cancel_step s
  | Produce => generateRows_step s
  | Work i fault => Load_step i fault s
  | Join => join_step s
  end.

Fixpoint run (trace : list Event) (s : State) : option State :=
  match trace with
  | [] => Some s
  | e :: trace' => match step e s with
                   | Some s' => run trace' s'
                   | None => None
                   end
  end.

(** Rows published on the channel so far. *)
Definition published (s : State) : Z :=
  match producer s with
  | PLoop k | PSend k _ | PClosed k | PCancelled k => Z.of_nat k
  end.

End Pipeline.

Arguments PLoop {Row} k.
Arguments PSend {Row} k values.
Arguments PClosed {Row} k.
Arguments PCancelled {Row} k.
Arguments WStart {Row}.
Arguments WReceive {Row}.
Arguments WRow {Row} values.
Arguments WFinal {Row}.
Arguments WDone {Row}.

(** No cancellation and no database failure. *)
Definition undisturbed (e : Event) : bool :=
  match e with
  | Cancel => false
  | Work _ fault => fault_eqb fault NoFault
  | Produce | Join => true
  end.

(* ===================================================================== *)
(** * Vocabulary of the statements *)
(* ===================================================================== *)

(** The first whitespace-delimited token of the lower-cased declared type,
    on which [SetDefaultGenerators] dispatches. *)
Definition type_token (column : TableColumn) : string :=
  nth 0 (GoStrings.Split (GoStrings.ToLower (DataType column)) " ") EmptyString.

(** The bounds the policy gives to integer generators. *)
Definition policy_int_bounds : list (Z * Z) :=
  [ (1, 1000);
    (0, 255); (-128, 127);
    (0, 65535); (-32768, 32767);
    (0, 16777215); (-8388608, 8388607);
    (0, 2147483647); (-2147483648, 2147483647);
    (0, maxInt64); (minInt64, maxInt64) ].



(** The column is the only member of some primary-key index. *)
Definition sole_primary_key (ts : TableStructure) (column : TableColumn) : Prop :=
  exists index, In index (Indexes ts) /\ IsPrimary index = true
                /\ IndexColumns index = [Name column].

(** The column is named in some foreign key. *)
Definition named_in_foreign_key (ts : TableStructure) (column : TableColumn)
  : Prop :=
  exists fk, In fk (ForeignKeys ts) /\ In (Name column) (FKColumns fk).

(** No other column of the table has the name of [column] (column names of
    a table are distinct). *)
Definition only_column_named (ts : TableStructure) (column : TableColumn)
  : Prop :=
  forall other, In other (Columns ts) -> Name other = Name column ->
                other = column.

(** The registry built by the default policy on a fresh loader. *)
Definition default_registry (dbType : string) (ts : TableStructure)
  : gmap string DataGenerator :=
  Generators (SetDefaultGenerators (NewTableDataLoader dbType ts 1000 1)).

(** The last column named [name] for which the policy chooses a generator:
    its assignment is the one that stays in the registry. *)
Definition last_assignment (dbType : string) (ts : TableStructure)
    (name : string) (columns : list TableColumn) : option DataGenerator :=
  match List.find (fun c => String.eqb (Name c) name
                            && bool_decide (is_Some (default_generator dbType ts c)))
                  (rev columns) with
  | Some c => default_generator dbType ts c
  | None => None
  end.

(** ** Example schemas *)

Definition column (name dataType : string) : TableColumn :=
  {| Name := name; DataType := dataType; Nullable := false;
     Default := EmptyString |}.

Definition primary_index (columns : list string) : TableIndex :=
  {| IndexName := "PRIMARY"; IndexColumns := columns; IsUnique := true;
     IsPrimary := true |}.

(** [orders(id int primary key, customer_id int references customers(id),
            code varchar(8) references codes(code), note text)] *)
Definition orders_table : TableStructure :=
  {| TableName := "orders";
     Columns := [column "id" "int"; column "customer_id" "int";
                 column "code" "varchar(8)"; column "note" "text"];
     Indexes := [primary_index ["id"]];
     ForeignKeys :=
       [ {| FKName := "fk_customer"; FKColumns := ["customer_id"];
            ReferencedTable := "customers"; ReferencedColumns := ["id"] |};
         {| FKName := "fk_code"; FKColumns := ["code"];
            ReferencedTable := "codes"; ReferencedColumns := ["code"] |} ] |}.

(** [profiles(user_id int primary key references users(id), bio text)]:
    the primary key is also a foreign key. *)
Definition profiles_table : TableStructure :=
  {| TableName := "profiles";
     Columns := [column "user_id" "int"; column "bio" "text"];
     Indexes := [primary_index ["user_id"]];
     ForeignKeys :=
       [ {| FKName := "fk_user"; FKColumns := ["user_id"];
            ReferencedTable := "users"; ReferencedColumns := ["id"] |} ] |}.

(** [sessions(token uuid references tokens(id), seen date)]: a foreign key
    whose type is neither integer-like nor character-like. *)
Definition sessions_table : TableStructure :=
  {| TableName := "sessions";
     Columns := [column "token" "uuid"; column "seen" "date"];
     Indexes := [];
     ForeignKeys :=
       [ {| FKName := "fk_token"; FKColumns := ["token"];
            ReferencedTable := "tokens"; ReferencedColumns := ["id"] |} ] |}.

(** A table with one [bigint] column and no key. *)
Definition bigint_column : TableColumn :=
  {| Name := "n"; DataType := "bigint"; Nullable := true;
     Default := EmptyString |}.

Definition bigint_table : TableStructure :=
  {| TableName := "t"; Columns := [bigint_column]; Indexes := [];
     ForeignKeys := [] |}.

(** The sentence "every integer-like foreign-key column is bound to an
    integer generator over [1,1000]", without regard to the skip rule. *)
Definition integer_foreign_keys_bound : Prop :=
  forall dbType ts col,
    In col (Columns ts) -> only_column_named ts col ->
    named_in_foreign_key ts col ->
    GoStrings.Contains (GoStrings.ToLower (DataType col)) "int" = true ->
    default_registry dbType ts !! Name col
    = Some (GInt (NewIntGenerator 1 1000)).

(** The comma-separated pieces between the first "(" and the last ")" of a
    declared type, each trimmed of spaces and quotes. *)
Definition enum_pieces (dataType : string) : list string :=
  List.map (fun val => GoStrings.Trim (GoStrings.TrimSpace val) quotes)
    (GoStrings.Split
       (slice dataType (GoStrings.Index dataType "(" + 1)
              (GoStrings.LastIndex dataType ")")) ",").

(** Nothing can be parsed out of a declared type: a parenthesis is missing,
    the last ")" is not after the first "(", or every piece is blank. *)
Definition no_enum_values (dataType : string) : Prop :=
  GoStrings.Index dataType "(" = -1
  \/ GoStrings.LastIndex dataType ")" = -1
  \/ GoStrings.LastIndex dataType ")" <= GoStrings.Index dataType "("
  \/ Forall (fun piece => piece = EmptyString) (enum_pieces dataType).

Definition is_alphanumeric (c : ascii) : Prop :=
  In c (String.list_ascii_of_string alphanumeric).

(** The text of a leaf: [leaf_value_] and five alphanumeric characters,
    between double quotes. *)
Definition is_leaf_string (s : string) : Prop :=
  exists suffix,
    s = dquote +:+ "leaf_value_" +:+ String.string_of_list_ascii suffix +:+ dquote
    /\ length suffix = 5%nat
    /\ Forall is_alphanumeric suffix.

(** A computation that never runs out of fuel. *)
Definition terminates {A} (m : M A) : Prop := forall r, m r <> OutOfFuel.

(** A computation that returns a value from every random tape. *)
Definition succeeds {A} (m : M A) : Prop :=
  forall r, exists a r', m r = Ok (a, r').

(** Two computations that give the same outcome on every random tape. *)
Definition agree {A} (m1 m2 : M A) : Prop := forall r, m1 r = m2 r.

(** The byte [c] does not occur in [s]. *)
Definition free_of (c : ascii) (s : string) : Prop :=
  GoStrings.mem_byte c s = false.

(** [$i], [$i+1], ..., [count] of them. *)
Fixpoint dollars (i : Z) (count : nat) : list string :=
  match count with
  | O => []
  | S count' => ("$" +:+ strconv.Itoa i) :: dollars (i + 1) count'
  end.

(** [?, ?, ..., ?] with [n] marks. *)
Definition question_marks (n : nat) : string :=
  GoStrings.Join (repeat "?" n) ", ".

(** [$1, $2, ..., $n] *)
Definition numbered_placeholders (n : nat) : string :=
  GoStrings.Join (dollars 1 n) ", ".

(** [INSERT INTO <table> (<col1>, ..., <coln>) VALUES (<placeholders>)] *)
Definition insert_text (l : TableDataLoader) (placeholder_list : string)
  : string :=
  "INSERT INTO " +:+ TableName (TableStruct l)
  +:+ " (" +:+ GoStrings.Join (columnNames l) ", "
  +:+ ") VALUES (" +:+ placeholder_list +:+ ")".

(** The sentence "for the postgres dialect the placeholder list is always
    [$1, ..., $n]", for every loader. *)
Definition postgres_placeholders_numbered : Prop :=
  forall l, DBType l = "postgres" ->
    insert_query l
    = insert_text l (numbered_placeholders (length (columnNames l))).

(** A table with a column whose (quoted) name holds a question mark. *)
Definition survey_table : TableStructure :=
  {| TableName := "survey";
     Columns := [column "agree?" "bool"; column "comment" "text"];
     Indexes := []; ForeignKeys := [] |}.

Definition orders_loader (dbType : string) : TableDataLoader :=
  SetDefaultGenerators (NewTableDataLoader dbType orders_table 10 1).

Definition survey_loader : TableDataLoader :=
  SetDefaultGenerators (NewTableDataLoader "postgres" survey_table 10 1).

(** ** Example runs of the pipeline *)

(** 100 rows, commits every 10 executions, one worker. *)
Definition load_config (capacity : nat) : Config :=
  {| numRows := 100; capacity := capacity; batch := 10; goroutines := 1 |}.

(** The producer builds and publishes a row; the worker receives and
    executes it. *)
Definition round : list Event :=
  [Produce; Produce; Work 0 NoFault; Work 0 NoFault].

(** A schedule that runs the load to completion: the worker starts, 100
    rounds, the producer closes the channel, the worker leaves its loop and
    commits, [LoadData] returns. *)
Definition complete_trace : list Event :=
  Work 0 NoFault :: concat (repeat round 100)
  ++ [Produce; Work 0 NoFault; Work 0 NoFault; Join].

(** A schedule in which the context is cancelled after one row went
    through: the producer sees the cancellation before publishing the
    second row. *)
Definition cancelled_trace : list Event :=
  Work 0 NoFault :: round ++ [Cancel; Produce].

(** The sentence "a complete run makes exactly 100 executions and exactly
    10 commits". *)
Definition ten_commits : Prop :=
  forall (cap : nat) (trace : list Event) (s : State nat),
    forallb undisturbed trace = true ->
    run nat id (load_config cap) trace (init nat (load_config cap)) = Some s ->
    returned nat s = true ->
    execs nat s = 100 /\ commits nat s = 10.

(** ** Invariant of the undisturbed runs with one worker *)

Section SingleWorker.

Variable Row : Type.
Variable cfg : Config.

(** Rows taken off the channel so far. *)
Definition received (s : State Row) : Z :=
  published Row s - Z.of_nat (length (channel Row s)).

(** Executions are [batch] times the commits plus the executions since
    the last commit, which are the rows of the open transaction. *)
Definition batched (s : State Row) (w : Worker Row) : Prop :=
  execs Row s = batch cfg * commits Row s + count Row w
  /\ 0 <= count Row w < batch cfg
  /\ pending Row w = count Row w
  /\ stored Row s = batch cfg * commits Row s.

Definition producer_inv (s : State Row) : Prop :=
  match producer Row s with
  | PLoop k => Z.of_nat k <= numRows cfg /\ closed Row s = false
  | PSend k _ => Z.of_nat k < numRows cfg /\ closed Row s = false
  | PClosed k => Z.of_nat k = numRows cfg /\ closed Row s = true
  | PCancelled _ => False
  end.

Definition worker_inv (s : State Row) (w : Worker Row) : Prop :=
  match pc Row w with
  | WStart =>
      execs Row s = 0 /\ commits Row s = 0 /\ stored Row s = 0
      /\ received s = 0 /\ returned Row s = false
  | WReceive =>
      execs Row s = received s /\ batched s w /\ returned Row s = false
  | WRow _ =>
      execs Row s + 1 = received s /\ batched s w /\ returned Row s = false
  | WFinal =>
      closed Row s = true /\ channel Row s = []
      /\ execs Row s = numRows cfg /\ batched s w /\ returned Row s = false
  | WDone =>
      execs Row s = numRows cfg /\ stored Row s = numRows cfg
      /\ commits Row s = numRows cfg / batch cfg + 1
  end.

Definition load_inv (s : State Row) : Prop :=
  cancelled Row s = false
  /\ producer_inv s
  /\ exists w, workers Row s = [w] /\ worker_inv s w.

End SingleWorker.

(** The producer has left on cancellation without closing the channel
    after [k] published rows, the channel is empty, and worker [i] waits
    for a row. *)
Definition abandoned {Row} (s : State Row) (i : nat) (k : nat) : Prop :=
  producer Row s = PCancelled k
  /\ closed Row s = false
  /\ channel Row s = []
  /\ (exists w, workers Row s !! i = Some w /\ pc Row w = WReceive)
  /\ returned Row s = false.

(** The channel is closed exactly when the producer has run [close(ch)]. *)
Definition closed_by_producer {Row} (s : State Row) : Prop :=
  closed Row s = match producer Row s with
                 | PClosed _ => true
                 | _ => false
                 end.

(* ===================================================================== *)
(** * Further vocabulary: generators *)
(* ===================================================================== *)

(** The bytes of a string. *)
Definition bytes (s : string) : list ascii := String.list_ascii_of_string s.

(** A call that panics, whatever the message. *)
Definition panics {A} (outcome : Result A) : Prop :=
  exists msg, outcome = Panic msg.

(** A tape whose first draw is [v]. *)
Definition tape_from (v : Z) : Rand := fun _ => v.

(* ===================================================================== *)
(** * Further vocabulary: declared enum types *)
(* ===================================================================== *)

(** ['v'] *)
Definition quoted (v : string) : string := "'" +:+ v +:+ "'".

(** [enum('v1','v2',...)], the way MySQL writes the type of an enum
    column. *)
Definition enum_type (values : list string) : string :=
  "enum(" +:+ GoStrings.Join (List.map quoted values) "," +:+ ")".

(** A value that survives the parsing unchanged: not empty, without a
    comma and without a quote of either kind. *)
Definition plain_value (v : string) : Prop :=
  v <> EmptyString /\ free_of "," v /\ free_of "'" v
  /\ free_of (ascii_of_nat 34) v.

(** The first byte of [s], if any, is in [cutset]. *)
Definition first_in (cutset s : string) : bool :=
  match s with
  | String c _ => GoStrings.mem_byte c cutset
  | EmptyString => false
  end.

(** The last byte of [s], if any, is in [cutset]. *)
Fixpoint last_in (cutset s : string) : bool :=
  match s with
  | EmptyString => false
  | String c EmptyString => GoStrings.mem_byte c cutset
  | String _ s' => last_in cutset s'
  end.

(** What [parseEnumValues] promises of each value it returns. *)
Definition parsed_value (v : string) : Prop :=
  v <> EmptyString /\ free_of "," v
  /\ first_in quotes v = false /\ last_in quotes v = false.

(* ===================================================================== *)
(** * Building a row ([generateRows], inner loop) *)
(* ===================================================================== *)

Section RowGeneration.

(** [any], and the method [GenerateValue] of the interface
    [DataGenerator]: the loop works with whatever implementation the
    registry holds. *)
Variable Value : Type.
Variable GenerateValue : DataGenerator -> M Value.

(** [var values []any
     for _, column := range l.TableStruct.Columns {
         generator, ok := l.Generators[column.Name]
         if !ok { continue }
         values = append(values, generator.GenerateValue())
     }] *)
Fixpoint generate_values (gens : gmap string DataGenerator)
    (columns : list TableColumn) : M (list Value) :=
  match columns with
  | [] => ret []
  | column :: rest =>
      match gens !! Name column with
      | None => generate_values gens rest
      | Some generator =>
          v ← GenerateValue generator;
          vs ← generate_values gens rest;
          ret (v :: vs)
      end
  end.

Definition generateRow (l : TableDataLoader) : M (list Value) :=
  generate_values (Generators l) (Columns (TableStruct l)).

End RowGeneration.

(** An implementation of the interface to exercise the statements on: the
    integer, string, boolean and enum generators call their
    [GenerateValue]; it is not used on other generators. *)
Inductive SampleValue : Type :=
| VInt (z : Z) | VString (s : string) | VBool (b : bool) | VNone.

Definition sample_GenerateValue (g : DataGenerator) : M SampleValue :=
  match g with
  | GInt g => z ← IntGenerator.GenerateValue g; ret (VInt z)
  | GString g => s ← StringGenerator.GenerateValue g; ret (VString s)
  | GBool g => b ← BoolGenerator.GenerateValue g; ret (VBool b)
  | GEnum g => s ← EnumGenerator.GenerateValue g; ret (VString s)
  | _ => ret VNone
  end.

(* ===================================================================== *)
(** * Further vocabulary: any number of workers *)
(* ===================================================================== *)

Section Totals.

Variable Row : Type.
Variable cfg : Config.

(** Sum of [f] over the workers. *)
Definition total (f : Worker Row -> Z) (ws : list (Worker Row)) : Z :=
  fold_right (fun w acc => f w + acc) 0 ws.

(** 1 for a worker that holds a received row it has not executed yet. *)
Definition in_hand (w : Worker Row) : Z :=
  match pc Row w with WRow _ => 1 | _ => 0 end.

(** 1 for a worker that has returned. *)
Definition gone (w : Worker Row) : Z :=
  match pc Row w with WDone => 1 | _ => 0 end.

(** 1 for a worker that has left its receive loop. *)
Definition finished (w : Worker Row) : Z :=
  match pc Row w with WFinal | WDone => 1 | _ => 0 end.

(** The producer never goes past [numRows] iterations. *)
Definition producer_bounds (s : State Row) : Prop :=
  match producer Row s with
  | PSend k _ => Z.of_nat k < numRows cfg
  | PLoop k | PClosed k | PCancelled k => Z.of_nat k <= Z.max 0 (numRows cfg)
  end.


(** What an undisturbed run keeps of each worker. *)
Definition worker_batched (w : Worker Row) : Prop :=
  0 <= count Row w < batch cfg
  /\ pending Row w = match pc Row w with
                     | WDone => 0
                     | _ => count Row w
                     end
  /\ match pc Row w with
     | WStart => count Row w = 0
     | _ => True
     end.

(** Invariant of the undisturbed runs, for any number of workers. *)
Definition steady_inv (s : State Row) : Prop :=
  cancelled Row s = false
  /\ producer_bounds s
  /\ closed_by_producer s
  /\ match producer Row s with
     | PClosed k => numRows cfg <= Z.of_nat k
     | _ => True
     end
  /\ Z.of_nat (length (channel Row s)) <= published Row s
  /\ execs Row s + total in_hand (workers Row s) = received Row s
  /\ stored Row s + total (pending Row) (workers Row s) = execs Row s
  /\ total (count Row) (workers Row s)
     + batch cfg * (commits Row s - total gone (workers Row s))
     = execs Row s
  /\ total gone (workers Row s) <= commits Row s
  /\ Forall worker_batched (workers Row s)
  /\ (0 < total finished (workers Row s) ->
      closed Row s = true /\ channel Row s = [])
  /\ (returned Row s = true ->
      total gone (workers Row s) = Z.of_nat (length (workers Row s))).

End Totals.

(** Two workers, 7 rows, commits every 3 executions. *)
Definition pair_config : Config :=
  {| numRows := 7; capacity := 2; batch := 3; goroutines := 2 |}.

(** Both workers start; the producer publishes a row and a worker executes
    it, the two workers taking turns; the channel is closed; both workers
    leave their loops and commit; [LoadData] returns. *)
Definition pair_trace : list Event :=
  [Work 0 NoFault; Work 1 NoFault]
  ++ concat (List.map
               (fun i => [Produce; Produce; Work i NoFault; Work i NoFault])
               [0; 1; 0; 1; 0; 1; 0]%nat)
  ++ [Produce; Work 0 NoFault; Work 0 NoFault;
      Work 1 NoFault; Work 1 NoFault; Join].


(** The rows the producer has published or is about to publish: the send
    of [PSend] is already under way. *)
Definition committed_rows {Row} (s : State Row) : Z :=
  match producer Row s with
  | PSend k _ => Z.of_nat k + 1
  | PLoop k | PClosed k | PCancelled k => Z.of_nat k
  end.

(** A loader without workers that is asked for 100 rows. *)
Definition idle_config : Config :=
  {| numRows := 100; capacity := 5; batch := 10; goroutines := 0 |}.

(** One worker, a row executed, then the cancellation; the producer's
    second send is under way and goes through, a worker receives that row
    and leaves its loop without executing it. *)
Definition late_cancel_trace : list Event :=
  [Work 0 NoFault; Produce; Produce; Work 0 NoFault; Work 0 NoFault;
   Produce; Cancel].

Definition after_cancel_trace : list Event :=
  [Produce; Produce; Work 0 NoFault; Work 0 NoFault; Work 0 NoFault; Join].

(* ===================================================================== *)
(** * The table parsers: catalogue rows grouped by name *)
(* ===================================================================== *)

(** [index.Columns = append(index.Columns, columnName)], through the
    pointer the map holds. *)
Definition append_index_column (index : TableIndex) (columnName : string)
  : TableIndex :=
  {| IndexName := IndexName index;
     IndexColumns := IndexColumns index ++ [columnName];
     IsUnique := IsUnique index;
     IsPrimary := IsPrimary index |}.

Module ForeignKeyRow.
(** What [rows.Scan] reads from a row of the foreign-key query. *)
Record t := Build {
  constraintName : string;
  columnName : string;
  referencedTable : string;
  referencedColumn : string
}.
End ForeignKeyRow.

(** One iteration of [for rows.Next()] in [parseForeignKeys]; the loop is
    the same in both parsers. *)
Definition scan_foreign_key (fkMap : gmap string ForeignKey)
    (row : ForeignKeyRow.t) : gmap string ForeignKey :=
  let fk := match fkMap !! ForeignKeyRow.constraintName row with
            | Some fk => fk
            | None => {| FKName := ForeignKeyRow.constraintName row;
                         FKColumns := [];
                         ReferencedTable := ForeignKeyRow.referencedTable row;
                         ReferencedColumns := [] |}
            end in
  <[ForeignKeyRow.constraintName row :=
      {| FKName := FKName fk;
         FKColumns := FKColumns fk ++ [ForeignKeyRow.columnName row];
         ReferencedTable := ReferencedTable fk;
         ReferencedColumns :=
           ReferencedColumns fk ++ [ForeignKeyRow.referencedColumn row] |}]>
    fkMap.

Definition fkMap (rows : list ForeignKeyRow.t) : gmap string ForeignKey :=
  fold_left scan_foreign_key rows ∅.

(** [parseForeignKeys] on rows scanned without error: [fks] is what
    [for _, fk := range fkMap] may append to the empty
    [tableStruct.ForeignKeys]; the language leaves the order open. *)
Definition parseForeignKeys (rows : list ForeignKeyRow.t)
    (fks : list ForeignKey) : Prop :=
  Permutation fks (List.map snd (map_to_list (fkMap rows))).

Module mysqlparser.

Module IndexRow.
(** What [rows.Scan] reads from a row of [INFORMATION_SCHEMA.STATISTICS]. *)
Record t := Build {
  indexName : string;
  columnName : string;
  nonUnique : Z
}.
End IndexRow.

(** One iteration of [for rows.Next()] in [parseIndexes]. *)
Definition scan_index (indexMap : gmap string TableIndex) (row : IndexRow.t)
  : gmap string TableIndex :=
  let index := match indexMap !! IndexRow.indexName row with
               | Some index => index
               | None =>
                   {| IndexName := IndexRow.indexName row;
                      IndexColumns := [];
                      IsUnique := IndexRow.nonUnique row =? 0;
                      IsPrimary := String.eqb (IndexRow.indexName row)
                                              "PRIMARY" |}
               end in
  <[IndexRow.indexName row :=
      append_index_column index (IndexRow.columnName row)]> indexMap.

Definition indexMap (rows : list IndexRow.t) : gmap string TableIndex :=
  fold_left scan_index rows ∅.

(** [parseIndexes] on rows scanned without error: [indexes] is what
    [for _, index := range indexMap] may append to the empty
    [tableStruct.Indexes]. *)
Definition parseIndexes (rows : list IndexRow.t)
    (indexes : list TableIndex) : Prop :=
  Permutation indexes (List.map snd (map_to_list (indexMap rows))).

End mysqlparser.

Module postgresparser.

Module IndexRow.
(** What [rows.Scan] reads from a row of the [pg_index] query. *)
Record t := Build {
  indexName : string;
  columnName : string;
  isUnique : bool;
  isPrimary : bool
}.
End IndexRow.

(** One iteration of [for rows.Next()] in [parseIndexes]. *)
Definition scan_index (indexMap : gmap string TableIndex) (row : IndexRow.t)
  : gmap string TableIndex :=
  let index := match indexMap !! IndexRow.indexName row with
               | Some index => index
               | None =>
                   {| IndexName := IndexRow.indexName row;
                      IndexColumns := [];
                      IsUnique := IndexRow.isUnique row;
                      IsPrimary := IndexRow.isPrimary row |}
               end in
  <[IndexRow.indexName row :=
      append_index_column index (IndexRow.columnName row)]> indexMap.

Definition indexMap (rows : list IndexRow.t) : gmap string TableIndex :=
  fold_left scan_index rows ∅.

Definition parseIndexes (rows : list IndexRow.t)
    (indexes : list TableIndex) : Prop :=
  Permutation indexes (List.map snd (map_to_list (indexMap rows))).

End postgresparser.

(** The rows of the index [name], in the order of the query. *)
Definition mysql_index_rows (name : string)
    (rows : list mysqlparser.IndexRow.t) : list mysqlparser.IndexRow.t :=
  List.filter (fun row => String.eqb (mysqlparser.IndexRow.indexName row) name)
              rows.

(** The index that the rows named [name] describe. *)
Definition mysql_index_entry (name : string)
    (rows : list mysqlparser.IndexRow.t) : option TableIndex :=
  match mysql_index_rows name rows with
  | [] => None
  | (row :: _) as group =>
      Some {| IndexName := name;
              IndexColumns := List.map mysqlparser.IndexRow.columnName group;
              IsUnique := mysqlparser.IndexRow.nonUnique row =? 0;
              IsPrimary := String.eqb name "PRIMARY" |}
  end.

Definition postgres_index_rows (name : string)
    (rows : list postgresparser.IndexRow.t)
  : list postgresparser.IndexRow.t :=
  List.filter
    (fun row => String.eqb (postgresparser.IndexRow.indexName row) name) rows.

Definition postgres_index_entry (name : string)
    (rows : list postgresparser.IndexRow.t) : option TableIndex :=
  match postgres_index_rows name rows with
  | [] => None
  | (row :: _) as group =>
      Some {| IndexName := name;
              IndexColumns :=
                List.map postgresparser.IndexRow.columnName group;
              IsUnique := postgresparser.IndexRow.isUnique row;
              IsPrimary := postgresparser.IndexRow.isPrimary row |}
  end.

Definition foreign_key_rows (name : string) (rows : list ForeignKeyRow.t)
  : list ForeignKeyRow.t :=
  List.filter (fun row => String.eqb (ForeignKeyRow.constraintName row) name)
              rows.

Definition foreign_key_entry (name : string) (rows : list ForeignKeyRow.t)
  : option ForeignKey :=
  match foreign_key_rows name rows with
  | [] => None
  | (row :: _) as group =>
      Some {| FKName := name;
              FKColumns := List.map ForeignKeyRow.columnName group;
              ReferencedTable := ForeignKeyRow.referencedTable row;
              ReferencedColumns :=
                List.map ForeignKeyRow.referencedColumn group |}
  end.

(** The catalogue rows of a table [users (id int primary key, first, last)]
    with an index on the two names. *)
Definition users_index_rows : list mysqlparser.IndexRow.t :=
  [mysqlparser.IndexRow.Build "PRIMARY" "id" 0;
   mysqlparser.IndexRow.Build "idx_name" "first" 1;
   mysqlparser.IndexRow.Build "idx_name" "last" 1].

Definition users_pg_index_rows : list postgresparser.IndexRow.t :=
  [postgresparser.IndexRow.Build "idx_name" "first" false false;
   postgresparser.IndexRow.Build "idx_name" "last" false false;
   postgresparser.IndexRow.Build "users_pkey" "id" true true].

(** The foreign keys of a table [orders]: one to [users], a composite one
    to [items]. *)
Definition orders_foreign_key_rows : list ForeignKeyRow.t :=
  [ForeignKeyRow.Build "fk_item" "item_id" "items" "id";
   ForeignKeyRow.Build "fk_item" "item_rev" "items" "rev";
   ForeignKeyRow.Build "fk_user" "user_id" "users" "id"].

(** The indexes of [users], in the order opposite to the one the map
    happens to give. *)
Definition users_indexes : list TableIndex :=
  [{| IndexName := "PRIMARY"; IndexColumns := ["id"]; IsUnique := true;
      IsPrimary := true |};
   {| IndexName := "idx_name"; IndexColumns := ["first"; "last"];
      IsUnique := false; IsPrimary := false |}].

Definition users_pg_indexes : list TableIndex :=
  [{| IndexName := "idx_name"; IndexColumns := ["first"; "last"];
      IsUnique := false; IsPrimary := false |};
   {| IndexName := "users_pkey"; IndexColumns := ["id"]; IsUnique := true;
      IsPrimary := true |}].

Definition users_parsed : TableStructure :=
  {| TableName := "users";
     Columns := [column "id" "int"; column "first" "varchar(20)";
                 column "last" "varchar(20)"];
     Indexes := users_indexes;
     ForeignKeys := [] |}.

Definition orders_foreign_keys : list ForeignKey :=
  [{| FKName := "fk_item"; FKColumns := ["item_id"; "item_rev"];
      ReferencedTable := "items"; ReferencedColumns := ["id"; "rev"] |};
   {| FKName := "fk_user"; FKColumns := ["user_id"];
      ReferencedTable := "users"; ReferencedColumns := ["id"] |}].

Definition orders_parsed (indexes : list TableIndex)
    (fks : list ForeignKey) : TableStructure :=
  {| TableName := "orders";
     Columns := [column "id" "int"; column "user_id" "int";
                 column "item_id" "int"; column "item_rev" "char(4)"];
     Indexes := indexes;
     ForeignKeys := fks |}.

(** The index rows of [orders]: the primary key and an index on the
    item. *)
Definition orders_index_rows : list mysqlparser.IndexRow.t :=
  [mysqlparser.IndexRow.Build "PRIMARY" "id" 0;
   mysqlparser.IndexRow.Build "idx_item" "item_id" 1;
   mysqlparser.IndexRow.Build "idx_item" "item_rev" 1].

Definition orders_indexes : list TableIndex :=
  [{| IndexName := "PRIMARY"; IndexColumns := ["id"]; IsUnique := true;
      IsPrimary := true |};
   {| IndexName := "idx_item"; IndexColumns := ["item_id"; "item_rev"];
      IsUnique := false; IsPrimary := false |}].

(* ===================================================================== *)
(** * Facts about the runtime model *)
(* ===================================================================== *)

Lemma wrap64_id (z : Z) : in_int64 z -> wrap64 z = z.
Proof.
  unfold in_int64, wrap64, minInt64, maxInt64. intros Hz.
  change (2 ^ 63) with 9223372036854775808.
  change (2 ^ 64) with 18446744073709551616.
  rewrite Z.mod_small; lia.
Qed.

Lemma IntN_ok (n : Z) (r : Rand) :
  0 < n -> rand.IntN n r = Ok (r O mod n, advance r) /\ 0 <= r O mod n < n.
Proof.
  intros Hn. unfold rand.IntN.
  destruct (Z.leb_spec n 0); [lia|].
  split; [reflexivity | apply Z.mod_pos_bound; lia].
Qed.

Lemma IntN_panics (n : Z) (r : Rand) :
  n <= 0 -> rand.IntN n r = Panic "invalid argument to IntN".
Proof.
  intros Hn. unfold rand.IntN. destruct (Z.leb_spec n 0); [reflexivity | lia].
Qed.

(** Where [Max - Min + 1] fits in [int64], a call returns and the value
    lies between the bounds. *)
Lemma IntGenerator_in_range (g : IntGenerator.t) (r : Rand) :
  in_int64 (IntGenerator.Min g) -> in_int64 (IntGenerator.Max g) ->
  IntGenerator.Min g <= IntGenerator.Max g ->
  IntGenerator.Max g - IntGenerator.Min g + 1 <= maxInt64 ->
  exists v, IntGenerator.GenerateValue g r = Ok (v, advance r)
            /\ IntGenerator.Min g <= v <= IntGenerator.Max g.
Proof.
  intros Hmin Hmax Hle Hfit.
  unfold IntGenerator.GenerateValue, mbind, M_bind, bind, int_add, int_sub.
  unfold in_int64, minInt64, maxInt64 in *.
  rewrite (wrap64_id (_ - _)) by (unfold in_int64, minInt64, maxInt64; lia).
  rewrite (wrap64_id (_ + 1)) by (unfold in_int64, minInt64, maxInt64; lia).
  destruct (IntN_ok (IntGenerator.Max g - IntGenerator.Min g + 1) r) as [-> Hv];
    [lia|].
  eexists. split; [unfold ret; reflexivity|].
  rewrite wrap64_id by (unfold in_int64, minInt64, maxInt64; lia). lia.
Qed.

Ltac split_ifs :=
  repeat match goal with
         | H : context [if ?b then _ else _] |- _ =>
             let E := fresh "E" in destruct b eqn:E
         end.

Lemma policy_int_generators dbType ts column g :
  default_generator dbType ts column = Some (GInt g) ->
  In (IntGenerator.Min g, IntGenerator.Max g) policy_int_bounds.
Proof.
  unfold default_generator, generator_for_type. intros H.
  split_ifs; try discriminate;
    injection H as <-; cbn; tauto.
Qed.

Lemma full_width_panics (g : IntGenerator.t) (r : Rand) :
  IntGenerator.Max g = maxInt64 ->
  IntGenerator.Min g = 0 \/ IntGenerator.Min g = minInt64 ->
  IntGenerator.GenerateValue g r = Panic "invalid argument to IntN".
Proof.
  intros Hmax Hmin.
  unfold IntGenerator.GenerateValue, mbind, M_bind, bind.
  rewrite IntN_panics; [reflexivity|].
  rewrite Hmax. destruct Hmin as [-> | ->]; vm_compute; discriminate.
Qed.

(** The integer generators of the narrower families, and of foreign keys,
    stay within their bounds. *)
Lemma narrow_int_generator_in_range dbType ts column g r :
  default_generator dbType ts column = Some (GInt g) ->
  IntGenerator.Max g <> maxInt64 ->
  exists v, IntGenerator.GenerateValue g r = Ok (v, advance r)
            /\ IntGenerator.Min g <= v <= IntGenerator.Max g.
Proof.
  intros Hsel Hnarrow. apply policy_int_generators in Hsel.
  destruct g as [lo hi]. cbn [IntGenerator.Min IntGenerator.Max] in *.
  unfold policy_int_bounds in Hsel. cbn [In] in Hsel.
  apply IntGenerator_in_range; cbn [IntGenerator.Min IntGenerator.Max];
    unfold in_int64, minInt64, maxInt64 in *;
    repeat (destruct Hsel as [Hsel | Hsel]; [injection Hsel as <- <-; lia|]);
    contradiction.
Qed.

(** C1 (the code departs from the claim).  A [bigint] column that is neither
    skipped nor a foreign key is bound to an integer generator over the full
    64-bit range (or over [0, maxInt64] when unsigned), and every call of
    [GenerateValue] on it panics: [g.Max-g.Min+1] overflows [int64] to a
    value that is not positive, which [rand.IntN] rejects. *)
Theorem bigint_GenerateValue_panics dbType ts column :
  isPrimaryAutoIncrement ts column = false ->
  isForeignKey ts column = false ->
  type_token column = "bigint" ->
  exists g,
    default_generator dbType ts column = Some (GInt g)
    /\ IntGenerator.Max g = maxInt64
    /\ (IntGenerator.Min g = 0 \/ IntGenerator.Min g = minInt64)
    /\ forall r, IntGenerator.GenerateValue g r
                 = Panic "invalid argument to IntN".
Proof.
  intros Hpk Hfk Htok.
  unfold default_generator. rewrite Hpk, Hfk.
  unfold generator_for_type. fold (type_token column). rewrite Htok. cbn.
  destruct (GoStrings.Contains _ "unsigned");
    eexists; (split; [reflexivity|]);
    (split; [reflexivity|]); (split; [cbn; auto|]);
    intros r; apply full_width_panics; cbn; auto.
Qed.

Lemma bigint_GenerateValue_panics_witness :
  exists g,
    default_generator "mysql" bigint_table bigint_column = Some (GInt g)
    /\ IntGenerator.Max g = maxInt64
    /\ (IntGenerator.Min g = 0 \/ IntGenerator.Min g = minInt64)
    /\ forall r, IntGenerator.GenerateValue g r
                 = Panic "invalid argument to IntN".
Proof.
  apply (bigint_GenerateValue_panics "mysql" bigint_table bigint_column);
    reflexivity.
Defined.

(* ===================================================================== *)
(** * Facts about byte strings *)
(* ===================================================================== *)

Lemma append_cons (c : ascii) (a b : string) :
  String c a +:+ b = String c (a +:+ b).
Proof. reflexivity. Qed.

Lemma append_nil (b : string) : EmptyString +:+ b = b.
Proof. reflexivity. Qed.






(* ===================================================================== *)
(** * The registry built by [SetDefaultGenerators] *)
(* ===================================================================== *)

Section Registry.

Variables (dbType : string) (ts : TableStructure).

(** After the loop, a name is bound to the assignment of the last column
    of that name that was given one, and otherwise keeps what it had. *)
Lemma fold_registry_lookup (columns : list TableColumn)
    (gens : gmap string DataGenerator) (name : string) :
  fold_left (set_default_generator dbType ts) columns gens !! name
  = match last_assignment dbType ts name columns with
    | Some g => Some g
    | None => gens !! name
    end.
Proof.
  induction columns as [|c columns IH] using rev_ind.
  - reflexivity.
  - rewrite fold_left_app. cbn [fold_left].
    unfold last_assignment in *. rewrite rev_unit. cbn [find].
    unfold set_default_generator at 1.
    destruct (String.eqb_spec (Name c) name) as [Heq | Hne].
    + destruct (default_generator dbType ts c) as [g|] eqn:Hg.
      * rewrite bool_decide_eq_true_2 by eauto. cbn [andb].
        rewrite Hg, Heq. apply lookup_insert_eq.
      * rewrite bool_decide_eq_false_2 by (intros [? ?]; discriminate).
        cbn [andb]. exact IH.
    + cbn [andb].
      destruct (default_generator dbType ts c) as [g|] eqn:Hg.
      * rewrite lookup_insert_ne by exact Hne. exact IH.
      * exact IH.
Qed.

(** With distinct column names, the registry holds for a column exactly
    what the policy decides for it. *)
Lemma last_assignment_unique (columns : list TableColumn)
    (column : TableColumn) :
  (forall other, In other columns -> Name other = Name column ->
                 other = column) ->
  In column columns \/ default_generator dbType ts column = None ->
  last_assignment dbType ts (Name column) columns
  = default_generator dbType ts column.
Proof.
  intros Honly Hin. unfold last_assignment.
  destruct (find _ (rev columns)) as [c|] eqn:Hfind.
  - apply find_some in Hfind as [Hc Htest].
    apply andb_true_iff in Htest as [Hname _].
    apply String.eqb_eq in Hname. apply in_rev in Hc.
    rewrite (Honly c Hc Hname). reflexivity.
  - destruct Hin as [Hin | Hnone]; [|congruence].
    destruct (default_generator dbType ts column) as [g|] eqn:Hg;
      [|reflexivity].
    apply in_rev in Hin.
    pose proof (find_none _ _ Hfind _ Hin) as Htest. cbn beta in Htest.
    rewrite String.eqb_refl, Hg in Htest.
    rewrite bool_decide_eq_true_2 in Htest by eauto. discriminate.
Qed.

End Registry.

Lemma SetDefaultGenerators_lookup (l : TableDataLoader) (name : string) :
  Generators (SetDefaultGenerators l) !! name
  = match last_assignment (DBType l) (TableStruct l) name
            (Columns (TableStruct l)) with
    | Some g => Some g
    | None => Generators l !! name
    end.
Proof. apply fold_registry_lookup. Qed.

Lemma SetDefaultGenerators_lookup_unique (l : TableDataLoader)
    (column : TableColumn) :
  only_column_named (TableStruct l) column ->
  In column (Columns (TableStruct l))
  \/ default_generator (DBType l) (TableStruct l) column = None ->
  Generators (SetDefaultGenerators l) !! Name column
  = match default_generator (DBType l) (TableStruct l) column with
    | Some g => Some g
    | None => Generators l !! Name column
    end.
Proof.
  intros Honly Hin. rewrite SetDefaultGenerators_lookup.
  rewrite last_assignment_unique by assumption. reflexivity.
Qed.

(** The names in the statement are those of the bound columns. *)
Lemma columnNames_bound (l : TableDataLoader) (name : string) :
  In name (columnNames l) -> is_Some (Generators l !! name).
Proof.
  unfold columnNames. intros Hin.
  apply in_map_iff in Hin as (c & <- & Hc).
  apply filter_In in Hc as [_ Hb]. apply bool_decide_eq_true in Hb. exact Hb.
Qed.

(** The skip test of the loop, in words. *)
Lemma isPrimaryAutoIncrement_spec (ts : TableStructure) (column : TableColumn) :
  isPrimaryAutoIncrement ts column = true
  <-> sole_primary_key ts column
      /\ GoStrings.Contains (GoStrings.ToLower (DataType column)) "int" = true.
Proof.
  unfold isPrimaryAutoIncrement, sole_primary_key. rewrite existsb_exists.
  split.
  - intros (index & Hin & Htest).
    repeat (apply andb_true_iff in Htest as [Htest ?]).
    split; [|assumption]. exists index. repeat split; try assumption.
    destruct (IndexColumns index) as [|c0 [|c1 rest]]; try discriminate.
    + cbn in *. f_equal. apply String.eqb_eq. assumption.
    + match goal with
      | Hlen : (Z.of_nat _ =? 1) = true |- _ =>
          apply Z.eqb_eq in Hlen; cbn [length] in Hlen; lia
      end.
  - intros [(index & Hin & Hprim & Hcols) Hint].
    exists index. split; [assumption|].
    rewrite Hprim, Hcols, Hint. cbn. rewrite String.eqb_refl. reflexivity.
Qed.

Lemma isForeignKey_spec (ts : TableStructure) (column : TableColumn) :
  isForeignKey ts column = true <-> named_in_foreign_key ts column.
Proof.
  unfold isForeignKey, named_in_foreign_key. rewrite existsb_exists.
  split.
  - intros (fk & Hin & Htest). exists fk. split; [assumption|].
    apply existsb_exists in Htest as (col & Hcol & Heq).
    apply String.eqb_eq in Heq. congruence.
  - intros (fk & Hin & Hcol). exists fk. split; [assumption|].
    apply existsb_exists. exists (Name column).
    split; [assumption | apply String.eqb_refl].
Qed.

(* ===================================================================== *)
(** * Auto-increment columns, foreign keys, repeatability *)
(* ===================================================================== *)

(** No other column of a concrete table has the name of the column. *)
Ltac distinct_name :=
  let other := fresh "other" in
  let Hin := fresh "Hin" in
  let Hname := fresh "Hname" in
  intros other Hin Hname; cbn in Hin;
  intuition (subst; try reflexivity; discriminate).



(** C6, as the code has it.  What the policy does with a column named in
    some foreign key is decided by its lower-cased type alone, after the
    auto-increment rule, and not every such column receives a binding:
    - the type mentions "int" and the column is not the only member of a
      primary-key index: an integer generator over [1,1000], and every
      value generated for it lies in [1,1000];
    - the type does not mention "int" but mentions "char" or "text": a
      string generator of length 8;
    - the type mentions "int" and the column is the only member of a
      primary-key index: the column is skipped as auto-increment and the
      policy binds nothing;
    - the type mentions none of "int", "char", "text" (uuid, date, decimal
      and the like): the foreign-key branch has no [else] and the policy
      binds nothing.
    The binding is the decision of the policy for the column, and (column
    names being distinct) what the registry holds for its name; where the
    policy binds nothing the registry keeps what it held for the name,
    nothing in a fresh loader. *)
Theorem foreign_key_column_binding (l : TableDataLoader) (col : TableColumn) :
  let dataType := GoStrings.ToLower (DataType col) in
  let registered g :=
    default_generator (DBType l) (TableStruct l) col = Some g
    /\ (In col (Columns (TableStruct l)) ->
        only_column_named (TableStruct l) col ->
        Generators (SetDefaultGenerators l) !! Name col = Some g) in
  let unbound :=
    default_generator (DBType l) (TableStruct l) col = None
    /\ (only_column_named (TableStruct l) col ->
        Generators (SetDefaultGenerators l) !! Name col
        = Generators l !! Name col) in
  named_in_foreign_key (TableStruct l) col ->
  (GoStrings.Contains dataType "int" = true ->
   ~ sole_primary_key (TableStruct l) col ->
   registered (GInt (NewIntGenerator 1 1000))
   /\ forall r, exists v,
        IntGenerator.GenerateValue (NewIntGenerator 1 1000) r
        = Ok (v, advance r) /\ 1 <= v <= 1000)
  /\ (GoStrings.Contains dataType "int" = false ->
      GoStrings.Contains dataType "char" || GoStrings.Contains dataType "text"
      = true ->
      registered (GString (NewStringGenerator 8)))
  /\ (GoStrings.Contains dataType "int" = true ->
      sole_primary_key (TableStruct l) col ->
      unbound)
  /\ (GoStrings.Contains dataType "int" = false ->
      GoStrings.Contains dataType "char" || GoStrings.Contains dataType "text"
      = false ->
      unbound).
Proof.
  intros dataType registered unbound Hfk. apply isForeignKey_spec in Hfk.
  assert (Hreg : forall g,
             default_generator (DBType l) (TableStruct l) col = Some g ->
             registered g).
  { intros g Hg. split; [exact Hg|]. intros Hin Honly.
    rewrite SetDefaultGenerators_lookup_unique by auto.
    rewrite Hg. reflexivity. }
  assert (Hunb : default_generator (DBType l) (TableStruct l) col = None ->
                 unbound).
  { intros Hnone. split; [exact Hnone|]. intros Honly.
    rewrite SetDefaultGenerators_lookup_unique by auto.
    rewrite Hnone. reflexivity. }
  assert (Hplain : GoStrings.Contains dataType "int" = false ->
                   isPrimaryAutoIncrement (TableStruct l) col = false).
  { intros Hint. destruct (isPrimaryAutoIncrement _ _) eqn:E; [|reflexivity].
    apply isPrimaryAutoIncrement_spec in E as [_ E].
    fold dataType in E. congruence. }
  split; [|split; [|split]].
  - intros Hint Hnpk.
    assert (Hauto : isPrimaryAutoIncrement (TableStruct l) col = false).
    { destruct (isPrimaryAutoIncrement _ _) eqn:E; [|reflexivity].
      apply isPrimaryAutoIncrement_spec in E as [E _]. contradiction. }
    split.
    + apply Hreg. unfold default_generator. rewrite Hauto, Hfk.
      fold dataType. rewrite Hint. reflexivity.
    + intros r.
      apply (IntGenerator_in_range (NewIntGenerator 1 1000) r);
        unfold in_int64, minInt64, maxInt64; cbn; lia.
  - intros Hint Hchar.
    apply Hreg. unfold default_generator. rewrite (Hplain Hint), Hfk.
    fold dataType. rewrite Hint, Hchar. reflexivity.
  - intros Hint Hpk.
    assert (Hauto : isPrimaryAutoIncrement (TableStruct l) col = true).
    { apply isPrimaryAutoIncrement_spec. split; [exact Hpk | exact Hint]. }
    apply Hunb. unfold default_generator. rewrite Hauto. reflexivity.
  - intros Hint Hchar.
    apply Hunb. unfold default_generator. rewrite (Hplain Hint), Hfk.
    fold dataType. rewrite Hint, Hchar. reflexivity.
Qed.

Lemma foreign_key_column_binding_witness :
  ((default_registry "mysql" orders_table !! "customer_id"
    = Some (GInt (NewIntGenerator 1 1000))
    /\ forall r, exists v,
         IntGenerator.GenerateValue (NewIntGenerator 1 1000) r
         = Ok (v, advance r) /\ 1 <= v <= 1000)
   /\ default_registry "mysql" orders_table !! "code"
      = Some (GString (NewStringGenerator 8)))
  /\ (default_generator "mysql" profiles_table (column "user_id" "int") = None
      /\ default_registry "mysql" profiles_table !! "user_id" = None)
  /\ (default_generator "mysql" sessions_table (column "token" "uuid") = None
      /\ default_registry "mysql" sessions_table !! "token" = None).
Proof.
  split; [split|split].
  - destruct (proj1 (foreign_key_column_binding
                       (NewTableDataLoader "mysql" orders_table 1000 1)
                       (column "customer_id" "int")
                       ltac:(eexists; split; [left; reflexivity | cbn; auto])))
      as [[_ Hreg] Hvalues].
    + reflexivity.
    + intros (index & Hin & _ & Hcols). cbn in Hin.
      destruct Hin as [<- | []]. discriminate.
    + split; [|exact Hvalues].
      apply Hreg; [cbn; auto | distinct_name].
  - destruct (proj1 (proj2 (foreign_key_column_binding
                       (NewTableDataLoader "mysql" orders_table 1000 1)
                       (column "code" "varchar(8)")
                       ltac:(eexists; split;
                             [right; left; reflexivity | cbn; auto]))))
      as [_ Hreg].
    + reflexivity.
    + reflexivity.
    + apply Hreg; [cbn; auto | distinct_name].
  - destruct (proj1 (proj2 (proj2 (foreign_key_column_binding
                       (NewTableDataLoader "mysql" profiles_table 1000 1)
                       (column "user_id" "int")
                       ltac:(eexists; split; [left; reflexivity | cbn; auto])))))
      as [Hnone Hreg].
    + reflexivity.
    + exists (primary_index ["user_id"]). cbn. auto.
    + split; [exact Hnone|].
      unfold default_registry.
      etransitivity; [apply Hreg; distinct_name | reflexivity].
  - destruct (proj2 (proj2 (proj2 (foreign_key_column_binding
                       (NewTableDataLoader "mysql" sessions_table 1000 1)
                       (column "token" "uuid")
                       ltac:(eexists; split; [left; reflexivity | cbn; auto])))))
      as [Hnone Hreg].
    + reflexivity.
    + reflexivity.
    + split; [exact Hnone|].
      unfold default_registry.
      etransitivity; [apply Hreg; distinct_name | reflexivity].
Defined.

(** C6 as stated does not hold: the one column of [profiles_table] that is
    named in a foreign key has an integer type, and is left without a
    generator because it is also the single-column primary key. *)
Lemma foreign_key_primary_key_unbound : ~ integer_foreign_keys_bound.
Proof.
  intros Hclaim.
  specialize (Hclaim "mysql" profiles_table (column "user_id" "int")).
  assert (Hnone : default_registry "mysql" profiles_table !! "user_id" = None)
    by reflexivity.
  cbn [Name column] in Hclaim. rewrite Hnone in Hclaim.
  enough (None = Some (GInt (NewIntGenerator 1 1000))) by discriminate.
  apply Hclaim.
  - cbn. auto.
  - intros other Hin Hname. cbn in Hin.
    intuition (subst; try reflexivity; discriminate).
  - eexists. split; [left; reflexivity | cbn; auto].
  - reflexivity.
Qed.

(** Running the policy again on its own result changes nothing. *)
Lemma SetDefaultGenerators_again (l : TableDataLoader) :
  Generators (SetDefaultGenerators (SetDefaultGenerators l))
  = Generators (SetDefaultGenerators l).
Proof.
  apply map_eq. intros name.
  rewrite (SetDefaultGenerators_lookup (SetDefaultGenerators l)).
  cbn [SetDefaultGenerators with_generators DBType TableStruct].
  rewrite (SetDefaultGenerators_lookup l).
  destruct (last_assignment _ _ _ _); reflexivity.
Qed.

Lemma existsb_Permutation {A} (f : A -> bool) (xs ys : list A) :
  Permutation xs ys -> existsb f xs = existsb f ys.
Proof.
  induction 1; cbn; try congruence.
  destruct (f x), (f y); reflexivity.
Qed.

(** The indexes and the foreign keys are sets: their order is immaterial
    to the policy. *)
Lemma default_generator_order_independent dbType (ts1 ts2 : TableStructure)
    (col : TableColumn) :
  Permutation (Indexes ts1) (Indexes ts2) ->
  Permutation (ForeignKeys ts1) (ForeignKeys ts2) ->
  default_generator dbType ts1 col = default_generator dbType ts2 col.
Proof.
  intros Hidx Hfk. unfold default_generator, isPrimaryAutoIncrement, isForeignKey.
  rewrite (existsb_Permutation _ _ _ Hidx), (existsb_Permutation _ _ _ Hfk).
  reflexivity.
Qed.

Lemma default_registry_order_independent dbType (ts1 ts2 : TableStructure) :
  Columns ts1 = Columns ts2 ->
  Permutation (Indexes ts1) (Indexes ts2) ->
  Permutation (ForeignKeys ts1) (ForeignKeys ts2) ->
  default_registry dbType ts1 = default_registry dbType ts2.
Proof.
  intros Hcols Hidx Hfk. unfold default_registry, SetDefaultGenerators.
  cbn. rewrite Hcols. clear Hcols.
  assert (Hstep : forall gens c,
             set_default_generator dbType ts1 gens c
             = set_default_generator dbType ts2 gens c).
  { intros gens c. unfold set_default_generator.
    rewrite (default_generator_order_independent dbType ts1 ts2 c Hidx Hfk).
    reflexivity. }
  generalize (∅ : gmap string DataGenerator).
  induction (Columns ts2) as [|c cols IH]; intros gens; [reflexivity|].
  cbn [fold_left]. rewrite Hstep. apply IH.
Qed.

(** C10.  Two runs of the default selection on the same table structure,
    each from an empty registry (whatever the batch size and parallelism of
    the loaders), bind exactly the same column names, and bind each of them
    to the same generator kind with the same configuration; a second run on
    top of the first changes nothing either. *)
Theorem default_selection_repeatable (dbType : string) (ts : TableStructure)
    (batch1 parallel1 batch2 parallel2 : Z) :
  let first := SetDefaultGenerators
                 (NewTableDataLoader dbType ts batch1 parallel1) in
  let second := SetDefaultGenerators
                  (NewTableDataLoader dbType ts batch2 parallel2) in
  dom (Generators first) = dom (Generators second)
  /\ (forall name, Generators first !! name = Generators second !! name)
  /\ Generators (SetDefaultGenerators first) = Generators first.
Proof.
  intros first second.
  assert (Heq : Generators first = Generators second) by reflexivity.
  split; [|split].
  - rewrite Heq. reflexivity.
  - intros name. rewrite Heq. reflexivity.
  - apply SetDefaultGenerators_again.
Qed.

(* ===================================================================== *)
(** * Enum values and binary data *)
(* ===================================================================== *)

Lemma parseEnumValues_nonempty (dataType : string) :
  parseEnumValues dataType <> [].
Proof.
  unfold parseEnumValues.
  destruct (_ || _ || _); [discriminate|].
  destruct (List.filter _ _); discriminate.
Qed.

Lemma filter_all_blank (pieces : list string) :
  Forall (fun piece => piece = EmptyString) pieces ->
  List.filter (fun cleanVal => negb (String.eqb cleanVal EmptyString)) pieces
  = [].
Proof.
  induction 1 as [|piece pieces -> _ IH]; [reflexivity|].
  cbn. exact IH.
Qed.

Lemma parseEnumValues_fallback (dataType : string) :
  no_enum_values dataType -> parseEnumValues dataType = enum_fallback.
Proof.
  unfold no_enum_values, parseEnumValues.
  intros [H | [H | [H | H]]].
  - rewrite H. reflexivity.
  - rewrite H. cbn. rewrite orb_true_r. reflexivity.
  - apply Z.leb_le in H. rewrite H. rewrite orb_true_r. reflexivity.
  - destruct (_ || _ || _); [reflexivity|].
    fold (enum_pieces dataType). rewrite filter_all_blank by exact H.
    reflexivity.
Qed.

Lemma EnumGenerator_member (values : list string) (r r' : Rand) (v : string) :
  EnumGenerator.GenerateValue (NewEnumGenerator values) r = Ok (v, r') ->
  In v values.
Proof.
  unfold EnumGenerator.GenerateValue, mbind, M_bind, bind. cbn.
  unfold rand.IntN.
  destruct (Z.leb_spec (Z.of_nat (length values)) 0) as [|Hpos];
    [discriminate|].
  intros [= <- _].
  apply nth_In.
  pose proof (Z.mod_pos_bound (r O) (Z.of_nat (length values)) Hpos). lia.
Qed.

Lemma EnumGenerator_total (values : list string) (r : Rand) :
  values <> [] ->
  exists v, EnumGenerator.GenerateValue (NewEnumGenerator values) r
            = Ok (v, advance r) /\ In v values.
Proof.
  intros Hne.
  assert (Hpos : 0 < Z.of_nat (length values))
    by (destruct values; [contradiction | cbn; lia]).
  unfold EnumGenerator.GenerateValue, mbind, M_bind, bind. cbn.
  destruct (IntN_ok _ r Hpos) as [-> Hv].
  eexists. split; [reflexivity|]. apply nth_In. lia.
Qed.

(** C7.  The declared type [enum('a','b','c')] parses to the three values
    in their order; a declared type out of which nothing can be parsed
    yields the two placeholder values; the parser never yields an empty
    list; an enum generator returns a member of its value list whenever it
    returns, and it returns whenever the list is not empty. *)
Theorem enum_values_parsed_and_generated :
  parseEnumValues "enum('a','b','c')" = ["a"; "b"; "c"]
  /\ (forall dataType, no_enum_values dataType ->
        parseEnumValues dataType = ["enum_value1"; "enum_value2"])
  /\ (forall dataType, parseEnumValues dataType <> [])
  /\ (forall values r v r',
        EnumGenerator.GenerateValue (NewEnumGenerator values) r = Ok (v, r') ->
        In v values)
  /\ (forall values r, values <> [] ->
        exists v, EnumGenerator.GenerateValue (NewEnumGenerator values) r
                  = Ok (v, advance r) /\ In v values).
Proof.
  split; [reflexivity|].
  split; [exact parseEnumValues_fallback|].
  split; [exact parseEnumValues_nonempty|].
  split; [intros values r v r'; apply EnumGenerator_member|].
  intros values r; apply EnumGenerator_total.
Qed.

Lemma enum_values_parsed_and_generated_witness :
  parseEnumValues "enum" = ["enum_value1"; "enum_value2"]
  /\ parseEnumValues "enum('', )" = ["enum_value1"; "enum_value2"]
  /\ In "b" ["a"; "b"; "c"]
  /\ exists v, EnumGenerator.GenerateValue
                 (NewEnumGenerator ["a"; "b"; "c"]) (fun _ => 7)
               = Ok (v, advance (fun _ => 7)) /\ In v ["a"; "b"; "c"].
Proof.
  destruct enum_values_parsed_and_generated
    as (_ & Hfallback & _ & Hmember & Htotal).
  split; [apply Hfallback; left; reflexivity|].
  split.
  { apply Hfallback. right; right; right.
    vm_compute. repeat constructor. }
  split.
  { apply (Hmember ["a"; "b"; "c"] (fun _ => 7) "b" (advance (fun _ => 7))).
    reflexivity. }
  apply Htotal. discriminate.
Defined.

(** C8.  Whatever its configured length (a length is not negative),
    [BinaryGenerator.GenerateValue] returns the empty byte slice and draws
    nothing from the random source: the loop ranges over a slice of length
    0.  This holds in particular for the lengths 100, 1000, 10000 and 500
    that the policy gives to blob, binary and bytea columns. *)
Theorem BinaryGenerator_always_empty :
  (forall g r, 0 <= BinaryGenerator.Length g ->
               BinaryGenerator.GenerateValue g r = Ok ([], r))
  /\ (forall dbType ts col g,
        default_generator dbType ts col = Some (GBinary g) ->
        In (BinaryGenerator.Length g) [100; 1000; 10000; 500]
        /\ forall r, BinaryGenerator.GenerateValue g r = Ok ([], r)).
Proof.
  assert (Hempty : forall g r, 0 <= BinaryGenerator.Length g ->
                     BinaryGenerator.GenerateValue g r = Ok ([], r)).
  { intros g r Hlen.
    unfold BinaryGenerator.GenerateValue, BinaryGenerator.make_empty,
      mbind, M_bind, bind.
    destruct (Z.ltb_spec (BinaryGenerator.Length g) 0); [lia|].
    reflexivity. }
  split; [exact Hempty|].
  intros dbType ts col g Hsel.
  assert (Hlen : In (BinaryGenerator.Length g) [100; 1000; 10000; 500]).
  { unfold default_generator, generator_for_type in Hsel.
    split_ifs; try discriminate; injection Hsel as <-; cbn; tauto. }
  split; [exact Hlen|].
  intros r. apply Hempty. cbn in Hlen. lia.
Qed.

Lemma BinaryGenerator_always_empty_witness :
  BinaryGenerator.GenerateValue (NewBinaryGenerator 500) (fun _ => 200)
  = Ok ([], fun _ => 200)
  /\ default_generator "postgres" orders_table (column "payload" "bytea")
     = Some (GBinary (NewBinaryGenerator 500))
  /\ BinaryGenerator.GenerateValue (NewBinaryGenerator 10000) (fun _ => 3)
     = Ok ([], fun _ => 3).
Proof.
  destruct BinaryGenerator_always_empty as [Hempty Hpolicy].
  split; [apply Hempty; cbn; lia|].
  split; [reflexivity|].
  apply (Hpolicy "mysql" orders_table (column "b" "blob long")). reflexivity.
Defined.

(* ===================================================================== *)
(** * The JSON generator *)
(* ===================================================================== *)

Section Termination.

Context {A B : Type}.

Lemma terminates_ret (a : A) : terminates (ret a).
Proof. intros r. discriminate. Qed.

Lemma terminates_panic (msg : string) : terminates (panic (A:=A) msg).
Proof. intros r. discriminate. Qed.

Lemma terminates_bind (m : M A) (f : A -> M B) :
  terminates m -> (forall a, terminates (f a)) -> terminates (m ≫= f).
Proof.
  intros Hm Hf r. unfold mbind, M_bind, bind.
  specialize (Hm r). destruct (m r) as [[a r']| |];
    [apply Hf | discriminate | contradiction].
Qed.

Lemma terminates_for_range (n : nat) (body : M A) :
  terminates body -> terminates (for_range n body).
Proof.
  intros Hbody. induction n as [|n IH]; cbn [for_range].
  - intros r. discriminate.
  - intros r. unfold mbind, M_bind, bind.
    specialize (Hbody r). destruct (body r) as [[x r']| |];
      [|discriminate|contradiction].
    specialize (IH r'). destruct (for_range n body r') as [[xs r'']| |];
      [discriminate|discriminate|contradiction].
Qed.

Lemma succeeds_ret (a : A) : succeeds (ret a).
Proof. intros r. eexists _, _. reflexivity. Qed.

Lemma succeeds_bind (m : M A) (f : A -> M B) :
  succeeds m -> (forall a, succeeds (f a)) -> succeeds (m ≫= f).
Proof.
  intros Hm Hf r. unfold mbind, M_bind, bind.
  destruct (Hm r) as (a & r' & ->). apply Hf.
Qed.

Lemma succeeds_for_range (n : nat) (body : M A) :
  succeeds body -> succeeds (for_range n body).
Proof.
  intros Hbody. induction n as [|n IH]; cbn [for_range].
  - intros r. eexists _, _. reflexivity.
  - intros r. unfold mbind, M_bind, bind.
    destruct (Hbody r) as (x & r' & ->).
    destruct (IH r') as (xs & r'' & ->).
    eexists _, _. reflexivity.
Qed.

End Termination.

Lemma terminates_IntN (n : Z) : terminates (rand.IntN n).
Proof. intros r. unfold rand.IntN. destruct (n <=? 0); discriminate. Qed.

Lemma succeeds_IntN (n : Z) : 0 < n -> succeeds (rand.IntN n).
Proof.
  intros Hn r. destruct (IntN_ok n r Hn) as [-> _]. eexists _, _. reflexivity.
Qed.

Lemma terminates_make_len (n : Z) : terminates (make_len n).
Proof. intros r. unfold make_len. destruct (n <? 0); discriminate. Qed.

Lemma succeeds_make_len (n : Z) : 0 <= n -> succeeds (make_len n).
Proof.
  intros Hn r. unfold make_len. destruct (Z.ltb_spec n 0); [lia|].
  eexists _, _. reflexivity.
Qed.

Lemma terminates_randomString (n : Z) : terminates (randomString n).
Proof.
  unfold randomString.
  apply terminates_bind; [apply terminates_make_len|]. intros k.
  apply terminates_bind; [|intros; apply terminates_ret].
  apply terminates_for_range.
  apply terminates_bind; [apply terminates_IntN | intros; apply terminates_ret].
Qed.

Lemma succeeds_randomString (n : Z) : 0 <= n -> succeeds (randomString n).
Proof.
  intros Hn. unfold randomString.
  apply succeeds_bind; [apply succeeds_make_len; assumption|]. intros k.
  apply succeeds_bind; [|intros; apply succeeds_ret].
  apply succeeds_for_range.
  apply succeeds_bind; [apply succeeds_IntN; reflexivity
                       | intros; apply succeeds_ret].
Qed.

Lemma terminates_leaf_value : terminates JSONGenerator.leaf_value.
Proof.
  unfold JSONGenerator.leaf_value.
  apply terminates_bind; [apply terminates_randomString
                         | intros; apply terminates_ret].
Qed.

Lemma succeeds_leaf_value : succeeds JSONGenerator.leaf_value.
Proof.
  unfold JSONGenerator.leaf_value.
  apply succeeds_bind; [apply succeeds_randomString; lia
                       | intros; apply succeeds_ret].
Qed.

Ltac step_terminates :=
  match goal with
  | |- terminates (ret _) => apply terminates_ret
  | |- terminates (rand.IntN _) => apply terminates_IntN
  | |- terminates (randomString _) => apply terminates_randomString
  | |- terminates JSONGenerator.leaf_value => apply terminates_leaf_value
  | |- terminates (for_range _ _) => apply terminates_for_range
  | |- terminates (_ ≫= _) => apply terminates_bind; [|intros ?]
  | |- terminates (if ?b then _ else _) => destruct b eqn:?
  end.

Ltac step_succeeds :=
  match goal with
  | |- succeeds (ret _) => apply succeeds_ret
  | |- succeeds (rand.IntN _) => apply succeeds_IntN; lia
  | |- succeeds (randomString _) => apply succeeds_randomString; lia
  | |- succeeds JSONGenerator.leaf_value => apply succeeds_leaf_value
  | |- succeeds (for_range _ _) => apply succeeds_for_range
  | |- succeeds (_ ≫= _) => apply succeeds_bind; [|intros ?]
  | |- succeeds (if ?b then _ else _) => destruct b eqn:?
  end.

(** The nested calls climb from [depth] towards [g.Depth]: fuel beyond
    their distance is never used up. *)
Lemma generateObject_fuel (g : JSONGenerator.t) (fuel : nat) :
  forall depth,
    (Z.to_nat (JSONGenerator.Depth g - depth) < fuel)%nat ->
    terminates (JSONGenerator.generateObject fuel g depth).
Proof.
  induction fuel as [|fuel IH]; intros depth Hfuel; [lia|].
  cbn [JSONGenerator.generateObject].
  destruct (Z.leb_spec (JSONGenerator.Depth g) depth) as [|Hdeeper].
  - apply terminates_leaf_value.
  - assert (Hnested : terminates
                        (JSONGenerator.generateObject fuel g (depth + 1)))
      by (apply IH; lia).
    repeat step_terminates; assumption.
Qed.

(** With at least one field and one array item allowed, no call panics. *)
Lemma generateObject_succeeds (g : JSONGenerator.t) (fuel : nat) :
  1 <= JSONGenerator.Fields g -> 1 <= JSONGenerator.ArrayItems g ->
  forall depth,
    (Z.to_nat (JSONGenerator.Depth g - depth) < fuel)%nat ->
    succeeds (JSONGenerator.generateObject fuel g depth).
Proof.
  intros Hfields Hitems.
  induction fuel as [|fuel IH]; intros depth Hfuel; [lia|].
  cbn [JSONGenerator.generateObject].
  destruct (Z.leb_spec (JSONGenerator.Depth g) depth) as [|Hdeeper].
  - apply succeeds_leaf_value.
  - assert (Hnested : succeeds
                        (JSONGenerator.generateObject fuel g (depth + 1)))
      by (apply IH; lia).
    repeat step_succeeds; assumption.
Qed.

(** Two computations that agree on every random tape. *)
Lemma agree_bind {A B} (m1 m2 : M A) (f1 f2 : A -> M B) :
  agree m1 m2 -> (forall a, agree (f1 a) (f2 a)) ->
  agree (m1 ≫= f1) (m2 ≫= f2).
Proof.
  intros Hm Hf r. unfold mbind, M_bind, bind. rewrite (Hm r).
  destruct (m2 r) as [[a r']| |]; [apply Hf | reflexivity | reflexivity].
Qed.

Lemma agree_for_range {A} (n : nat) (body1 body2 : M A) :
  agree body1 body2 -> agree (for_range n body1) (for_range n body2).
Proof.
  intros Hbody. induction n as [|n IH]; cbn [for_range]; [intros r; reflexivity|].
  apply agree_bind; [exact Hbody|]. intros x.
  apply agree_bind; [exact IH|]. intros xs r. reflexivity.
Qed.

Ltac step_agree :=
  match goal with
  | |- agree ?m ?m => intros ?; reflexivity
  | |- agree (for_range _ _) (for_range _ _) => apply agree_for_range
  | |- agree (_ ≫= _) (_ ≫= _) => apply agree_bind; [|intros ?]
  | |- agree (if ?b then _ else _) (if ?b then _ else _) => destruct b eqn:?
  end.

(** Beyond the distance to the configured depth, the amount of fuel makes
    no difference to the result. *)
Lemma generateObject_fuel_irrelevant (g : JSONGenerator.t) (fuel1 : nat) :
  forall fuel2 depth,
    (Z.to_nat (JSONGenerator.Depth g - depth) < fuel1)%nat ->
    (Z.to_nat (JSONGenerator.Depth g - depth) < fuel2)%nat ->
    agree (JSONGenerator.generateObject fuel1 g depth)
          (JSONGenerator.generateObject fuel2 g depth).
Proof.
  induction fuel1 as [|fuel1 IH]; intros fuel2 depth H1 H2; [lia|].
  destruct fuel2 as [|fuel2]; [lia|].
  cbn [JSONGenerator.generateObject].
  destruct (Z.leb_spec (JSONGenerator.Depth g) depth) as [|Hdeeper].
  - intros r. reflexivity.
  - assert (Hnested : agree (JSONGenerator.generateObject fuel1 g (depth + 1))
                            (JSONGenerator.generateObject fuel2 g (depth + 1)))
      by (apply IH; lia).
    repeat step_agree; assumption.
Qed.

Lemma for_range_Forall {A} (P : A -> Prop) (n : nat) (body : M A) :
  (forall r, exists a r', body r = Ok (a, r') /\ P a) ->
  forall r, exists xs r',
    for_range n body r = Ok (xs, r') /\ length xs = n /\ Forall P xs.
Proof.
  intros Hbody. induction n as [|n IH]; intros r; cbn [for_range].
  - exists [], r. repeat split. constructor.
  - unfold mbind, M_bind, bind.
    destruct (Hbody r) as (x & r1 & -> & Hx).
    destruct (IH r1) as (xs & r2 & -> & Hlen & Hxs).
    exists (x :: xs), r2. repeat split; [cbn; lia | constructor; assumption].
Qed.

Lemma byte_at_alphanumeric (i : Z) :
  0 <= i < len alphanumeric -> is_alphanumeric (byte_at alphanumeric i).
Proof.
  intros Hi. unfold is_alphanumeric, byte_at.
  assert (Hn : (Z.to_nat i < 62)%nat) by (change (len alphanumeric) with 62 in Hi; lia).
  generalize dependent (Z.to_nat i). clear. intros n Hn.
  do 62 (destruct n as [|n]; [vm_compute; tauto|]). lia.
Qed.

Lemma randomString_alphanumeric (n : Z) (r : Rand) :
  0 <= n ->
  exists chars r',
    randomString n r = Ok (String.string_of_list_ascii chars, r')
    /\ length chars = Z.to_nat n /\ Forall is_alphanumeric chars.
Proof.
  intros Hn. unfold randomString, make_len, mbind, M_bind, bind.
  destruct (Z.ltb_spec n 0); [lia|]. cbn [panic ret].
  edestruct (for_range_Forall is_alphanumeric (Z.to_nat n)) as
    (chars & r' & -> & Hlen & Hall).
  { intros r0. destruct (IntN_ok (len alphanumeric) r0) as [Hdraw Hrange];
      [reflexivity|].
    unfold mbind, M_bind, bind. rewrite Hdraw.
    eexists _, _. split; [reflexivity|]. apply byte_at_alphanumeric. exact Hrange. }
  exists chars, r'. auto.
Qed.

Lemma leaf_value_is_leaf (r : Rand) :
  exists s r', JSONGenerator.leaf_value r = Ok (s, r') /\ is_leaf_string s.
Proof.
  unfold JSONGenerator.leaf_value, mbind, M_bind, bind.
  destruct (randomString_alphanumeric 5 r) as (chars & r' & -> & Hlen & Hall);
    [lia|].
  eexists _, r'. split; [reflexivity|].
  exists chars. auto.
Qed.

(** C9.  For every configuration of the JSON generator: the recursive
    construction of an object ends (fuel beyond the distance between the
    depth of the call and the configured depth is never used up, so
    [GenerateValue] always comes back, with a text or with a panic of
    [rand.IntN]); a call at or beyond the configured depth returns a leaf
    string and nothing else; with at least one field and one array item
    allowed, [GenerateValue] returns a text from every random tape; the
    result of a call is the same for every sufficient amount of fuel. *)
Theorem generateObject_terminates (g : JSONGenerator.t) :
  (forall depth fuel r,
      (Z.to_nat (JSONGenerator.Depth g - depth) < fuel)%nat ->
      JSONGenerator.generateObject fuel g depth r <> OutOfFuel)
  /\ (forall r, JSONGenerator.GenerateValue g r <> OutOfFuel)
  /\ (forall depth fuel r,
        JSONGenerator.Depth g <= depth ->
        exists s r',
          JSONGenerator.generateObject (S fuel) g depth r = Ok (s, r')
          /\ is_leaf_string s)
  /\ (1 <= JSONGenerator.Fields g -> 1 <= JSONGenerator.ArrayItems g ->
      forall r, exists s r', JSONGenerator.GenerateValue g r = Ok (s, r'))
  /\ (forall depth fuel1 fuel2 r,
        (Z.to_nat (JSONGenerator.Depth g - depth) < fuel1)%nat ->
        (Z.to_nat (JSONGenerator.Depth g - depth) < fuel2)%nat ->
        JSONGenerator.generateObject fuel1 g depth r
        = JSONGenerator.generateObject fuel2 g depth r).
Proof.
  split; [|split; [|split; [|split]]];
    [| | | |intros depth fuel1 fuel2 r H1 H2;
            apply generateObject_fuel_irrelevant; assumption].
  - intros depth fuel r Hfuel. apply generateObject_fuel. exact Hfuel.
  - unfold JSONGenerator.GenerateValue.
    apply terminates_bind.
    + apply generateObject_fuel. unfold JSONGenerator.enough_fuel. lia.
    + intros json. destruct (String.eqb _ _); apply terminates_ret.
  - intros depth fuel r Hdeep. cbn [JSONGenerator.generateObject].
    destruct (Z.leb_spec (JSONGenerator.Depth g) depth); [|lia].
    apply leaf_value_is_leaf.
  - intros Hfields Hitems. unfold JSONGenerator.GenerateValue.
    apply succeeds_bind.
    + apply generateObject_succeeds; try assumption.
      unfold JSONGenerator.enough_fuel. lia.
    + intros json. destruct (String.eqb _ _); apply succeeds_ret.
Qed.

Lemma generateObject_terminates_witness :
  JSONGenerator.generateObject 3 (NewJSONGenerator 3 2 3 "mysql") 0
    (fun k => Z.of_nat k) <> OutOfFuel
  /\ (exists s r',
        JSONGenerator.generateObject 1 (NewJSONGenerator 3 2 3 "mysql") 2
          (fun k => Z.of_nat k) = Ok (s, r')
        /\ is_leaf_string s)
  /\ exists s r',
       JSONGenerator.GenerateValue (NewJSONGenerator 3 2 3 "postgres")
         (fun k => Z.of_nat k) = Ok (s, r').
Proof.
  destruct (generateObject_terminates (NewJSONGenerator 3 2 3 "mysql"))
    as (Hfuel & _ & Hleaf & _ & _).
  destruct (generateObject_terminates (NewJSONGenerator 3 2 3 "postgres"))
    as (_ & _ & _ & Hok & _).
  split; [apply Hfuel; cbn; lia|].
  split; [apply Hleaf; cbn; lia|].
  apply Hok; cbn; lia.
Defined.

(* ===================================================================== *)
(** * The text of the insert statement *)
(* ===================================================================== *)

Lemma append_assoc (a b c : string) : (a +:+ b) +:+ c = a +:+ b +:+ c.
Proof.
  induction a as [|x a IH]; [reflexivity|].
  rewrite !append_cons. f_equal. exact IH.
Qed.

Lemma free_of_app (c : ascii) (a b : string) :
  free_of c a -> free_of c b -> free_of c (a +:+ b).
Proof.
  unfold free_of. intros Ha Hb. induction a as [|x a IH]; [exact Hb|].
  rewrite append_cons. cbn [GoStrings.mem_byte] in *.
  apply orb_false_iff in Ha as [-> Ha]. cbn [orb]. auto.
Qed.

Lemma free_of_Join (c : ascii) (elems : list string) (sep : string) :
  Forall (free_of c) elems -> free_of c sep ->
  free_of c (GoStrings.Join elems sep).
Proof.
  intros Hall Hsep. induction Hall as [|e elems He Hall IH]; [reflexivity|].
  cbn [GoStrings.Join]. destruct elems as [|e' elems]; [exact He|].
  apply free_of_app; [exact He|]. apply free_of_app; assumption.
Qed.

Lemma free_of_string_of_uint (d : Decimal.uint) :
  free_of "?" (NilEmpty.string_of_uint d).
Proof. induction d; cbn; auto; reflexivity. Qed.

Lemma free_of_Itoa (i : Z) : free_of "?" (strconv.Itoa i).
Proof.
  unfold strconv.Itoa, NilZero.string_of_int, NilZero.string_of_uint.
  assert (Huint : forall d, free_of "?" (match d with
                                          | Decimal.Nil => "0"
                                          | _ => NilEmpty.string_of_uint d
                                          end)).
  { intros d. destruct d; try reflexivity;
      apply (free_of_string_of_uint (_ _)). }
  destruct (Z.to_int i) as [d | d]; [apply Huint|].
  change (free_of "?" ("-" +:+ match d with
                               | Decimal.Nil => "0"
                               | _ => NilEmpty.string_of_uint d
                               end)).
  apply free_of_app; [reflexivity | apply Huint].
Qed.

(** [strings.Replace(s, "?", new, 1)] rewrites the first question mark. *)
Lemma Replace1_first (u v new : string) :
  free_of "?" u ->
  GoStrings.Replace1 (u +:+ "?" +:+ v) "?" new = u +:+ new +:+ v.
Proof.
  unfold free_of. intros Hu. induction u as [|x u IH].
  - rewrite !append_nil. change ("?" +:+ v) with (String "?" v). reflexivity.
  - rewrite !(append_cons x). cbn [GoStrings.mem_byte] in Hu.
    apply orb_false_iff in Hu as [Hx Hu].
    cbn [GoStrings.Replace1 GoStrings.HasPrefix]. rewrite Hx. cbn [andb].
    f_equal. apply IH. exact Hu.
Qed.

Lemma question_marks_S (n : nat) (v : string) :
  question_marks (S n) +:+ v
  = "?" +:+ (match n with O => EmptyString | S _ => ", " end
             +:+ question_marks n +:+ v).
Proof.
  unfold question_marks. destruct n as [|n]; [reflexivity|].
  cbn [repeat GoStrings.Join]. rewrite !append_assoc. reflexivity.
Qed.

Lemma dollars_S (i : Z) (n : nat) (v : string) :
  GoStrings.Join (dollars i (S n)) ", " +:+ v
  = ("$" +:+ strconv.Itoa i)
    +:+ (match n with O => EmptyString | S _ => ", " end
         +:+ GoStrings.Join (dollars (i + 1) n) ", " +:+ v).
Proof.
  destruct n as [|n]; [reflexivity|].
  cbn [dollars GoStrings.Join]. rewrite !append_assoc. reflexivity.
Qed.

(** The loop of [LoadData] numbers a run of [count] question marks that
    follows text without a question mark. *)
Lemma number_placeholders_run (count : nat) :
  forall (i : Z) (u v : string),
    free_of "?" u ->
    number_placeholders count i (u +:+ question_marks count +:+ v)
    = u +:+ GoStrings.Join (dollars i count) ", " +:+ v.
Proof.
  induction count as [|count IH]; intros i u v Hu; [reflexivity|].
  cbn [number_placeholders].
  rewrite question_marks_S, dollars_S, Replace1_first by exact Hu.
  set (sep := match count with O => EmptyString | S _ => ", " end).
  set (new := "$" +:+ strconv.Itoa i).
  rewrite <- !(append_assoc u new), <- !(append_assoc (u +:+ new) sep).
  apply IH.
  apply free_of_app; [apply free_of_app; [exact Hu|]|].
  - apply free_of_app; [reflexivity | apply free_of_Itoa].
  - destruct count; reflexivity.
Qed.

Lemma placeholders_repeat (l : TableDataLoader) :
  placeholders l = repeat "?" (length (columnNames l)).
Proof.
  unfold placeholders. induction (columnNames l) as [|name names IH];
    [reflexivity|]. cbn. f_equal. exact IH.
Qed.

(** C5, as the code has it.  With [n] eligible columns the statement is
    [INSERT INTO <table> (<col1>, ..., <coln>) VALUES (...)]; for every
    dialect other than postgres (so for mysql) its placeholder list is
    [?, ..., ?] with [n] marks; for postgres it is [$1, ..., $n] provided
    that neither the table name nor any eligible column name contains a
    question mark (the rewriting replaces the first [n] question marks of
    the whole statement). *)
Theorem insert_query_text (l : TableDataLoader) :
  let n := length (columnNames l) in
  (DBType l <> "postgres" -> insert_query l = insert_text l (question_marks n))
  /\ (DBType l = "postgres" ->
      free_of "?" (TableName (TableStruct l)) ->
      Forall (free_of "?") (columnNames l) ->
      insert_query l = insert_text l (numbered_placeholders n)).
Proof.
  intros n. unfold insert_query, insert_text. rewrite placeholders_repeat.
  rewrite repeat_length. fold n. fold (question_marks n). split.
  - intros Hdialect. apply String.eqb_neq in Hdialect. rewrite Hdialect.
    reflexivity.
  - intros Hdialect Htable Hcols. rewrite Hdialect.
    change (String.eqb "postgres" "postgres") with true. cbv iota.
    rewrite <- !(append_assoc "INSERT INTO "), <- !(append_assoc (_ +:+ _) " ("),
      <- !(append_assoc (_ +:+ _) (GoStrings.Join _ _)),
      <- !(append_assoc (_ +:+ _) ") VALUES (").
    apply number_placeholders_run.
    repeat apply free_of_app; try reflexivity; try assumption.
    apply free_of_Join; [assumption | reflexivity].
Qed.

Lemma insert_query_text_witness :
  insert_query (orders_loader "postgres")
  = "INSERT INTO orders (customer_id, code, note) VALUES ($1, $2, $3)"
  /\ insert_query (orders_loader "mysql")
     = "INSERT INTO orders (customer_id, code, note) VALUES (?, ?, ?)".
Proof.
  split.
  - refine (proj2 (insert_query_text (orders_loader "postgres")) _ _ _).
    + reflexivity.
    + reflexivity.
    + vm_compute. repeat constructor.
  - refine (proj1 (insert_query_text (orders_loader "mysql")) _).
    vm_compute. discriminate.
Defined.

(** What the rewriting does to a column name that holds a question mark. *)
Lemma survey_insert_query :
  insert_query survey_loader
  = "INSERT INTO survey (agree$1, comment) VALUES ($2, ?)".
Proof. reflexivity. Qed.

(** C5 as stated does not hold: for the postgres dialect and the two
    eligible columns of [survey_table] the placeholder list is not
    [$1, $2]. *)
Lemma postgres_placeholders_not_always_numbered :
  ~ postgres_placeholders_numbered.
Proof.
  intros Hclaim. specialize (Hclaim survey_loader eq_refl).
  rewrite survey_insert_query in Hclaim. vm_compute in Hclaim. discriminate.
Qed.

(* ===================================================================== *)
(** * Runs of the pipeline *)
(* ===================================================================== *)

Section SingleWorkerRuns.

Variable Row : Type.
Variable generate : nat -> Row.
Variable cfg : Config.
Hypothesis Hrows : 0 <= numRows cfg.
Hypothesis Hbatch : 1 <= batch cfg.
Hypothesis Hone : goroutines cfg = 1.

Lemma load_inv_init : load_inv Row cfg (init Row cfg).
Proof.
  unfold load_inv, init, producer_inv, worker_inv, batched, received,
    published. rewrite Hone. cbn.
  split; [reflexivity|]. split; [lia|].
  eexists. split; [reflexivity|]. cbn. repeat split; lia.
Qed.

Lemma load_inv_step (e : Event) (s s' : State Row) :
  undisturbed e = true ->
  load_inv Row cfg s ->
  step Row generate cfg e s = Some s' ->
  load_inv Row cfg s'.
Proof.
  intros Hclean (Hcancel & Hprod & w & Hws & Hw) Hstep.
  destruct e as [| |i fault|]; cbn [undisturbed] in Hclean;
    try discriminate; cbn [step] in Hstep.
  - (* the producer *)
    unfold generateRows_step in Hstep. unfold producer_inv in Hprod.
    unfold load_inv, producer_inv.
    destruct (producer Row s) as [k|k values|k|k] eqn:Hp;
      try discriminate.
    + rewrite Hcancel in Hstep. destruct Hprod as [Hk Hopen].
      destruct (Z.ltb_spec (Z.of_nat k) (numRows cfg));
        injection Hstep as <-; cbn; (split; [assumption|]);
        (split; [split; [lia | auto]|]); exists w; (split; [assumption|]);
        unfold worker_inv, batched, received, published in *; cbn;
        rewrite Hp in Hw; destruct (pc Row w); intuition congruence.
    + destruct Hprod as [Hk Hopen].
      destruct (length (channel Row s) <? slots cfg)%nat; [|discriminate].
      injection Hstep as <-; cbn. split; [assumption|].
      split; [split; [lia | assumption]|]. exists w. split; [assumption|].
      unfold worker_inv, batched, received, published in *; cbn.
      rewrite Hp in Hw. rewrite length_app. cbn [length].
      destruct (pc Row w); intuition (try congruence; try lia).
  - (* the worker *)
    destruct fault; try discriminate. clear Hclean.
    unfold Load_step in Hstep. rewrite Hws in Hstep.
    destruct i as [|i]; [|discriminate]. cbn [lookup list_lookup] in Hstep.
    unfold load_inv. unfold worker_inv in Hw.
    destruct (pc Row w) as [| |values| |] eqn:Hpc.
    + (* start *)
      cbn in Hstep. injection Hstep as <-. cbn.
      split; [assumption|]. split; [exact Hprod|].
      rewrite Hws. eexists. split; [reflexivity|].
      unfold worker_inv, batched, received, published in *. cbn.
      intuition lia.
    + (* receive *)
      destruct (channel Row s) as [|values rest] eqn:Hch.
      * destruct (closed Row s) eqn:Hcl; [|discriminate].
        injection Hstep as <-. cbn.
        split; [assumption|]. split; [exact Hprod|].
        rewrite Hws. eexists. split; [reflexivity|].
        unfold producer_inv in Hprod.
        unfold worker_inv, batched, received, published in *. cbn.
        rewrite Hch in *. cbn [length] in *.
        destruct (producer Row s); intuition (try congruence; try lia).
      * injection Hstep as <-. cbn.
        split; [assumption|].
        split; [unfold producer_inv in *; cbn; exact Hprod|].
        rewrite Hws. eexists. split; [reflexivity|].
        unfold worker_inv, batched, received, published in *. cbn.
        rewrite Hch in *. cbn [length] in *. intuition lia.
    + (* a row *)
      rewrite Hcancel in Hstep. cbn [fault_eqb orb] in Hstep.
      destruct Hw as (Hrecv & (Hex & Hcount & Hpend & Hst) & Hret).
      destruct (Z.leb_spec (batch cfg) (count Row w + 1));
        injection Hstep as <-; cbn;
        (split; [assumption|]);
        (split; [unfold producer_inv in *; cbn; exact Hprod|]);
        rewrite Hws; (eexists; split; [reflexivity|]);
        unfold worker_inv, batched, received, published in *; cbn;
        repeat split; try lia; try assumption.
    + (* the last commit *)
      cbn [fault_eqb] in Hstep. injection Hstep as <-. cbn.
      split; [assumption|].
      split; [unfold producer_inv in *; cbn; exact Hprod|].
      rewrite Hws. eexists. split; [reflexivity|].
      destruct Hw as (Hcl & Hch & Hex & (Hb & Hcount & Hpend & Hst) & Hret).
      unfold worker_inv. cbn.
      split; [assumption|]. split; [lia|].
      f_equal. apply (Z.div_unique_pos _ _ _ (count Row w)); lia.
    + discriminate.
  - (* the join *)
    unfold join_step in Hstep.
    destruct (forallb _ _ && _) eqn:Hjoin; [|discriminate].
    injection Hstep as <-. unfold load_inv. cbn.
    split; [assumption|]. split; [exact Hprod|].
    exists w. split; [assumption|].
    rewrite Hws in Hjoin. cbn in Hjoin. unfold is_done in Hjoin.
    unfold worker_inv in *. destruct (pc Row w); try discriminate.
    exact Hw.
Qed.

Lemma load_inv_run (trace : list Event) :
  forall s s',
    forallb undisturbed trace = true ->
    load_inv Row cfg s ->
    run Row generate cfg trace s = Some s' ->
    load_inv Row cfg s'.
Proof.
  induction trace as [|e trace IH]; intros s s' Hclean Hinv Hrun.
  - injection Hrun as <-. exact Hinv.
  - cbn in Hclean. apply andb_true_iff in Hclean as [He Hclean].
    cbn [run] in Hrun.
    destruct (step Row generate cfg e s) as [s1|] eqn:Hstep; [|discriminate].
    apply (IH s1 s'); try assumption.
    apply (load_inv_step e s s1); assumption.
Qed.

(** An undisturbed run of one worker that has returned executed every
    row, stored every row, and committed once per full batch and once
    more at the end. *)
Lemma complete_run_counts (trace : list Event) (s : State Row) :
  forallb undisturbed trace = true ->
  run Row generate cfg trace (init Row cfg) = Some s ->
  returned Row s = true ->
  execs Row s = numRows cfg /\ stored Row s = numRows cfg
  /\ commits Row s = numRows cfg / batch cfg + 1.
Proof.
  intros Hclean Hrun Hret.
  destruct (load_inv_run trace _ _ Hclean load_inv_init Hrun)
    as (_ & _ & w & _ & Hw).
  unfold worker_inv in Hw.
  destruct (pc Row w); try exact Hw; intuition congruence.
Qed.

End SingleWorkerRuns.

(** The counts of a complete run of 100 rows in batches of 10. *)
Lemma hundred_rows_counts (cap : nat) (trace : list Event) (s : State nat) :
  forallb undisturbed trace = true ->
  run nat id (load_config cap) trace (init nat (load_config cap)) = Some s ->
  returned nat s = true ->
  execs nat s = 100 /\ stored nat s = 100 /\ commits nat s = 11.
Proof.
  intros Hclean Hrun Hret.
  assert (Hrows : 0 <= numRows (load_config cap)) by (cbn; lia).
  assert (Hbatch : 1 <= batch (load_config cap)) by (cbn; lia).
  exact (complete_run_counts nat id (load_config cap) Hrows Hbatch eq_refl
           trace s Hclean Hrun Hret).
Qed.

Lemma complete_trace_runs :
  forallb undisturbed complete_trace = true
  /\ exists s,
       run nat id (load_config 1000) complete_trace
           (init nat (load_config 1000)) = Some s
       /\ returned nat s = true.
Proof.
  split; [reflexivity|]. eexists. split; [vm_compute; reflexivity|].
  reflexivity.
Qed.

(** C3, as the code has it.  With one worker, 100 rows and a batch size of
    10 (whatever the capacity of the channel and whatever the rows), every
    run that is neither cancelled nor hit by a database failure and in
    which [LoadData] has returned executed the insert statement exactly 100
    times, stored exactly 100 rows, and made exactly 11 commits: one per
    full batch of 10 and the unconditional commit after the loop. *)
Theorem batched_load_counts (Row : Type) (generate : nat -> Row) (cap : nat)
    (trace : list Event) (s : State Row) :
  forallb undisturbed trace = true ->
  run Row generate (load_config cap) trace (init Row (load_config cap))
  = Some s ->
  returned Row s = true ->
  execs Row s = 100 /\ stored Row s = 100 /\ commits Row s = 11.
Proof.
  intros Hclean Hrun Hret.
  assert (Hrows : 0 <= numRows (load_config cap)) by (cbn; lia).
  assert (Hbatch : 1 <= batch (load_config cap)) by (cbn; lia).
  exact (complete_run_counts Row generate (load_config cap) Hrows Hbatch
           eq_refl trace s Hclean Hrun Hret).
Qed.

Lemma batched_load_counts_witness :
  exists s,
    run nat id (load_config 1000) complete_trace (init nat (load_config 1000))
    = Some s
    /\ execs nat s = 100 /\ stored nat s = 100 /\ commits nat s = 11.
Proof.
  destruct (run nat id (load_config 1000) complete_trace
                (init nat (load_config 1000))) as [s|] eqn:Hrun;
    [|vm_compute in Hrun; discriminate].
  exists s. split; [reflexivity|].
  apply (batched_load_counts nat id 1000 complete_trace s).
  - reflexivity.
  - exact Hrun.
  - vm_compute in Hrun. injection Hrun as <-. reflexivity.
Defined.

(** C3 as stated does not hold: the complete run [complete_trace] makes 11
    commits, not 10. *)
Lemma eleven_commits_not_ten : ~ ten_commits.
Proof.
  intros Hclaim.
  destruct complete_trace_runs as (Hclean & s & Hrun & Hret).
  destruct (Hclaim 1000%nat complete_trace s Hclean Hrun Hret) as [_ Hten].
  destruct (hundred_rows_counts 1000 complete_trace s Hclean Hrun Hret)
    as (_ & _ & Heleven).
  lia.
Qed.

Section Abandoned.

Variable Row : Type.
Variable generate : nat -> Row.
Variable cfg : Config.

Lemma forallb_lookup {A} (f : A -> bool) (xs : list A) (i : nat) (x : A) :
  forallb f xs = true -> xs !! i = Some x -> f x = true.
Proof.
  intros Hall Hx. apply (proj1 (forallb_forall f xs) Hall).
  apply list_elem_of_In. apply list_elem_of_lookup. eauto.
Qed.

Lemma abandoned_set_worker (s : State Row) (i j k : nat) (w : Worker Row)
    (e c st : Z) :
  i <> j -> abandoned s i k ->
  abandoned (set_worker Row s j w (channel Row s) e c st) i k.
Proof.
  intros Hne (Hp & Hcl & Hch & (wi & Hwi & Hpc) & Hret).
  unfold abandoned. cbn. repeat split; try assumption.
  exists wi. split; [|assumption].
  rewrite list_lookup_insert_ne by auto. exact Hwi.
Qed.

(** Nothing gets the waiting worker going again. *)
Lemma abandoned_step (e : Event) (s s' : State Row) (i k : nat) :
  abandoned s i k -> step Row generate cfg e s = Some s' ->
  abandoned s' i k.
Proof.
  intros Hab Hstep.
  pose proof Hab as (Hp & Hcl & Hch & (wi & Hwi & Hpc) & Hret).
  destruct e as [| |j fault|]; cbn [step] in Hstep.
  - injection Hstep as <-. unfold abandoned. cbn. eauto 10.
  - unfold generateRows_step in Hstep. rewrite Hp in Hstep. discriminate.
  - unfold Load_step in Hstep.
    destruct (workers Row s !! j) as [wj|] eqn:Hwj; [|discriminate].
    destruct (Nat.eq_dec i j) as [<- | Hne].
    + rewrite Hwi in Hwj. injection Hwj as <-.
      rewrite Hpc, Hch, Hcl in Hstep. discriminate.
    + destruct (pc Row wj).
      * destruct (fault_eqb _ _); injection Hstep as <-;
          apply abandoned_set_worker; assumption.
      * rewrite Hch, Hcl in Hstep. discriminate.
      * repeat match type of Hstep with
               | (if ?b then _ else _) = _ => destruct b
               end; injection Hstep as <-;
          apply abandoned_set_worker; assumption.
      * destruct (fault_eqb _ _); injection Hstep as <-;
          apply abandoned_set_worker; assumption.
      * discriminate.
  - unfold join_step in Hstep.
    destruct (forallb _ _) eqn:Hall; [|discriminate].
    apply (forallb_lookup _ _ _ _ Hall) in Hwi.
    unfold is_done in Hwi. rewrite Hpc in Hwi. discriminate.
Qed.

Lemma abandoned_run (trace : list Event) :
  forall (s s' : State Row) (i k : nat),
    abandoned s i k -> run Row generate cfg trace s = Some s' ->
    abandoned s' i k.
Proof.
  induction trace as [|e trace IH]; intros s s' i k Hab Hrun.
  - injection Hrun as <-. exact Hab.
  - cbn [run] in Hrun.
    destruct (step Row generate cfg e s) as [s1|] eqn:Hstep; [|discriminate].
    apply (IH s1 s' i k); [|assumption].
    apply (abandoned_step e s s1); assumption.
Qed.

End Abandoned.

Section Closing.

Variable Row : Type.
Variable generate : nat -> Row.
Variable cfg : Config.

Lemma closed_by_producer_step (e : Event) (s s' : State Row) :
  closed_by_producer s -> step Row generate cfg e s = Some s' ->
  closed_by_producer s'.
Proof.
  unfold closed_by_producer. intros Hcl Hstep.
  destruct e as [| |i fault|]; cbn [step] in Hstep.
  - injection Hstep as <-. exact Hcl.
  - unfold generateRows_step in Hstep.
    destruct (producer Row s) as [k|k values|k|k]; try discriminate;
      repeat match type of Hstep with
             | (if ?b then _ else _) = _ => destruct b
             end; try discriminate; injection Hstep as <-; cbn; auto.
  - unfold Load_step in Hstep.
    destruct (workers Row s !! i) as [w|]; [|discriminate].
    destruct (pc Row w);
      repeat match type of Hstep with
             | (if ?b then _ else _) = _ => destruct b eqn:?
             | match ?ch with [] => _ | _ :: _ => _ end = _ => destruct ch
             end; try discriminate; injection Hstep as <-; cbn; congruence.
  - unfold join_step in Hstep.
    destruct (forallb _ _ && _); [|discriminate].
    injection Hstep as <-. exact Hcl.
Qed.

(** In every run, a producer that has returned on cancellation has left
    the channel open. *)
Lemma cancelled_producer_leaves_channel_open (trace : list Event) :
  forall (s s' : State Row) (k : nat),
    closed_by_producer s ->
    run Row generate cfg trace s = Some s' ->
    producer Row s' = PCancelled k ->
    closed Row s' = false.
Proof.
  induction trace as [|e trace IH]; intros s s' k Hcl Hrun Hp.
  - injection Hrun as <-. unfold closed_by_producer in Hcl.
    rewrite Hp in Hcl. exact Hcl.
  - cbn [run] in Hrun.
    destruct (step Row generate cfg e s) as [s1|] eqn:Hstep; [|discriminate].
    apply (IH s1 s' k); try assumption.
    apply (closed_by_producer_step e s s1); assumption.
Qed.

End Closing.

(** C2 (the code departs from the claim).  With 100 rows to load and one
    worker, there is a run in which the context is cancelled after one row
    was published: the producer then returns without publishing another
    row, but it does not close the channel; the worker waits on the open,
    empty channel, and in no continuation of the run is the channel closed
    or does [LoadData] return. *)
Theorem cancelled_load_never_returns :
  exists s,
    run nat id (load_config 5) cancelled_trace (init nat (load_config 5))
    = Some s
    /\ cancelled nat s = true
    /\ published nat s = 1
    /\ producer nat s = PCancelled 1
    /\ closed nat s = false
    /\ forall trace s',
         run nat id (load_config 5) trace s = Some s' ->
         published nat s' = 1 /\ closed nat s' = false
         /\ returned nat s' = false.
Proof.
  eexists. split; [vm_compute; reflexivity|].
  repeat (split; [reflexivity|]).
  intros trace s' Hrun.
  apply (abandoned_run nat id (load_config 5) trace _ s' 0%nat 1%nat) in Hrun.
  - destruct Hrun as (Hp & Hcl & _ & _ & Hret).
    unfold published. rewrite Hp. auto.
  - unfold abandoned. cbn. repeat split. eexists. split; reflexivity.
Qed.

(* ===================================================================== *)
(** * More on the generators *)
(* ===================================================================== *)

Lemma byte_at_member (s : string) (i : Z) :
  0 <= i < len s -> In (byte_at s i) (bytes s).
Proof.
  unfold byte_at, len, bytes. intros Hi.
  assert (Hn : (Z.to_nat i < String.length s)%nat) by lia.
  generalize dependent (Z.to_nat i). clear. intros n.
  revert n. induction s as [|c s IH]; intros n Hn; cbn in *; [lia|].
  destruct n as [|n]; [auto|]. right. apply IH. lia.
Qed.

Lemma length_string_of_list (chars : list ascii) :
  String.length (String.string_of_list_ascii chars) = length chars.
Proof. induction chars as [|c chars IH]; cbn; congruence. Qed.

Lemma bytes_string_of_list (chars : list ascii) :
  bytes (String.string_of_list_ascii chars) = chars.
Proof. apply String.list_ascii_of_string_of_list_ascii. Qed.

(** A loop whose body cannot fail yields one item per iteration, each with
    the property the body guarantees; it leaves the tape [n] draws further
    when each iteration takes one draw. *)
Lemma for_range_one_draw {A} (P : A -> Prop) (n : nat) (body : M A) :
  (forall r, exists a, body r = Ok (a, advance r) /\ P a) ->
  forall r, exists xs,
    for_range n body r = Ok (xs, Nat.iter n advance r)
    /\ length xs = n /\ Forall P xs.
Proof.
  intros Hbody. induction n as [|n IH]; intros r; cbn [for_range].
  - exists []. repeat split. constructor.
  - unfold mbind, M_bind, bind.
    destruct (Hbody r) as (x & -> & Hx).
    destruct (IH (advance r)) as (xs & -> & Hlen & Hxs).
    exists (x :: xs). split; [|split; [cbn; lia | constructor; assumption]].
    unfold ret. do 2 f_equal. symmetry. apply Nat.iter_succ_r.
Qed.

Lemma StringGenerator_returns (g : StringGenerator.t) (r : Rand) :
  0 <= StringGenerator.Length g ->
  StringGenerator.Chars g <> EmptyString ->
  exists s,
    StringGenerator.GenerateValue g r
    = Ok (s, Nat.iter (Z.to_nat (StringGenerator.Length g)) advance r)
    /\ len s = StringGenerator.Length g
    /\ Forall (fun c => In c (bytes (StringGenerator.Chars g))) (bytes s).
Proof.
  intros Hlen Hchars.
  unfold StringGenerator.GenerateValue, make_len, mbind, M_bind, bind.
  destruct (Z.ltb_spec (StringGenerator.Length g) 0); [lia|]. cbn [ret].
  assert (Hpos : 0 < len (StringGenerator.Chars g)).
  { unfold len. destruct (StringGenerator.Chars g); [contradiction|cbn; lia]. }
  edestruct (for_range_one_draw
               (fun c => In c (bytes (StringGenerator.Chars g)))
               (Z.to_nat (StringGenerator.Length g))) as (chars & -> & Hn & Hall).
  { intros r0. destruct (IntN_ok _ r0 Hpos) as [Hdraw Hrange].
    unfold mbind, M_bind, bind. rewrite Hdraw.
    eexists. split; [reflexivity|]. apply byte_at_member. exact Hrange. }
  eexists. split; [reflexivity|]. split.
  - unfold len. rewrite length_string_of_list. lia.
  - rewrite bytes_string_of_list. exact Hall.
Qed.

(** X1.  A string generator with a length that is not negative and a
    non-empty alphabet returns, from every tape, a string of exactly
    [Length] bytes, each of them a byte of [Chars]; it takes one draw per
    byte. *)
Theorem StringGenerator_shape (g : StringGenerator.t) (r : Rand) :
  0 <= StringGenerator.Length g ->
  StringGenerator.Chars g <> EmptyString ->
  exists s,
    StringGenerator.GenerateValue g r
    = Ok (s, Nat.iter (Z.to_nat (StringGenerator.Length g)) advance r)
    /\ len s = StringGenerator.Length g
    /\ Forall (fun c => In c (bytes (StringGenerator.Chars g))) (bytes s).
Proof. exact (StringGenerator_returns g r). Qed.

Lemma StringGenerator_shape_witness :
  exists s,
    StringGenerator.GenerateValue (NewStringGenerator 8) (tape_from 3)
    = Ok (s, Nat.iter 8 advance (tape_from 3))
    /\ len s = 8
    /\ Forall (fun c => In c (bytes alphanumeric)) (bytes s).
Proof.
  apply (StringGenerator_shape (NewStringGenerator 8) (tape_from 3)).
  - cbn. lia.
  - discriminate.
Defined.

(** X2.  A string generator panics exactly when its length is negative
    ([make] refuses it) or its length is positive and its alphabet is empty
    ([rand.IntN(0)]); the tape plays no role in that. *)
Theorem StringGenerator_panics_iff (g : StringGenerator.t) (r : Rand) :
  panics (StringGenerator.GenerateValue g r)
  <-> StringGenerator.Length g < 0
      \/ (0 < StringGenerator.Length g
          /\ StringGenerator.Chars g = EmptyString).
Proof.
  split.
  - intros [msg Hpanic].
    destruct (Z.ltb_spec (StringGenerator.Length g) 0) as [|Hlen]; [auto|].
    right.
    destruct (String.string_dec (StringGenerator.Chars g) EmptyString) as [He|Hne].
    + split; [|exact He].
      destruct (Z.eq_dec (StringGenerator.Length g) 0) as [Hz|]; [|lia].
      unfold StringGenerator.GenerateValue, make_len, mbind, M_bind, bind
        in Hpanic.
      rewrite Hz in Hpanic. cbn in Hpanic. discriminate.
    + destruct (StringGenerator_returns g r Hlen Hne) as (s & Hok & _).
      congruence.
  - intros [Hneg | [Hpos Hempty]];
      unfold StringGenerator.GenerateValue, make_len, mbind, M_bind, bind.
    + destruct (Z.ltb_spec (StringGenerator.Length g) 0); [|lia].
      eexists. reflexivity.
    + destruct (Z.ltb_spec (StringGenerator.Length g) 0); [lia|]. cbn [ret].
      destruct (Z.to_nat (StringGenerator.Length g)) as [|n] eqn:Hn; [lia|].
      cbn [for_range]. unfold mbind, M_bind, bind.
      rewrite Hempty. cbn. eexists. reflexivity.
Qed.

Lemma StringGenerator_panics_iff_witness :
  panics (StringGenerator.GenerateValue (NewStringGenerator (-5)) (tape_from 0)).
Proof.
  apply (proj2 (StringGenerator_panics_iff (NewStringGenerator (-5))
                  (tape_from 0))).
  left. cbn. lia.
Defined.

(** X3.  A bit-string generator with a length that is not negative returns
    a string of exactly [Length] bytes, each of them the character 0 or 1,
    and takes one draw per bit; with a negative length it panics. *)
Theorem BitStringGenerator_shape (g : BitStringGenerator.t) (r : Rand) :
  (0 <= BitStringGenerator.Length g ->
   exists s,
     BitStringGenerator.GenerateValue g r
     = Ok (s, Nat.iter (Z.to_nat (BitStringGenerator.Length g)) advance r)
     /\ len s = BitStringGenerator.Length g
     /\ Forall (fun c => c = "0"%char \/ c = "1"%char) (bytes s))
  /\ (BitStringGenerator.Length g < 0 ->
      panics (BitStringGenerator.GenerateValue g r)).
Proof.
  unfold BitStringGenerator.GenerateValue, make_len, mbind, M_bind, bind.
  split; intros Hlen.
  - destruct (Z.ltb_spec (BitStringGenerator.Length g) 0); [lia|]. cbn [ret].
    edestruct (for_range_one_draw
                 (fun c => c = "0"%char \/ c = "1"%char)
                 (Z.to_nat (BitStringGenerator.Length g)))
      as (bits & -> & Hn & Hall).
    { intros r0. destruct (IntN_ok 2 r0) as [Hdraw _]; [lia|].
      unfold mbind, M_bind, bind. rewrite Hdraw.
      eexists. split; [reflexivity|]. destruct (_ =? 1); auto. }
    eexists. split; [reflexivity|]. split.
    + unfold len. rewrite length_string_of_list. lia.
    + rewrite bytes_string_of_list. exact Hall.
  - destruct (Z.ltb_spec (BitStringGenerator.Length g) 0); [|lia].
    eexists. reflexivity.
Qed.

Lemma BitStringGenerator_shape_witness :
  (exists s,
     BitStringGenerator.GenerateValue (NewBitStringGenerator 8) (tape_from 1)
     = Ok (s, Nat.iter 8 advance (tape_from 1))
     /\ len s = 8
     /\ Forall (fun c => c = "0"%char \/ c = "1"%char) (bytes s))
  /\ panics (BitStringGenerator.GenerateValue (NewBitStringGenerator (-1))
               (tape_from 1)).
Proof.
  split.
  - apply (proj1 (BitStringGenerator_shape (NewBitStringGenerator 8)
                    (tape_from 1))). cbn. lia.
  - apply (proj2 (BitStringGenerator_shape (NewBitStringGenerator (-1))
                    (tape_from 1))). cbn. lia.
Defined.

Lemma IntGenerator_reaches (g : IntGenerator.t) (v : Z) :
  in_int64 (IntGenerator.Min g) -> in_int64 (IntGenerator.Max g) ->
  IntGenerator.Max g - IntGenerator.Min g + 1 <= maxInt64 ->
  IntGenerator.Min g <= v <= IntGenerator.Max g ->
  IntGenerator.GenerateValue g (tape_from (v - IntGenerator.Min g))
  = Ok (v, advance (tape_from (v - IntGenerator.Min g))).
Proof.
  intros Hmin Hmax Hfit Hv.
  unfold IntGenerator.GenerateValue, mbind, M_bind, bind, int_add, int_sub.
  unfold in_int64, minInt64, maxInt64 in *.
  rewrite (wrap64_id (_ - _)) by (unfold in_int64, minInt64, maxInt64; lia).
  rewrite (wrap64_id (_ + 1)) by (unfold in_int64, minInt64, maxInt64; lia).
  destruct (IntN_ok (IntGenerator.Max g - IntGenerator.Min g + 1)
              (tape_from (v - IntGenerator.Min g))) as [-> _]; [lia|].
  unfold tape_from at 1. rewrite Z.mod_small by lia.
  unfold ret. rewrite wrap64_id by (unfold in_int64, minInt64, maxInt64; lia).
  do 2 f_equal. lia.
Qed.

(** X4.  Where the bounds are in order and [Max - Min + 1] fits in [int64],
    the values of an integer generator are exactly the integers between
    the bounds, the bounds included: every call returns one of them after
    one draw, and each of them is returned from some tape.  In particular
    a generator with [Min = Max] always returns that value. *)
Theorem IntGenerator_exact_range (g : IntGenerator.t) :
  in_int64 (IntGenerator.Min g) -> in_int64 (IntGenerator.Max g) ->
  IntGenerator.Min g <= IntGenerator.Max g ->
  IntGenerator.Max g - IntGenerator.Min g + 1 <= maxInt64 ->
  (forall r, exists v,
      IntGenerator.GenerateValue g r = Ok (v, advance r)
      /\ IntGenerator.Min g <= v <= IntGenerator.Max g)
  /\ (forall v,
        IntGenerator.Min g <= v <= IntGenerator.Max g ->
        exists r, IntGenerator.GenerateValue g r = Ok (v, advance r)).
Proof.
  intros Hmin Hmax Hle Hfit. split.
  - intros r. apply IntGenerator_in_range; assumption.
  - intros v Hv. exists (tape_from (v - IntGenerator.Min g)).
    apply IntGenerator_reaches; assumption.
Qed.

Lemma IntGenerator_exact_range_witness :
  (forall r, exists v,
      IntGenerator.GenerateValue (NewIntGenerator 1 1000) r
      = Ok (v, advance r)
      /\ 1 <= v <= 1000)
  /\ (forall v,
        1 <= v <= 1000 ->
        exists r, IntGenerator.GenerateValue (NewIntGenerator 1 1000) r
                  = Ok (v, advance r)).
Proof.
  apply (IntGenerator_exact_range (NewIntGenerator 1 1000));
    unfold in_int64, minInt64, maxInt64; cbn; lia.
Defined.

(** X5.  An integer generator whose upper bound is below its lower bound
    (by less than 2^63) panics on every call. *)
Theorem IntGenerator_reversed_panics (g : IntGenerator.t) (r : Rand) :
  in_int64 (IntGenerator.Min g) -> in_int64 (IntGenerator.Max g) ->
  IntGenerator.Max g < IntGenerator.Min g ->
  IntGenerator.Min g - IntGenerator.Max g <= maxInt64 ->
  IntGenerator.GenerateValue g r = Panic "invalid argument to IntN".
Proof.
  intros Hmin Hmax Hrev Hfit.
  unfold IntGenerator.GenerateValue, mbind, M_bind, bind, int_add, int_sub.
  unfold in_int64, minInt64, maxInt64 in *.
  rewrite (wrap64_id (_ - _)) by (unfold in_int64, minInt64, maxInt64; lia).
  rewrite (wrap64_id (_ + 1)) by (unfold in_int64, minInt64, maxInt64; lia).
  rewrite IntN_panics by lia. reflexivity.
Qed.

Lemma IntGenerator_reversed_panics_witness :
  IntGenerator.GenerateValue (NewIntGenerator 10 1) (tape_from 0)
  = Panic "invalid argument to IntN".
Proof.
  apply (IntGenerator_reversed_panics (NewIntGenerator 10 1) (tape_from 0));
    unfold in_int64, minInt64, maxInt64; cbn; lia.
Defined.

(** X6.  An enum generator over the empty list panics on every call; over
    any list, each of its members is returned from some tape. *)
Theorem EnumGenerator_edges (values : list string) :
  (values = [] ->
   forall r, EnumGenerator.GenerateValue (NewEnumGenerator values) r
             = Panic "invalid argument to IntN")
  /\ (forall i v, values !! i = Some v ->
        EnumGenerator.GenerateValue (NewEnumGenerator values)
          (tape_from (Z.of_nat i))
        = Ok (v, advance (tape_from (Z.of_nat i)))).
Proof.
  split.
  - intros -> r. reflexivity.
  - intros i v Hv.
    pose proof (lookup_lt_Some _ _ _ Hv) as Hi.
    unfold EnumGenerator.GenerateValue, mbind, M_bind, bind. cbn.
    destruct (IntN_ok (Z.of_nat (length values)) (tape_from (Z.of_nat i)))
      as [-> _]; [lia|].
    unfold tape_from at 1. rewrite Z.mod_small by lia. rewrite Nat2Z.id.
    unfold ret. do 2 f_equal.
    apply nth_lookup_Some with (d := EmptyString) in Hv. exact Hv.
Qed.

Lemma EnumGenerator_edges_witness :
  EnumGenerator.GenerateValue (NewEnumGenerator []) (tape_from 4)
  = Panic "invalid argument to IntN"
  /\ EnumGenerator.GenerateValue (NewEnumGenerator ["a"; "b"; "c"])
       (tape_from 2)
     = Ok ("c", advance (tape_from 2)).
Proof.
  split.
  - apply (proj1 (EnumGenerator_edges [])). reflexivity.
  - apply (proj2 (EnumGenerator_edges ["a"; "b"; "c"]) 2%nat "c"). reflexivity.
Defined.

(* ===================================================================== *)
(** * Interval, IP address and date generators *)
(* ===================================================================== *)

Ltac unfold_int64 := unfold in_int64, minInt64, maxInt64 in *.

(** X7.  An interval generator whose bounds are in order (and whose span
    fits in [int64]) returns the text [<h> hours <m> minutes <s> seconds]
    with [MinHours <= h <= MaxHours], [m] and [s] below 60, taking three
    draws. *)
Theorem IntervalGenerator_shape (g : IntervalGenerator.t) (r : Rand) :
  in_int64 (IntervalGenerator.MinHours g) ->
  in_int64 (IntervalGenerator.MaxHours g) ->
  IntervalGenerator.MinHours g <= IntervalGenerator.MaxHours g ->
  IntervalGenerator.MaxHours g - IntervalGenerator.MinHours g + 1 <= maxInt64 ->
  exists h m s,
    IntervalGenerator.GenerateValue g r
    = Ok (strconv.Itoa h +:+ " hours " +:+ strconv.Itoa m +:+ " minutes "
          +:+ strconv.Itoa s +:+ " seconds",
          advance (advance (advance r)))
    /\ IntervalGenerator.MinHours g <= h <= IntervalGenerator.MaxHours g
    /\ 0 <= m < 60 /\ 0 <= s < 60.
Proof.
  intros Hmin Hmax Hle Hfit.
  unfold IntervalGenerator.GenerateValue, mbind, M_bind, bind, int_add, int_sub.
  unfold_int64.
  rewrite (wrap64_id (_ - _)) by (unfold_int64; lia).
  rewrite (wrap64_id (_ + 1)) by (unfold_int64; lia).
  destruct (IntN_ok (IntervalGenerator.MaxHours g
                     - IntervalGenerator.MinHours g + 1) r) as [-> Hh]; [lia|].
  destruct (IntN_ok 60 (advance r)) as [-> Hm]; [lia|].
  destruct (IntN_ok 60 (advance (advance r))) as [-> Hs]; [lia|].
  rewrite wrap64_id by (unfold_int64; lia).
  eexists _, _, _. split; [reflexivity|]. lia.
Qed.

Lemma IntervalGenerator_shape_witness :
  exists h m s,
    IntervalGenerator.GenerateValue (NewIntervalGenerator 0 100) (tape_from 75)
    = Ok (strconv.Itoa h +:+ " hours " +:+ strconv.Itoa m +:+ " minutes "
          +:+ strconv.Itoa s +:+ " seconds",
          advance (advance (advance (tape_from 75))))
    /\ 0 <= h <= 100 /\ 0 <= m < 60 /\ 0 <= s < 60.
Proof.
  apply (IntervalGenerator_shape (NewIntervalGenerator 0 100) (tape_from 75));
    unfold_int64; cbn; lia.
Defined.

(** X8.  The IP generator never panics.  Without [IPv6] it returns four
    decimal numbers between 0 and 255 joined by dots; with [IPv6] it returns
    eight groups, each the hexadecimal text of a number below 65536, joined
    by colons.  The default policy only ever configures the IPv4 form. *)
Theorem IPGenerator_shape :
  (forall r, exists a b c d,
      IPGenerator.GenerateValue (NewIPGenerator false) r
      = Ok (strconv.Itoa a +:+ "." +:+ strconv.Itoa b +:+ "."
            +:+ strconv.Itoa c +:+ "." +:+ strconv.Itoa d,
            Nat.iter 4 advance r)
      /\ Forall (fun octet => 0 <= octet <= 255) [a; b; c; d])
  /\ (forall r, exists groups,
        IPGenerator.GenerateValue (NewIPGenerator true) r
        = Ok (GoStrings.Join (List.map fmt.hex groups) ":",
              Nat.iter 8 advance r)
        /\ length groups = 8%nat
        /\ Forall (fun group => 0 <= group <= 65535) groups)
  /\ (forall dbType ts col g,
        default_generator dbType ts col = Some (GIP g) ->
        IPGenerator.IPv6 g = false).
Proof.
  split; [|split].
  - intros r.
    unfold IPGenerator.GenerateValue, mbind, M_bind, bind. cbn [IPGenerator.IPv6
      NewIPGenerator].
    destruct (IntN_ok 256 r) as [-> Ha]; [lia|].
    destruct (IntN_ok 256 (advance r)) as [-> Hb]; [lia|].
    destruct (IntN_ok 256 (advance (advance r))) as [-> Hc]; [lia|].
    destruct (IntN_ok 256 (advance (advance (advance r)))) as [-> Hd]; [lia|].
    eexists _, _, _, _. split; [reflexivity|].
    repeat constructor; lia.
  - intros r.
    unfold IPGenerator.GenerateValue, mbind, M_bind, bind. cbn [IPGenerator.IPv6
      NewIPGenerator].
    edestruct (for_range_one_draw
                 (fun text => exists group,
                      text = fmt.hex group /\ 0 <= group <= 65535) 8)
      as (parts & -> & Hlen & Hall).
    { intros r0. destruct (IntN_ok 65536 r0) as [Hdraw Hrange]; [lia|].
      unfold mbind, M_bind, bind. rewrite Hdraw.
      eexists. split; [reflexivity|]. eexists. split; [reflexivity|]. lia. }
    clear -Hlen Hall.
    assert (Hgroups : exists groups, parts = List.map fmt.hex groups
                       /\ Forall (fun group => 0 <= group <= 65535) groups).
    { clear Hlen. induction Hall as [|text parts (group & -> & Hgroup) _ IH].
      - exists []. split; [reflexivity | constructor].
      - destruct IH as (groups & -> & Hgroups).
        exists (group :: groups). split; [reflexivity|].
        constructor; assumption. }
    destruct Hgroups as (groups & -> & Hgroups).
    exists groups. split; [reflexivity|].
    split; [|exact Hgroups]. rewrite length_map in Hlen. exact Hlen.
  - intros dbType ts col g Hsel.
    unfold default_generator, generator_for_type in Hsel.
    split_ifs; try discriminate; injection Hsel as <-; reflexivity.
Qed.

Lemma DateGenerator_values (g : DateGenerator.t) (r : Rand) :
  let start := time.Unix (DateGenerator.Start g) in
  let finish := time.Unix (DateGenerator.End_ g) in
  in_int64 start -> in_int64 finish -> in_int64 (finish - start) ->
  (start < finish ->
   exists s, DateGenerator.GenerateValue g r
             = Ok (time.UnixTime s 0, advance r)
             /\ start <= s < finish)
  /\ (finish <= start ->
      DateGenerator.GenerateValue g r = Panic "invalid argument to IntN").
Proof.
  intros start finish Hstart Hfinish Hdelta.
  unfold DateGenerator.GenerateValue, mbind, M_bind, bind, int_add, int_sub.
  fold start finish. rewrite (wrap64_id (finish - start)) by exact Hdelta.
  split; intros Horder.
  - destruct (IntN_ok (finish - start) r) as [-> Hn]; [lia|].
    rewrite wrap64_id by (unfold_int64; lia).
    eexists. split; [reflexivity|]. lia.
  - rewrite IntN_panics by lia. reflexivity.
Qed.

(** X9.  A date generator whose end lies after its start returns an instant
    with whole seconds [s], [Start.Unix() <= s < End.Unix()]: the end itself
    is never returned.  When the end is not after the start it panics on
    every call. *)
Theorem DateGenerator_range (g : DateGenerator.t) (r : Rand) :
  let start := time.Unix (DateGenerator.Start g) in
  let finish := time.Unix (DateGenerator.End_ g) in
  in_int64 start -> in_int64 finish -> in_int64 (finish - start) ->
  (start < finish ->
   exists s, DateGenerator.GenerateValue g r
             = Ok (time.UnixTime s 0, advance r)
             /\ start <= s < finish)
  /\ (finish <= start ->
      DateGenerator.GenerateValue g r = Panic "invalid argument to IntN").
Proof. exact (DateGenerator_values g r). Qed.

Lemma DateGenerator_range_witness :
  (exists s,
     DateGenerator.GenerateValue (NewDateGenerator date_start date_end)
       (tape_from 5)
     = Ok (time.UnixTime s 0, advance (tape_from 5))
     /\ 946684800 <= s < 1703980800)
  /\ DateGenerator.GenerateValue (NewDateGenerator date_end date_end)
       (tape_from 5)
     = Panic "invalid argument to IntN".
Proof.
  split.
  - apply (proj1 (DateGenerator_range (NewDateGenerator date_start date_end)
                    (tape_from 5)
                    ltac:(vm_compute; split; discriminate)
                    ltac:(vm_compute; split; discriminate)
                    ltac:(vm_compute; split; discriminate))).
    reflexivity.
  - apply (proj2 (DateGenerator_range (NewDateGenerator date_end date_end)
                    (tape_from 5)
                    ltac:(vm_compute; split; discriminate)
                    ltac:(vm_compute; split; discriminate)
                    ltac:(vm_compute; split; discriminate))).
    vm_compute. discriminate.
Defined.

(** X10.  The date generator that the default policy binds to a [date]
    column returns, from every tape, an instant from 2000-01-01T00:00:00Z
    (946684800) up to, but not including, 2023-12-31T00:00:00Z
    (1703980800): no instant of the last day of the configured range is ever
    produced. *)
Theorem policy_date_range (dbType : string) (ts : TableStructure)
    (col : TableColumn) (g : DateGenerator.t) (r : Rand) :
  default_generator dbType ts col = Some (GDate g) ->
  exists s, DateGenerator.GenerateValue g r
            = Ok (time.UnixTime s 0, advance r)
            /\ 946684800 <= s < 1703980800.
Proof.
  intros Hsel.
  assert (Hg : g = NewDateGenerator date_start date_end).
  { unfold default_generator, generator_for_type in Hsel.
    split_ifs; try discriminate; injection Hsel as <-; reflexivity. }
  subst g.
  apply (proj1 (DateGenerator_values (NewDateGenerator date_start date_end) r
                  ltac:(vm_compute; split; discriminate)
                  ltac:(vm_compute; split; discriminate)
                  ltac:(vm_compute; split; discriminate))).
  reflexivity.
Qed.

Lemma policy_date_range_witness :
  exists s,
    DateGenerator.GenerateValue (NewDateGenerator date_start date_end)
      (tape_from (-1))
    = Ok (time.UnixTime s 0, advance (tape_from (-1)))
    /\ 946684800 <= s < 1703980800.
Proof.
  apply (policy_date_range "mysql" orders_table (column "born" "date")).
  reflexivity.
Defined.

(* ===================================================================== *)
(** * More on the selection policy and the registry *)
(* ===================================================================== *)

Lemma generator_for_type_none (dbType : string) (col : TableColumn) :
  generator_for_type dbType col = None
  <-> type_token col = "time"
      /\ GoStrings.Contains (GoStrings.ToLower (DataType col)) "timestamp"
         = true.
Proof.
  split.
  - unfold generator_for_type. fold (type_token col). intros H.
    split_ifs; try discriminate.
    match goal with
    | Htok : String.eqb (type_token col) "time" = true,
      Hts : negb _ = false |- _ =>
        apply String.eqb_eq in Htok; apply negb_false_iff in Hts; auto
    end.
  - intros [Htok Hts]. unfold generator_for_type. fold (type_token col).
    rewrite Htok. cbn. rewrite Hts. reflexivity.
Qed.

(** X11.  The columns the default policy leaves without a generator are
    exactly: the single-column primary keys whose type mentions "int"; the
    foreign-key columns whose type mentions none of "int", "char", "text";
    and the columns (neither of the former) whose type token is [time] while
    the type mentions "timestamp". *)
Theorem default_generator_none_iff (dbType : string) (ts : TableStructure)
    (col : TableColumn) :
  let dataType := GoStrings.ToLower (DataType col) in
  default_generator dbType ts col = None
  <-> (sole_primary_key ts col /\ GoStrings.Contains dataType "int" = true)
      \/ (named_in_foreign_key ts col
          /\ GoStrings.Contains dataType "int" = false
          /\ GoStrings.Contains dataType "char" = false
          /\ GoStrings.Contains dataType "text" = false)
      \/ (~ named_in_foreign_key ts col
          /\ type_token col = "time"
          /\ GoStrings.Contains dataType "timestamp" = true).
Proof.
  intros dataType. subst dataType. unfold default_generator.
  rewrite <- isPrimaryAutoIncrement_spec, <- isForeignKey_spec.
  rewrite <- generator_for_type_none with (dbType := dbType).
  set (dataType := GoStrings.ToLower (DataType col)).
  destruct (isPrimaryAutoIncrement ts col) eqn:Hauto.
  { split; auto. }
  destruct (isForeignKey ts col) eqn:Hfk.
  - destruct (GoStrings.Contains dataType "int") eqn:Hint.
    + split; [discriminate|]. intros [H | [H | H]]; [discriminate | |].
      * destruct H as (_ & H & _). discriminate.
      * destruct H as [H _]. exfalso. apply H. reflexivity.
    + destruct (GoStrings.Contains dataType "char") eqn:Hchar; cbn [orb].
      * split; [discriminate|]. intros [H | [H | H]]; [discriminate | |].
        -- destruct H as (_ & _ & H & _). discriminate.
        -- destruct H as [H _]. exfalso. apply H. reflexivity.
      * destruct (GoStrings.Contains dataType "text") eqn:Htext.
        -- split; [discriminate|]. intros [H | [H | H]]; [discriminate | |].
           ++ destruct H as (_ & _ & _ & H). discriminate.
           ++ destruct H as [H _]. exfalso. apply H. reflexivity.
        -- split; [intros _; right; left; repeat split | reflexivity].
  - split.
    + intros H. right. right. split; [discriminate | exact H].
    + intros [H | [H | H]]; [discriminate | | apply H].
      destruct H as [H _]. discriminate.
Qed.

(** X12.  A column that is neither skipped nor a foreign key and whose type
    token holds an opening parenthesis (a size or a value list written
    without a space, as in [varchar(255)], [decimal(10,2)] or
    [enum('a','b')]) matches no case of the dispatch: it is bound to the
    fallback string generator of length 10. *)
Theorem attached_parenthesis_falls_back (dbType : string)
    (ts : TableStructure) (col : TableColumn) :
  isPrimaryAutoIncrement ts col = false ->
  isForeignKey ts col = false ->
  GoStrings.mem_byte "(" (type_token col) = true ->
  default_generator dbType ts col = Some (GString (NewStringGenerator 10)).
Proof.
  intros Hauto Hfk Hparen. unfold default_generator. rewrite Hauto, Hfk.
  unfold generator_for_type. fold (type_token col).
  repeat match goal with
         | |- context [String.eqb (type_token col) ?name] =>
             destruct (String.eqb_spec (type_token col) name) as [Heq | _];
             [rewrite Heq in Hparen; vm_compute in Hparen; discriminate|]
         end.
  reflexivity.
Qed.

Lemma attached_parenthesis_falls_back_witness :
  default_generator "mysql" orders_table (column "price" "decimal(10,2)")
  = Some (GString (NewStringGenerator 10)).
Proof.
  apply (attached_parenthesis_falls_back "mysql" orders_table
           (column "price" "decimal(10,2)")); reflexivity.
Defined.

Lemma sized_length_cap (dataType : string) (default cap : Z) :
  default <= cap -> sized_length dataType default cap <= cap.
Proof.
  intros Hle. unfold sized_length.
  destruct (paren_argument dataType) as [arg|]; [|exact Hle].
  destruct (strconv.Atoi arg) as [size|]; [lia | exact Hle].
Qed.

(** X13.  Every string generator that the default policy binds draws from
    the 62 alphanumeric characters and has a length of at most 500; every
    bit-string generator it binds has a length of at most 64. *)
Theorem policy_length_caps (dbType : string) (ts : TableStructure)
    (col : TableColumn) :
  (forall g, default_generator dbType ts col = Some (GString g) ->
             StringGenerator.Length g <= 500
             /\ StringGenerator.Chars g = alphanumeric)
  /\ (forall g, default_generator dbType ts col = Some (GBitString g) ->
                BitStringGenerator.Length g <= 64).
Proof.
  pose proof (sized_length_cap (GoStrings.ToLower (DataType col)) 10 100).
  pose proof (sized_length_cap (GoStrings.ToLower (DataType col)) 8 64).
  split; intros g Hsel;
    unfold default_generator, generator_for_type in Hsel;
    split_ifs; try discriminate; injection Hsel as <-; cbn;
    try split; try reflexivity; lia.
Qed.

Lemma policy_length_caps_witness :
  StringGenerator.Length (NewStringGenerator 100) <= 500
  /\ StringGenerator.Chars (NewStringGenerator 100) = alphanumeric.
Proof.
  apply (proj1 (policy_length_caps "mysql" orders_table
                  (column "title" "varchar (250)"))).
  reflexivity.
Defined.

(** X14.  After the default policy has run on a fresh loader, the column
    list of the insert statement names exactly the names bound in the
    registry: every bound name is the name of a column, and every listed
    name is bound. *)
Theorem statement_lists_bound_names (dbType : string) (ts : TableStructure)
    (batchSize parallel : Z) (name : string) :
  let l := SetDefaultGenerators
             (NewTableDataLoader dbType ts batchSize parallel) in
  In name (columnNames l) <-> is_Some (Generators l !! name).
Proof.
  intros l. split; [apply columnNames_bound|].
  intros Hbound. pose proof Hbound as Hcopy.
  unfold l in Hcopy. rewrite SetDefaultGenerators_lookup in Hcopy.
  cbn [NewTableDataLoader DBType TableStruct Generators] in Hcopy.
  unfold last_assignment in Hcopy.
  destruct (find _ (rev (Columns ts))) as [c|] eqn:Hfind.
  - apply find_some in Hfind as [Hin Htest].
    apply andb_true_iff in Htest as [Hname _].
    apply String.eqb_eq in Hname. apply in_rev in Hin.
    unfold columnNames. apply in_map_iff. exists c. split; [exact Hname|].
    apply filter_In. split; [exact Hin|].
    apply bool_decide_eq_true. rewrite Hname. exact Hbound.
  - rewrite lookup_empty in Hcopy. destruct Hcopy as [? ?]. discriminate.
Qed.

(** X15.  A generator registered with [SetGenerator] under a name that is
    not the name of a column of the table changes neither the column list
    nor the text of the insert statement. *)
Theorem SetGenerator_unknown_column (l : TableDataLoader) (name : string)
    (generator : DataGenerator) :
  ~ In name (List.map Name (Columns (TableStruct l))) ->
  columnNames (SetGenerator l name generator) = columnNames l
  /\ insert_query (SetGenerator l name generator) = insert_query l.
Proof.
  intros Hnew.
  assert (Hnames : columnNames (SetGenerator l name generator) = columnNames l).
  { unfold columnNames, SetGenerator.
    cbn [with_generators TableStruct Generators]. f_equal.
    induction (Columns (TableStruct l)) as [|c columns IH]; [reflexivity|].
    cbn [List.map In] in Hnew. cbn [List.filter].
    rewrite lookup_insert_ne by (intros Heq; apply Hnew; auto).
    rewrite IH by (intros Hin; apply Hnew; auto). reflexivity. }
  split; [exact Hnames|].
  unfold insert_query, placeholders. rewrite Hnames. reflexivity.
Qed.

Lemma SetGenerator_unknown_column_witness :
  columnNames (SetGenerator (orders_loader "mysql") "no_such_column"
                 (GBool NewBoolGenerator))
  = columnNames (orders_loader "mysql")
  /\ insert_query (SetGenerator (orders_loader "mysql") "no_such_column"
                     (GBool NewBoolGenerator))
     = insert_query (orders_loader "mysql").
Proof.
  apply (SetGenerator_unknown_column (orders_loader "mysql")).
  cbn. intuition discriminate.
Defined.

(** X16.  Overriding and the policy do not commute.  A generator set with
    [SetGenerator] after [SetDefaultGenerators] is the one in the registry.
    A generator set before it is overwritten when the policy binds the
    column, and is kept (and the column is then listed in the insert
    statement) when the policy binds nothing to the column, as for a skipped
    auto-increment primary key. *)
Theorem override_order (l : TableDataLoader) (col : TableColumn)
    (custom : DataGenerator) :
  In col (Columns (TableStruct l)) ->
  only_column_named (TableStruct l) col ->
  Generators (SetGenerator (SetDefaultGenerators l) (Name col) custom)
    !! Name col = Some custom
  /\ Generators (SetDefaultGenerators (SetGenerator l (Name col) custom))
       !! Name col
     = match default_generator (DBType l) (TableStruct l) col with
       | Some chosen => Some chosen
       | None => Some custom
       end
  /\ In (Name col)
        (columnNames (SetDefaultGenerators (SetGenerator l (Name col) custom))).
Proof.
  intros Hin Honly.
  assert (Hbefore :
            Generators (SetDefaultGenerators (SetGenerator l (Name col) custom))
              !! Name col
            = match default_generator (DBType l) (TableStruct l) col with
              | Some chosen => Some chosen
              | None => Some custom
              end).
  { rewrite (SetDefaultGenerators_lookup_unique
               (SetGenerator l (Name col) custom) col) by auto.
    cbn [SetGenerator with_generators DBType TableStruct Generators].
    rewrite lookup_insert_eq. reflexivity. }
  split; [apply lookup_insert_eq|]. split; [exact Hbefore|].
  unfold columnNames. apply in_map_iff. exists col. split; [reflexivity|].
  apply filter_In. split; [exact Hin|].
  apply bool_decide_eq_true. rewrite Hbefore.
  destruct (default_generator _ _ col); eauto.
Qed.

Lemma override_order_witness :
  Generators (SetGenerator (orders_loader "mysql") "note"
                (GBool NewBoolGenerator)) !! "note"
  = Some (GBool NewBoolGenerator)
  /\ Generators (SetDefaultGenerators
                   (SetGenerator (NewTableDataLoader "mysql" orders_table 10 1)
                      "note" (GBool NewBoolGenerator))) !! "note"
     = Some (GString (NewStringGenerator 100))
  /\ In "note"
        (columnNames
           (SetDefaultGenerators
              (SetGenerator (NewTableDataLoader "mysql" orders_table 10 1)
                 "note" (GBool NewBoolGenerator)))).
Proof.
  apply (override_order (NewTableDataLoader "mysql" orders_table 10 1)
           (column "note" "text") (GBool NewBoolGenerator)).
  - cbn. auto.
  - distinct_name.
Defined.

(* ===================================================================== *)
(** * Parsing enum values back *)
(* ===================================================================== *)

Lemma LastIndex_from_closing (s : string) (i : Z) :
  0 <= i -> GoStrings.LastIndex_from i (s +:+ ")") ")" = i + len s.
Proof.
  revert i. induction s as [|c s IH]; intros i Hi.
  - rewrite append_nil. cbn. unfold len. cbn. lia.
  - rewrite append_cons. cbn [GoStrings.LastIndex_from].
    rewrite IH by lia.
    destruct (Z.eqb_spec (i + 1 + len s) (-1)) as [Heq|_];
      [unfold len in Heq; lia|].
    unfold len. cbn [String.length]. lia.
Qed.

Lemma len_app (a b : string) : len (a +:+ b) = len a + len b.
Proof.
  unfold len. induction a as [|c a IH]; [rewrite append_nil; cbn; lia|].
  rewrite append_cons. cbn [String.length]. lia.
Qed.

Lemma substring_whole (s tail : string) :
  String.substring 0 (String.length s) (s +:+ tail) = s.
Proof.
  induction s as [|c s IH]; [destruct tail; reflexivity|].
  rewrite append_cons. cbn. f_equal. exact IH.
Qed.

Lemma substring_skip (head s : string) (n : nat) :
  String.substring (String.length head) n (head +:+ s)
  = String.substring 0 n s.
Proof.
  induction head as [|c head IH]; [reflexivity|].
  rewrite append_cons. cbn [String.length String.substring]. exact IH.
Qed.

Lemma Split_no_separator (s : string) (sep : ascii) :
  free_of sep s -> GoStrings.Split s sep = [s].
Proof.
  unfold free_of. induction s as [|c s IH]; intros Hfree; [reflexivity|].
  cbn [GoStrings.mem_byte] in Hfree.
  apply orb_false_iff in Hfree as [Hc Hfree].
  cbn [GoStrings.Split]. rewrite Ascii.eqb_sym, Hc, (IH Hfree). reflexivity.
Qed.

Lemma Split_at_separator (a b : string) (sep : ascii) :
  free_of sep a ->
  GoStrings.Split (a +:+ String sep b) sep = a :: GoStrings.Split b sep.
Proof.
  unfold free_of. induction a as [|c a IH]; intros Hfree.
  - rewrite append_nil. cbn [GoStrings.Split]. rewrite Ascii.eqb_refl.
    reflexivity.
  - cbn [GoStrings.mem_byte] in Hfree.
    apply orb_false_iff in Hfree as [Hc Hfree].
    rewrite append_cons. cbn [GoStrings.Split].
    rewrite Ascii.eqb_sym, Hc, (IH Hfree). reflexivity.
Qed.

(** Splitting undoes joining when no piece holds the separator. *)
Lemma Split_Join (pieces : list string) (sep : ascii) :
  pieces <> [] -> Forall (free_of sep) pieces ->
  GoStrings.Split (GoStrings.Join pieces (String sep EmptyString)) sep
  = pieces.
Proof.
  intros Hne Hall. induction Hall as [|p pieces Hp Hall IH]; [contradiction|].
  destruct pieces as [|q pieces].
  - cbn [GoStrings.Join]. apply Split_no_separator. exact Hp.
  - change (GoStrings.Join (p :: q :: pieces) (String sep EmptyString))
      with (p +:+ String sep EmptyString
            +:+ GoStrings.Join (q :: pieces) (String sep EmptyString)).
    change (String sep EmptyString +:+ ?x) with (String sep x).
    rewrite Split_at_separator by exact Hp.
    f_equal. apply IH. discriminate.
Qed.

Lemma TrimRight_keeps (s cutset : string) :
  Forall (fun c => GoStrings.mem_byte c cutset = false) (bytes s) ->
  GoStrings.TrimRight s cutset = s.
Proof.
  induction s as [|c s IH]; intros Hall; [reflexivity|].
  inversion Hall as [|? ? Hc Hs]; subst.
  cbn [GoStrings.TrimRight]. rewrite (IH Hs), Hc.
  destruct s; reflexivity.
Qed.

Lemma TrimRight_drops_last (s cutset : string) (q : ascii) :
  GoStrings.mem_byte q cutset = true ->
  GoStrings.TrimRight (s +:+ String q EmptyString) cutset
  = GoStrings.TrimRight s cutset.
Proof.
  intros Hq. induction s as [|c s IH].
  - rewrite append_nil. cbn. rewrite Hq. reflexivity.
  - rewrite append_cons. cbn [GoStrings.TrimRight]. rewrite IH. reflexivity.
Qed.

Lemma TrimRight_last_kept (s cutset : string) (q : ascii) :
  GoStrings.mem_byte q cutset = false ->
  GoStrings.TrimRight (s +:+ String q EmptyString) cutset
  = s +:+ String q EmptyString.
Proof.
  intros Hq. induction s as [|c s IH].
  - rewrite append_nil. cbn. rewrite Hq. reflexivity.
  - rewrite append_cons. cbn [GoStrings.TrimRight]. rewrite IH.
    destruct s; reflexivity.
Qed.

Lemma plain_value_bytes (v : string) :
  free_of "'" v -> free_of (ascii_of_nat 34) v ->
  Forall (fun c => GoStrings.mem_byte c quotes = false) (bytes v).
Proof.
  unfold free_of. induction v as [|c v IH]; intros Hs Hd; [constructor|].
  cbn [GoStrings.mem_byte] in Hs, Hd.
  apply orb_false_iff in Hs as [Hcs Hs]. apply orb_false_iff in Hd as [Hcd Hd].
  constructor; [|apply IH; assumption].
  change quotes with (String "'" (String (ascii_of_nat 34) EmptyString)).
  cbn [GoStrings.mem_byte].
  rewrite (Ascii.eqb_sym c "'"), Hcs, (Ascii.eqb_sym c (ascii_of_nat 34)), Hcd.
  reflexivity.
Qed.

(** The cleaning of [parseEnumValues] strips the quotes of a quoted plain
    value and nothing else. *)
Lemma clean_quoted (v : string) :
  plain_value v ->
  GoStrings.Trim (GoStrings.TrimSpace (quoted v)) quotes = v.
Proof.
  intros (Hne & _ & Hs & Hd).
  pose proof (plain_value_bytes v Hs Hd) as Hbytes.
  assert (Hspace : GoStrings.TrimSpace (quoted v) = quoted v).
  { unfold GoStrings.TrimSpace, GoStrings.Trim, quoted.
    change ("'" +:+ v +:+ "'") with (String "'" (v +:+ "'")).
    cbn [GoStrings.TrimLeft]. change (GoStrings.mem_byte "'" _) with false.
    cbv iota.
    change (String "'" (v +:+ "'")) with (("'" +:+ v) +:+ String "'" EmptyString).
    apply TrimRight_last_kept. reflexivity. }
  rewrite Hspace. unfold GoStrings.Trim, quoted.
  change ("'" +:+ v +:+ "'") with (String "'" (v +:+ "'")).
  cbn [GoStrings.TrimLeft]. change (GoStrings.mem_byte "'" quotes) with true.
  cbv iota.
  assert (Hleft : GoStrings.TrimLeft (v +:+ "'") quotes = v +:+ "'").
  { destruct v as [|c v]; [contradiction|].
    inversion Hbytes as [|? ? Hc _]; subst.
    rewrite append_cons. cbn [GoStrings.TrimLeft]. rewrite Hc. reflexivity. }
  rewrite Hleft.
  rewrite TrimRight_drops_last by reflexivity.
  apply TrimRight_keeps. exact Hbytes.
Qed.

Lemma free_of_quoted (v : string) :
  free_of "," v -> free_of "," (quoted v).
Proof.
  intros Hv. unfold quoted.
  apply free_of_app; [reflexivity|]. apply free_of_app; [exact Hv|reflexivity].
Qed.

(** X17.  Parsing is a left inverse of writing: for a non-empty list of
    plain values (not empty, without comma or quote), [parseEnumValues]
    applied to [enum('v1','v2',...)] returns the values, in their order. *)
Theorem parseEnumValues_round_trip (values : list string) :
  values <> [] -> Forall plain_value values ->
  parseEnumValues (enum_type values) = values.
Proof.
  intros Hne Hall.
  set (joined := GoStrings.Join (List.map quoted values) ",").
  assert (Hstart : GoStrings.Index (enum_type values) "(" = 4) by reflexivity.
  assert (Hend : GoStrings.LastIndex (enum_type values) ")" = 5 + len joined).
  { unfold GoStrings.LastIndex, enum_type. fold joined.
    rewrite <- append_assoc. rewrite LastIndex_from_closing by lia.
    rewrite len_app. reflexivity. }
  assert (Hslice : slice (enum_type values) (4 + 1) (5 + len joined) = joined).
  { unfold slice, enum_type, len. fold joined.
    replace (Z.to_nat (5 + Z.of_nat (String.length joined) - (4 + 1)))
      with (String.length joined) by lia.
    change (Z.to_nat (4 + 1)) with (String.length "enum(").
    rewrite substring_skip. apply substring_whole. }
  unfold parseEnumValues. rewrite Hstart, Hend.
  destruct (Z.leb_spec (5 + len joined) 4) as [Hbad|_];
    [unfold len in Hbad; lia|].
  destruct (Z.eqb_spec (5 + len joined) (-1)) as [Hbad|_];
    [unfold len in Hbad; lia|].
  cbn [Z.eqb orb]. rewrite Hslice. unfold joined.
  rewrite (Split_Join (List.map quoted values) ",").
  - rewrite List.map_map.
    assert (Hclean : List.map (fun v => GoStrings.Trim
                                 (GoStrings.TrimSpace (quoted v)) quotes) values
                     = values).
    { clear Hne joined Hstart Hend Hslice.
      induction Hall as [|v values Hv _ IH]; [reflexivity|].
      cbn [List.map]. rewrite (clean_quoted v Hv), IH. reflexivity. }
    rewrite Hclean.
    assert (Hkeep : List.filter
                      (fun cleanVal => negb (String.eqb cleanVal EmptyString))
                      values = values).
    { clear -Hall. induction Hall as [|v values (Hv & _) _ IH]; [reflexivity|].
      cbn [List.filter]. apply String.eqb_neq in Hv. rewrite Hv. cbn.
      rewrite IH. reflexivity. }
    rewrite Hkeep. destruct values; [contradiction | reflexivity].
  - destruct values; [contradiction | discriminate].
  - clear -Hall. induction Hall as [|v values (_ & Hv & _) _ IH];
      constructor; [apply free_of_quoted; exact Hv | exact IH].
Qed.

Lemma parseEnumValues_round_trip_witness :
  parseEnumValues (enum_type ["small"; "extra large"; "n/a (none)"])
  = ["small"; "extra large"; "n/a (none)"].
Proof.
  apply parseEnumValues_round_trip; [discriminate|].
  repeat constructor; discriminate.
Defined.

Lemma Split_pieces_free (s : string) (sep : ascii) :
  Forall (free_of sep) (GoStrings.Split s sep).
Proof.
  induction s as [|c s IH]; [repeat constructor|].
  cbn [GoStrings.Split]. destruct (Ascii.eqb c sep) eqn:Hc.
  - constructor; [reflexivity | exact IH].
  - destruct (GoStrings.Split s sep) as [|piece rest].
    + repeat constructor. unfold free_of. cbn.
      rewrite Ascii.eqb_sym, Hc. reflexivity.
    + inversion IH as [|? ? Hpiece Hrest]; subst.
      constructor; [|exact Hrest]. unfold free_of in *. cbn.
      rewrite Ascii.eqb_sym, Hc. exact Hpiece.
Qed.

Lemma TrimLeft_free (c : ascii) (s cutset : string) :
  free_of c s -> free_of c (GoStrings.TrimLeft s cutset).
Proof.
  unfold free_of. induction s as [|x s IH]; intros Hfree; [reflexivity|].
  cbn [GoStrings.TrimLeft]. destruct (GoStrings.mem_byte x cutset);
    [|exact Hfree].
  cbn [GoStrings.mem_byte] in Hfree.
  apply orb_false_iff in Hfree as [_ Hfree]. auto.
Qed.

Lemma TrimRight_free (c : ascii) (s cutset : string) :
  free_of c s -> free_of c (GoStrings.TrimRight s cutset).
Proof.
  unfold free_of. induction s as [|x s IH]; intros Hfree; [reflexivity|].
  cbn [GoStrings.mem_byte] in Hfree.
  apply orb_false_iff in Hfree as [Hx Hfree]. specialize (IH Hfree).
  cbn [GoStrings.TrimRight].
  destruct (GoStrings.TrimRight s cutset) as [|y t].
  - destruct (GoStrings.mem_byte x cutset); cbn; [reflexivity|].
    rewrite Hx. reflexivity.
  - cbn [GoStrings.mem_byte] in *. rewrite Hx. exact IH.
Qed.

Lemma TrimLeft_first (s cutset : string) :
  first_in cutset (GoStrings.TrimLeft s cutset) = false.
Proof.
  induction s as [|x s IH]; [reflexivity|].
  cbn [GoStrings.TrimLeft].
  destruct (GoStrings.mem_byte x cutset) eqn:Hx; [exact IH|].
  cbn. exact Hx.
Qed.

Lemma TrimRight_first (s cutset : string) :
  first_in cutset s = false ->
  first_in cutset (GoStrings.TrimRight s cutset) = false.
Proof.
  destruct s as [|x s]; [reflexivity|]. cbn [first_in]. intros Hx.
  cbn [GoStrings.TrimRight]. destruct (GoStrings.TrimRight s cutset).
  - rewrite Hx. cbn. exact Hx.
  - cbn. exact Hx.
Qed.

Lemma TrimRight_last (s cutset : string) :
  last_in cutset (GoStrings.TrimRight s cutset) = false.
Proof.
  induction s as [|x s IH]; [reflexivity|].
  cbn [GoStrings.TrimRight].
  destruct (GoStrings.TrimRight s cutset) as [|y t].
  - destruct (GoStrings.mem_byte x cutset) eqn:Hx; [reflexivity|].
    cbn. exact Hx.
  - exact IH.
Qed.

(** X18.  Every value that [parseEnumValues] returns, for any declared
    type, is a non-empty string without a comma that neither begins nor ends
    with a quote of either kind. *)
Theorem parseEnumValues_values (dataType : string) :
  Forall parsed_value (parseEnumValues dataType).
Proof.
  assert (Hfallback : Forall parsed_value enum_fallback).
  { repeat constructor; discriminate. }
  unfold parseEnumValues.
  destruct (_ || _ || _); [exact Hfallback|].
  set (pieces := GoStrings.Split _ ",").
  assert (Hvalues :
            Forall parsed_value
              (List.filter
                 (fun cleanVal => negb (String.eqb cleanVal EmptyString))
                 (List.map (fun val => GoStrings.Trim (GoStrings.TrimSpace val)
                                         quotes) pieces))).
  { pose proof (Split_pieces_free
                  (slice dataType (GoStrings.Index dataType "(" + 1)
                         (GoStrings.LastIndex dataType ")")) ",") as Hfree.
    fold pieces in Hfree.
    induction Hfree as [|piece rest Hpiece _ IH]; [constructor|].
    cbn [List.map List.filter].
    destruct (String.eqb_spec
                (GoStrings.Trim (GoStrings.TrimSpace piece) quotes)
                EmptyString) as [|Hne]; [exact IH|].
    cbn [negb]. constructor; [|exact IH].
    split; [exact Hne|].
    set (trimmed := GoStrings.TrimSpace piece).
    assert (Htrimmed : free_of "," trimmed).
    { unfold trimmed, GoStrings.TrimSpace, GoStrings.Trim.
      apply TrimRight_free, TrimLeft_free. exact Hpiece. }
    unfold GoStrings.Trim. split; [|split].
    - apply TrimRight_free, TrimLeft_free. exact Htrimmed.
    - apply TrimRight_first, TrimLeft_first.
    - apply TrimRight_last. }
  destruct (List.filter _ _) eqn:Hfilter; [exact Hfallback | exact Hvalues].
Qed.

(* ===================================================================== *)
(** * Rows and the insert statement *)
(* ===================================================================== *)

Section RowGenerationFacts.

Variable Value : Type.
Variable GenerateValue : DataGenerator -> M Value.

Lemma generate_values_length (gens : gmap string DataGenerator)
    (columns : list TableColumn) :
  forall r values r',
    generate_values Value GenerateValue gens columns r = Ok (values, r') ->
    length values
    = length (List.filter
                (fun column => bool_decide (is_Some (gens !! Name column)))
                columns).
Proof.
  induction columns as [|c columns IH]; intros r values r' Hrow.
  - injection Hrow as <- _. reflexivity.
  - cbn [generate_values List.filter] in *.
    destruct (gens !! Name c) as [g|] eqn:Hg.
    + rewrite bool_decide_eq_true_2 by eauto.
      unfold mbind, M_bind, bind in Hrow.
      destruct (GenerateValue g r) as [[v r1]| |]; try discriminate.
      destruct (generate_values Value GenerateValue gens columns r1)
        as [[vs r2]| |] eqn:Hrest; try discriminate.
      injection Hrow as <- _. cbn [length]. f_equal. exact (IH _ _ _ Hrest).
    + rewrite bool_decide_eq_false_2 by (intros [? ?]; discriminate).
      exact (IH _ _ _ Hrow).
Qed.

Lemma generate_values_panicking (gens : gmap string DataGenerator)
    (columns : list TableColumn) (col : TableColumn) (g : DataGenerator) :
  In col columns -> gens !! Name col = Some g ->
  (forall r, panics (GenerateValue g r)) ->
  forall r values r',
    generate_values Value GenerateValue gens columns r <> Ok (values, r').
Proof.
  intros Hin Hg Hpanics.
  induction columns as [|c columns IH]; intros r values r' Hrow;
    [contradiction|].
  cbn [generate_values] in Hrow.
  destruct Hin as [-> | Hin].
  - rewrite Hg in Hrow. unfold mbind, M_bind, bind in Hrow.
    destruct (Hpanics r) as [msg Hmsg]. rewrite Hmsg in Hrow. discriminate.
  - destruct (gens !! Name c) as [g'|]; [|exact (IH Hin _ _ _ Hrow)].
    unfold mbind, M_bind, bind in Hrow.
    destruct (GenerateValue g' r) as [[v r1]| |]; try discriminate.
    destruct (generate_values Value GenerateValue gens columns r1)
      as [[vs r2]| |] eqn:Hrest; try discriminate.
    exact (IH Hin _ _ _ Hrest).
Qed.

End RowGenerationFacts.

(** X19.  Whatever the implementations of the generators, a row that the
    producer builds has exactly one value per column named in the insert
    statement, that is, one value per placeholder. *)
Theorem row_matches_placeholders (Value : Type)
    (GenerateValue : DataGenerator -> M Value) (l : TableDataLoader)
    (r r' : Rand) (values : list Value) :
  generateRow Value GenerateValue l r = Ok (values, r') ->
  length values = length (columnNames l)
  /\ length values = length (placeholders l).
Proof.
  intros Hrow. apply generate_values_length in Hrow.
  unfold placeholders, columnNames. rewrite !length_map. auto.
Qed.

Lemma row_matches_placeholders_witness :
  exists values r',
    generateRow SampleValue sample_GenerateValue (orders_loader "mysql")
      (tape_from 7) = Ok (values, r')
    /\ length values = length (columnNames (orders_loader "mysql"))
    /\ length values = length (placeholders (orders_loader "mysql")).
Proof.
  destruct (generateRow SampleValue sample_GenerateValue
              (orders_loader "mysql") (tape_from 7))
    as [[values r']| |] eqn:Hrow;
    [|vm_compute in Hrow; discriminate|vm_compute in Hrow; discriminate].
  exists values, r'. split; [reflexivity|].
  exact (row_matches_placeholders SampleValue sample_GenerateValue
           (orders_loader "mysql") (tape_from 7) r' values Hrow).
Defined.

(** X20.  If some column of the table is bound to a generator that panics
    on every call, the producer never completes a row: building a row ends
    in a panic, of that generator or of one before it. *)
Theorem panicking_generator_blocks_rows (Value : Type)
    (GenerateValue : DataGenerator -> M Value) (l : TableDataLoader)
    (col : TableColumn) (g : DataGenerator) :
  In col (Columns (TableStruct l)) ->
  Generators l !! Name col = Some g ->
  (forall r, panics (GenerateValue g r)) ->
  forall r values r',
    generateRow Value GenerateValue l r <> Ok (values, r').
Proof.
  intros Hin Hg Hpanics. unfold generateRow.
  apply (generate_values_panicking Value GenerateValue _ _ col g); assumption.
Qed.

Lemma panicking_generator_blocks_rows_witness :
  Generators
    (SetDefaultGenerators (NewTableDataLoader "mysql" bigint_table 10 1))
    !! Name bigint_column
  = Some (GInt (NewIntGenerator (-9223372036854775808) 9223372036854775807))
  /\ forall r values r',
       generateRow SampleValue sample_GenerateValue
         (SetDefaultGenerators (NewTableDataLoader "mysql" bigint_table 10 1))
         r
       <> Ok (values, r').
Proof.
  split; [reflexivity|].
  apply (panicking_generator_blocks_rows SampleValue sample_GenerateValue
           (SetDefaultGenerators (NewTableDataLoader "mysql" bigint_table 10 1))
           bigint_column
           (GInt (NewIntGenerator (-9223372036854775808) 9223372036854775807))).
  - cbn. auto.
  - reflexivity.
  - intros r. exists "invalid argument to IntN".
    unfold sample_GenerateValue, mbind, M_bind, bind.
    rewrite full_width_panics; [reflexivity | reflexivity | right; reflexivity].
Defined.

(* ===================================================================== *)
(** * Runs with any number of workers *)
(* ===================================================================== *)

Section Flow.

Variable Row : Type.
Variable generate : nat -> Row.
Variable cfg : Config.

Lemma total_cons (f : Worker Row -> Z) (w : Worker Row)
    (ws : list (Worker Row)) :
  total Row f (w :: ws) = f w + total Row f ws.
Proof. reflexivity. Qed.

Lemma total_insert (f : Worker Row -> Z) (ws : list (Worker Row)) (i : nat)
    (w w' : Worker Row) :
  ws !! i = Some w ->
  total Row f (<[i := w']> ws) = total Row f ws - f w + f w'.
Proof.
  revert i. induction ws as [|x ws IH]; intros i Hw; [discriminate|].
  destruct i as [|i].
  - injection Hw as ->.
    change (<[0%nat := w']> (w :: ws)) with (w' :: ws).
    rewrite !total_cons. lia.
  - change (<[S i := w']> (x :: ws)) with (x :: <[i := w']> ws).
    rewrite !total_cons, (IH i Hw). lia.
Qed.

Lemma total_repeat (f : Worker Row -> Z) (w : Worker Row) (n : nat) :
  total Row f (repeat w n) = Z.of_nat n * f w.
Proof.
  induction n as [|n IH]; [reflexivity|].
  cbn [repeat]. rewrite total_cons, IH, Nat2Z.inj_succ. lia.
Qed.







End Flow.



Section Steady.

Variable Row : Type.
Variable generate : nat -> Row.
Variable cfg : Config.
Hypothesis Hbatch : 1 <= batch cfg.

Lemma gone_le_one (w : Worker Row) : 0 <= gone Row w <= 1.
Proof. unfold gone. destruct (pc Row w); lia. Qed.

Lemma total_gone_bound (ws : list (Worker Row)) :
  total Row (gone Row) ws <= Z.of_nat (length ws).
Proof.
  induction ws as [|w ws IH]; [reflexivity|].
  rewrite total_cons. pose proof (gone_le_one w). cbn [length]. lia.
Qed.

Lemma all_gone_lookup (ws : list (Worker Row)) (i : nat) (w : Worker Row) :
  total Row (gone Row) ws = Z.of_nat (length ws) ->
  ws !! i = Some w -> pc Row w = WDone.
Proof.
  revert i. induction ws as [|x ws IH]; intros i Hall Hw; [discriminate|].
  rewrite total_cons in Hall. cbn [length] in Hall.
  pose proof (gone_le_one x). pose proof (total_gone_bound ws).
  destruct i as [|i]; cbn in Hw.
  - injection Hw as ->. unfold gone in *. destruct (pc Row w); lia || reflexivity.
  - apply (IH i); [lia | exact Hw].
Qed.

Lemma forallb_done_total (ws : list (Worker Row)) :
  forallb (is_done Row) ws = true ->
  total Row (gone Row) ws = Z.of_nat (length ws)
  /\ total Row (in_hand Row) ws = 0
  /\ total Row (finished Row) ws = Z.of_nat (length ws).
Proof.
  induction ws as [|w ws IH]; [auto|].
  cbn [forallb]. intros Hall. apply andb_true_iff in Hall as [Hw Hall].
  destruct (IH Hall) as (Hg & Hh & Hf).
  rewrite !total_cons. cbn [length].
  unfold is_done, gone, in_hand, finished in *.
  destruct (pc Row w); try discriminate. lia.
Qed.

Lemma count_total_bound (ws : list (Worker Row)) :
  Forall (worker_batched Row cfg) ws ->
  0 <= total Row (count Row) ws
  /\ total Row (count Row) ws <= Z.of_nat (length ws) * (batch cfg - 1).
Proof.
  induction 1 as [|w ws ([Hlo Hhi] & _) _ IH]; [cbn; lia|].
  rewrite total_cons. cbn [length]. rewrite Nat2Z.inj_succ. lia.
Qed.

Lemma pending_total_gone (ws : list (Worker Row)) :
  Forall (worker_batched Row cfg) ws ->
  total Row (gone Row) ws = Z.of_nat (length ws) ->
  total Row (pending Row) ws = 0.
Proof.
  induction 1 as [|w ws (_ & Hpend & _) _ IH]; [reflexivity|].
  rewrite !total_cons. cbn [length]. intros Hall.
  pose proof (gone_le_one w). pose proof (total_gone_bound ws).
  unfold gone in *. destruct (pc Row w); lia.
Qed.

(** A worker step that replaces worker [i] keeps the invariant of the
    undisturbed runs when the new counters balance. *)
Lemma steady_set_worker (s : State Row) (i : nat) (w w' : Worker Row)
    (ch : list Row) (e c st : Z) :
  workers Row s !! i = Some w ->
  steady_inv Row cfg s ->
  Z.of_nat (length ch) <= Z.of_nat (length (channel Row s)) ->
  e + in_hand Row w' + Z.of_nat (length ch)
  = execs Row s + in_hand Row w + Z.of_nat (length (channel Row s)) ->
  st + pending Row w' - e = stored Row s + pending Row w - execs Row s ->
  count Row w' - count Row w
  + batch cfg * (c - commits Row s - (gone Row w' - gone Row w))
  = e - execs Row s ->
  gone Row w' - gone Row w <= c - commits Row s ->
  worker_batched Row cfg w' ->
  (0 < total Row (finished Row) (workers Row s)
       - finished Row w + finished Row w' ->
   closed Row s = true /\ ch = []) ->
  pc Row w <> WDone ->
  steady_inv Row cfg (set_worker Row s i w' ch e c st).
Proof.
  intros Hw (Hcan & Hp & Hcl & Hend & Hch & Hex & Hst & Hcount & Hgone
             & Hall & Hfin & Hret)
         Hlen Hflow Hstore Hbal Hcommit Hw' Hfin' Hrunning.
  assert (Hnot : returned Row s = false).
  { destruct (returned Row s) eqn:Hr; [|reflexivity].
    exfalso. apply Hrunning.
    apply (all_gone_lookup (workers Row s) i); auto. }
  unfold steady_inv, producer_bounds, closed_by_producer, received, published,
    set_worker in *.
  cbn [cancelled producer channel closed workers execs commits stored
       returned].
  rewrite !(total_insert Row _ _ _ _ _ Hw).
  split; [exact Hcan|]. split; [exact Hp|]. split; [exact Hcl|].
  split; [exact Hend|].
  split; [lia|].
  split; [lia|]. split; [lia|]. split; [lia|]. split; [lia|].
  split; [apply Forall_insert; assumption|].
  split; [exact Hfin'|].
  intros Hr. congruence.
Qed.

Lemma steady_init :
  steady_inv Row cfg (init Row cfg).
Proof.
  unfold steady_inv, producer_bounds, closed_by_producer, received, published,
    init.
  cbn [cancelled producer channel closed workers execs commits stored
       returned length].
  rewrite !total_repeat. cbn [in_hand pending count gone finished pc].
  repeat split; try lia; try discriminate.
  apply List.Forall_forall. intros w Hw. apply repeat_spec in Hw. subst.
  unfold worker_batched. cbn. lia.
Qed.

Lemma steady_step (e : Event) (s s' : State Row) :
  undisturbed e = true ->
  steady_inv Row cfg s -> step Row generate cfg e s = Some s' ->
  steady_inv Row cfg s'.
Proof.
  intros Hclean Hinv Hstep.
  destruct e as [| |i fault|]; cbn [undisturbed] in Hclean;
    try discriminate; cbn [step] in Hstep.
  - (* the producer *)
    destruct Hinv as (Hcan & Hp & Hcl & Hend & Hch & Hex & Hst & Hcount
                      & Hgone & Hall & Hfin & Hret).
    unfold generateRows_step in Hstep.
    unfold steady_inv, producer_bounds, closed_by_producer, received,
      published in *.
    destruct (producer Row s) as [k|k values|k|k] eqn:Hprod;
      try discriminate.
    + rewrite Hcan in Hstep.
      destruct (Z.ltb_spec (Z.of_nat k) (numRows cfg));
        injection Hstep as <-; unfold set_producer;
        cbn [cancelled producer channel closed workers execs commits stored
             returned];
        (split; [exact Hcan|]); (split; [lia|]);
        (split; [first [exact Hcl | reflexivity]|]);
        (split; [first [exact I | lia]|]); (split; [exact Hch|]);
        (split; [exact Hex|]); (split; [exact Hst|]);
        (split; [exact Hcount|]); (split; [exact Hgone|]);
        (split; [exact Hall|]); (split; [|exact Hret]);
        intros Hpos; destruct (Hfin Hpos) as [Hc Hempty];
        first [congruence | split; [reflexivity | exact Hempty]].
    + destruct (length (channel Row s) <? slots cfg)%nat; [|discriminate].
      injection Hstep as <-. unfold set_producer.
      cbn [cancelled producer channel closed workers execs commits stored
           returned].
      rewrite length_app. cbn [length].
      split; [exact Hcan|]. split; [lia|]. split; [exact Hcl|].
      split; [exact I|]. split; [lia|]. split; [lia|].
      split; [exact Hst|]. split; [exact Hcount|]. split; [exact Hgone|].
      split; [exact Hall|]. split; [|exact Hret].
      intros Hpos. destruct (Hfin Hpos) as [Hc Hempty]. congruence.
  - (* a worker *)
    destruct fault; try discriminate. clear Hclean.
    unfold Load_step in Hstep.
    destruct (workers Row s !! i) as [w|] eqn:Hw; [|discriminate].
    pose proof Hinv as (Hcan & _ & _ & _ & _ & _ & _ & _ & _ & Hall & Hfin & _).
    pose proof (Forall_lookup_1 _ _ _ _ Hall Hw) as (Hrange & Hpend & Hstart).
    rewrite Hcan in Hstep. cbn [fault_eqb orb] in Hstep.
    destruct (pc Row w) eqn:Hpc;
      repeat match type of Hstep with
             | (if ?b then _ else _) = _ => destruct b eqn:?
             | match ?ch with [] => _ | _ :: _ => _ end = _ =>
                 destruct ch eqn:?
             end; try discriminate; injection Hstep as <-;
      apply (steady_set_worker s i w); try assumption;
      unfold in_hand, gone, finished, worker_batched, leave;
      cbn [pc count pending]; rewrite ?Hpc;
      repeat match goal with
             | H : channel Row s = _ |- _ => rewrite H
             | H : (_ <=? _) = true |- _ => apply Z.leb_le in H
             | H : (_ <=? _) = false |- _ => apply Z.leb_gt in H
             end; cbn [length]; try lia; try discriminate; auto;
      try (intros Hpos; apply Hfin; unfold finished; lia);
      try (intros Hpos; destruct Hfin as [_ Habs];
           [unfold finished; lia | discriminate Habs]).
  - (* the join *)
    destruct Hinv as (Hcan & Hp & Hcl & Hend & Hch & Hex & Hst & Hcount
                      & Hgone & Hall & Hfin & Hret).
    unfold join_step in Hstep.
    destruct (forallb _ _) eqn:Hdone; [|discriminate].
    destruct (negb _); [|discriminate]. injection Hstep as <-.
    unfold steady_inv, producer_bounds, closed_by_producer, received,
      published in *.
    cbn [cancelled producer channel closed workers execs commits stored
         returned].
    split; [exact Hcan|]. split; [exact Hp|]. split; [exact Hcl|].
    split; [exact Hend|]. split; [exact Hch|]. split; [exact Hex|].
    split; [exact Hst|]. split; [exact Hcount|]. split; [exact Hgone|].
    split; [exact Hall|]. split; [exact Hfin|].
    intros _. apply (forallb_done_total _ Hdone).
Qed.

Lemma steady_run (trace : list Event) :
  forall s s',
    forallb undisturbed trace = true ->
    steady_inv Row cfg s -> run Row generate cfg trace s = Some s' ->
    steady_inv Row cfg s'.
Proof.
  induction trace as [|e trace IH]; intros s s' Hclean Hinv Hrun.
  - injection Hrun as <-. exact Hinv.
  - cbn in Hclean. apply andb_true_iff in Hclean as [He Hclean].
    cbn [run] in Hrun.
    destruct (step Row generate cfg e s) as [s1|] eqn:Hstep; [|discriminate].
    apply (IH s1 s'); try assumption.
    apply (steady_step e s s1); assumption.
Qed.

Lemma workers_length (trace : list Event) :
  forall s s',
    run Row generate cfg trace s = Some s' ->
    length (workers Row s') = length (workers Row s).
Proof.
  induction trace as [|e trace IH]; intros s s' Hrun.
  - injection Hrun as <-. reflexivity.
  - cbn [run] in Hrun.
    destruct (step Row generate cfg e s) as [s1|] eqn:Hstep; [|discriminate].
    rewrite (IH s1 s' Hrun). clear IH Hrun.
    destruct e as [| |i fault|]; cbn [step] in Hstep.
    + injection Hstep as <-. reflexivity.
    + unfold generateRows_step in Hstep.
      destruct (producer Row s);
        repeat match type of Hstep with
               | (if ?b then _ else _) = _ => destruct b
               end; try discriminate; injection Hstep as <-; reflexivity.
    + unfold Load_step in Hstep.
      destruct (workers Row s !! i) as [w|]; [|discriminate].
      destruct (pc Row w);
        repeat match type of Hstep with
               | (if ?b then _ else _) = _ => destruct b
               | match ?ch with [] => _ | _ :: _ => _ end = _ => destruct ch
               end; try discriminate; injection Hstep as <-;
        unfold set_worker; cbn [workers]; apply length_insert.
    + unfold join_step in Hstep.
      destruct (forallb _ _ && _); [|discriminate].
      injection Hstep as <-. reflexivity.
Qed.

End Steady.
Section SteadyTotals.

Variable Row : Type.

Lemma all_gone_totals (ws : list (Worker Row)) :
  total Row (gone Row) ws = Z.of_nat (length ws) ->
  total Row (in_hand Row) ws = 0
  /\ total Row (finished Row) ws = Z.of_nat (length ws).
Proof.
  induction ws as [|w ws IH]; [auto|].
  rewrite !total_cons. cbn [length]. intros Hall.
  pose proof (gone_le_one Row w). pose proof (total_gone_bound Row ws).
  destruct IH as [Hh Hf]; [lia|].
  unfold gone, in_hand, finished in *. destruct (pc Row w); lia.
Qed.

End SteadyTotals.

(** X22.  Any number of workers.  With a batch size of at least 1 and at
    least one worker, every run that is neither cancelled nor hit by a
    database failure and in which [LoadData] has returned executed the
    statement once per requested row (no row when [numRows] is negative),
    stored every executed row, and made one commit per full batch of a
    worker plus the unconditional last commit of each worker: the rows
    outside full batches are fewer than [BatchSize] per worker. *)
Theorem undisturbed_load_totals (Row : Type) (generate : nat -> Row)
    (cfg : Config) (trace : list Event) (s : State Row) :
  1 <= batch cfg ->
  1 <= goroutines cfg ->
  forallb undisturbed trace = true ->
  run Row generate cfg trace (init Row cfg) = Some s ->
  returned Row s = true ->
  execs Row s = Z.max 0 (numRows cfg)
  /\ stored Row s = execs Row s
  /\ goroutines cfg <= commits Row s
  /\ batch cfg * (commits Row s - goroutines cfg) <= execs Row s
  /\ execs Row s <= batch cfg * (commits Row s - goroutines cfg)
                    + goroutines cfg * (batch cfg - 1).
Proof.
  intros Hbatch Hworkers Hclean Hrun Hret.
  destruct (steady_run Row generate cfg Hbatch trace _ _ Hclean
              (steady_init Row cfg Hbatch) Hrun)
    as (Hcan & Hp & Hcl & Hend & Hch & Hex & Hst & Hcount & Hgone & Hall
        & Hfin & Hall_gone).
  specialize (Hall_gone Hret).
  assert (Hlen : Z.of_nat (length (workers Row s)) = goroutines cfg).
  { rewrite (workers_length Row generate cfg trace _ _ Hrun).
    unfold init. cbn [workers]. rewrite repeat_length. lia. }
  destruct (all_gone_totals Row _ Hall_gone) as [Hhand Hfinished].
  pose proof (pending_total_gone Row cfg _ Hall Hall_gone) as Hpending.
  destruct (count_total_bound Row cfg _ Hall) as [Hlo Hhi].
  destruct Hfin as [Hclosed Hempty]; [lia|].
  unfold closed_by_producer, producer_bounds, received, published in *.
  rewrite Hempty in *. cbn [length] in *.
  destruct (producer Row s) as [k|k values|k|k]; try congruence.
  rewrite Hall_gone, Hlen in *.
  split; [lia|]. split; [lia|]. split; [lia|]. split; nia.
Qed.

Lemma undisturbed_load_totals_witness :
  exists s,
    run nat id pair_config pair_trace (init nat pair_config) = Some s
    /\ execs nat s = Z.max 0 (numRows pair_config)
    /\ stored nat s = execs nat s
    /\ goroutines pair_config <= commits nat s
    /\ batch pair_config * (commits nat s - goroutines pair_config)
       <= execs nat s
    /\ execs nat s <= batch pair_config
                      * (commits nat s - goroutines pair_config)
                      + goroutines pair_config * (batch pair_config - 1).
Proof.
  destruct (run nat id pair_config pair_trace (init nat pair_config))
    as [s|] eqn:Hrun; [|vm_compute in Hrun; discriminate].
  exists s. split; [reflexivity|].
  apply (undisturbed_load_totals nat id pair_config pair_trace s).
  - cbn. lia.
  - cbn. lia.
  - reflexivity.
  - exact Hrun.
  - vm_compute in Hrun. injection Hrun as <-. reflexivity.
Defined.
Section Edges.

Variable Row : Type.
Variable generate : nat -> Row.
Variable cfg : Config.

Lemma idle_step (e : Event) (s s' : State Row) :
  workers Row s = [] -> step Row generate cfg e s = Some s' ->
  workers Row s' = [] /\ execs Row s' = execs Row s
  /\ commits Row s' = commits Row s /\ stored Row s' = stored Row s.
Proof.
  intros Hnone Hstep.
  destruct e as [| |i fault|]; cbn [step] in Hstep.
  - injection Hstep as <-. auto.
  - unfold generateRows_step in Hstep.
    destruct (producer Row s);
      repeat match type of Hstep with
             | (if ?b then _ else _) = _ => destruct b
             end; try discriminate; injection Hstep as <-; auto.
  - unfold Load_step in Hstep. rewrite Hnone in Hstep. discriminate.
  - unfold join_step in Hstep.
    destruct (forallb _ _ && _); [|discriminate].
    injection Hstep as <-. auto.
Qed.

Lemma idle_run (trace : list Event) :
  forall s s',
    workers Row s = [] -> run Row generate cfg trace s = Some s' ->
    workers Row s' = [] /\ execs Row s' = execs Row s
    /\ commits Row s' = commits Row s /\ stored Row s' = stored Row s.
Proof.
  induction trace as [|e trace IH]; intros s s' Hnone Hrun.
  - injection Hrun as <-. auto.
  - cbn [run] in Hrun.
    destruct (step Row generate cfg e s) as [s1|] eqn:Hstep; [|discriminate].
    destruct (idle_step e s s1 Hnone Hstep) as (Hn & He & Hc & Hs).
    destruct (IH s1 s' Hn Hrun) as (Hn' & He' & Hc' & Hs').
    repeat split; congruence.
Qed.

Lemma cancelled_step (e : Event) (s s' : State Row) :
  cancelled Row s = true -> step Row generate cfg e s = Some s' ->
  cancelled Row s' = true /\ execs Row s' = execs Row s
  /\ committed_rows s' = committed_rows s.
Proof.
  intros Hcan Hstep. unfold committed_rows.
  destruct e as [| |i fault|]; cbn [step] in Hstep.
  - injection Hstep as <-. auto.
  - unfold generateRows_step in Hstep. rewrite Hcan in Hstep.
    destruct (producer Row s);
      repeat match type of Hstep with
             | (if ?b then _ else _) = _ => destruct b
             end; try discriminate; injection Hstep as <-;
      unfold set_producer; cbn [cancelled producer execs];
      repeat split; auto; lia.
  - unfold Load_step in Hstep. rewrite Hcan in Hstep.
    destruct (workers Row s !! i) as [w|]; [|discriminate].
    destruct (pc Row w);
      repeat match type of Hstep with
             | (if ?b then _ else _) = _ => destruct b
             | match ?ch with [] => _ | _ :: _ => _ end = _ => destruct ch
             end; try discriminate; injection Hstep as <-; auto.
  - unfold join_step in Hstep.
    destruct (forallb _ _ && _); [|discriminate].
    injection Hstep as <-. auto.
Qed.

Lemma cancelled_run (trace : list Event) :
  forall s s',
    cancelled Row s = true -> run Row generate cfg trace s = Some s' ->
    cancelled Row s' = true /\ execs Row s' = execs Row s
    /\ committed_rows s' = committed_rows s.
Proof.
  induction trace as [|e trace IH]; intros s s' Hcan Hrun.
  - injection Hrun as <-. auto.
  - cbn [run] in Hrun.
    destruct (step Row generate cfg e s) as [s1|] eqn:Hstep; [|discriminate].
    destruct (cancelled_step e s s1 Hcan Hstep) as (Hc & He & Hl).
    destruct (IH s1 s' Hc Hrun) as (Hc' & He' & Hl').
    repeat split; congruence.
Qed.

End Edges.

(** X23.  [NumGoroutines <= 0]: [for range l.NumGoroutines] starts no
    worker.  Whatever [numRows] is and whatever the producer does, no
    statement is executed, nothing is committed or stored, and [wg.Wait()]
    never blocks: [LoadData] can return (nil) at any moment. *)
Theorem no_workers_nothing_loaded (Row : Type) (generate : nat -> Row)
    (cfg : Config) (trace : list Event) (s : State Row) :
  goroutines cfg <= 0 ->
  run Row generate cfg trace (init Row cfg) = Some s ->
  execs Row s = 0 /\ commits Row s = 0 /\ stored Row s = 0
  /\ (returned Row s = false ->
      exists s', step Row generate cfg Join s = Some s'
                 /\ returned Row s' = true).
Proof.
  intros Hnone Hrun.
  assert (Hinit : workers Row (init Row cfg) = []).
  { unfold init. cbn [workers]. replace (Z.to_nat (goroutines cfg)) with 0%nat
      by lia. reflexivity. }
  destruct (idle_run Row generate cfg trace _ _ Hinit Hrun)
    as (Hw & He & Hc & Hs).
  split; [exact He|]. split; [exact Hc|]. split; [exact Hs|].
  intros Hret. cbn [step]. unfold join_step. rewrite Hw, Hret.
  cbn [forallb negb andb]. eexists. split; reflexivity.
Qed.

Lemma no_workers_nothing_loaded_witness :
  exists s,
    run nat id idle_config [Produce; Produce; Produce] (init nat idle_config)
    = Some s
    /\ published nat s = 1
    /\ execs nat s = 0 /\ commits nat s = 0 /\ stored nat s = 0
    /\ (returned nat s = false ->
        exists s', step nat id idle_config Join s = Some s'
                   /\ returned nat s' = true).
Proof.
  destruct (run nat id idle_config [Produce; Produce; Produce]
              (init nat idle_config)) as [s|] eqn:Hrun;
    [|vm_compute in Hrun; discriminate].
  exists s. split; [reflexivity|].
  split; [vm_compute in Hrun; injection Hrun as <-; reflexivity|].
  apply (no_workers_nothing_loaded nat id idle_config
           [Produce; Produce; Produce] s).
  - cbn. lia.
  - exact Hrun.
Defined.

(** X24.  Once the context is cancelled, whatever happens next (database
    failures included): the context stays cancelled, no worker executes
    another statement (a received row is dropped at the [select]), and the
    producer publishes at most one more row, the one whose send was already
    under way. *)
Theorem cancelled_load_executes_nothing (Row : Type) (generate : nat -> Row)
    (cfg : Config) (trace : list Event) (s s' : State Row) :
  cancelled Row s = true ->
  run Row generate cfg trace s = Some s' ->
  cancelled Row s' = true
  /\ execs Row s' = execs Row s
  /\ published Row s' <= published Row s + 1.
Proof.
  intros Hcan Hrun.
  destruct (cancelled_run Row generate cfg trace _ _ Hcan Hrun)
    as (Hc & He & Hl).
  split; [exact Hc|]. split; [exact He|].
  unfold committed_rows, published in *.
  destruct (producer Row s), (producer Row s'); lia.
Qed.

Lemma cancelled_load_executes_nothing_witness :
  exists s s',
    run nat id (load_config 5) late_cancel_trace (init nat (load_config 5))
    = Some s
    /\ run nat id (load_config 5) after_cancel_trace s = Some s'
    /\ published nat s' = published nat s + 1
    /\ returned nat s' = true
    /\ cancelled nat s' = true
    /\ execs nat s' = execs nat s
    /\ published nat s' <= published nat s + 1.
Proof.
  destruct (run nat id (load_config 5) late_cancel_trace
              (init nat (load_config 5))) as [s|] eqn:Hrun;
    [|vm_compute in Hrun; discriminate].
  destruct (run nat id (load_config 5) after_cancel_trace s)
    as [s'|] eqn:Hrun';
    [|vm_compute in Hrun; injection Hrun as <-;
      vm_compute in Hrun'; discriminate].
  exists s, s'. split; [reflexivity|]. split; [exact Hrun'|].
  split; [vm_compute in Hrun; injection Hrun as <-;
          vm_compute in Hrun'; injection Hrun' as <-; reflexivity|].
  split; [vm_compute in Hrun; injection Hrun as <-;
          vm_compute in Hrun'; injection Hrun' as <-; reflexivity|].
  apply (cancelled_load_executes_nothing nat id (load_config 5)
           after_cancel_trace s s').
  - vm_compute in Hrun. injection Hrun as <-. reflexivity.
  - exact Hrun'.
Defined.
(* ===================================================================== *)
(** * The table parsers *)
(* ===================================================================== *)

Lemma names_of_entries {A B : Type} (name : B -> A) (l : list (A * B)) :
  (forall k x, In (k, x) l -> name x = k) ->
  List.map name (List.map snd l) = List.map fst l.
Proof.
  induction l as [|[k x] l IH]; intros Hname; [reflexivity|].
  cbn [List.map fst snd]. f_equal.
  - apply Hname. left. reflexivity.
  - apply IH. intros k' x' Hin. apply Hname. right. exact Hin.
Qed.

Lemma map_slice {B : Type} (name : B -> string) (m : gmap string B)
    (entry : string -> option B) (slice : list B) :
  (forall k, m !! k = entry k) ->
  (forall k x, entry k = Some x -> name x = k) ->
  Permutation slice (List.map snd (map_to_list m)) ->
  NoDup (List.map name slice)
  /\ forall x, In x slice <-> entry (name x) = Some x.
Proof.
  intros Hlookup Hname Hperm.
  assert (Hin : forall k x, In (k, x) (map_to_list m) <-> entry k = Some x).
  { intros k x. rewrite <- list_elem_of_In, elem_of_map_to_list, Hlookup.
    reflexivity. }
  split.
  - apply NoDup_ListNoDup.
    apply (Permutation_NoDup
             (l := List.map name (List.map snd (map_to_list m)))).
    + apply Permutation_map. symmetry. exact Hperm.
    + rewrite (names_of_entries name).
      * apply NoDup_ListNoDup. apply (NoDup_fst_map_to_list m).
      * intros k x Hk. apply Hname. apply Hin. exact Hk.
  - intros x. split.
    + intros Hx. apply (Permutation_in _ Hperm) in Hx.
      apply in_map_iff in Hx as ([k y] & Heq & Hk). cbn in Heq. subst y.
      apply Hin in Hk. rewrite (Hname _ _ Hk). exact Hk.
    + intros Hx. apply (Permutation_in _ (Permutation_sym Hperm)).
      apply in_map_iff. exists (name x, x). split; [reflexivity|].
      apply Hin. exact Hx.
Qed.

Lemma mysql_scan_lookup (rows : list mysqlparser.IndexRow.t) :
  forall (m : gmap string TableIndex) (k : string),
    fold_left mysqlparser.scan_index rows m !! k
    = match m !! k with
      | Some index =>
          Some {| IndexName := IndexName index;
                  IndexColumns :=
                    IndexColumns index
                    ++ List.map mysqlparser.IndexRow.columnName
                                (mysql_index_rows k rows);
                  IsUnique := IsUnique index;
                  IsPrimary := IsPrimary index |}
      | None => mysql_index_entry k rows
      end.
Proof.
  induction rows as [|row rows IH]; intros m k; cbn [fold_left].
  - unfold mysql_index_entry, mysql_index_rows. cbn.
    destruct (m !! k) as [[n c u p]|]; cbn; rewrite ?app_nil_r; reflexivity.
  - rewrite IH. unfold mysqlparser.scan_index. rewrite lookup_insert.
    unfold mysql_index_entry, mysql_index_rows. cbn [List.filter].
    destruct (decide (mysqlparser.IndexRow.indexName row = k)) as [<-|Hne].
    + rewrite String.eqb_refl.
      destruct (m !! mysqlparser.IndexRow.indexName row) as [[n c u p]|];
        unfold append_index_column; cbn; rewrite <- ?app_assoc; reflexivity.
    + apply String.eqb_neq in Hne. rewrite Hne.
      destruct (m !! k); reflexivity.
Qed.

Lemma mysql_indexMap_lookup (rows : list mysqlparser.IndexRow.t)
    (k : string) :
  mysqlparser.indexMap rows !! k = mysql_index_entry k rows.
Proof.
  unfold mysqlparser.indexMap. rewrite mysql_scan_lookup, lookup_empty.
  reflexivity.
Qed.

Lemma mysql_index_entry_name (rows : list mysqlparser.IndexRow.t)
    (k : string) (index : TableIndex) :
  mysql_index_entry k rows = Some index -> IndexName index = k.
Proof.
  unfold mysql_index_entry. destruct (mysql_index_rows k rows); [discriminate|].
  intros [= <-]. reflexivity.
Qed.

Lemma postgres_scan_lookup (rows : list postgresparser.IndexRow.t) :
  forall (m : gmap string TableIndex) (k : string),
    fold_left postgresparser.scan_index rows m !! k
    = match m !! k with
      | Some index =>
          Some {| IndexName := IndexName index;
                  IndexColumns :=
                    IndexColumns index
                    ++ List.map postgresparser.IndexRow.columnName
                                (postgres_index_rows k rows);
                  IsUnique := IsUnique index;
                  IsPrimary := IsPrimary index |}
      | None => postgres_index_entry k rows
      end.
Proof.
  induction rows as [|row rows IH]; intros m k; cbn [fold_left].
  - unfold postgres_index_entry, postgres_index_rows. cbn.
    destruct (m !! k) as [[n c u p]|]; cbn; rewrite ?app_nil_r; reflexivity.
  - rewrite IH. unfold postgresparser.scan_index. rewrite lookup_insert.
    unfold postgres_index_entry, postgres_index_rows. cbn [List.filter].
    destruct (decide (postgresparser.IndexRow.indexName row = k)) as [<-|Hne].
    + rewrite String.eqb_refl.
      destruct (m !! postgresparser.IndexRow.indexName row) as [[n c u p]|];
        unfold append_index_column; cbn; rewrite <- ?app_assoc; reflexivity.
    + apply String.eqb_neq in Hne. rewrite Hne.
      destruct (m !! k); reflexivity.
Qed.

Lemma foreign_key_scan_lookup (rows : list ForeignKeyRow.t) :
  forall (m : gmap string ForeignKey) (k : string),
    fold_left scan_foreign_key rows m !! k
    = match m !! k with
      | Some fk =>
          Some {| FKName := FKName fk;
                  FKColumns :=
                    FKColumns fk
                    ++ List.map ForeignKeyRow.columnName
                                (foreign_key_rows k rows);
                  ReferencedTable := ReferencedTable fk;
                  ReferencedColumns :=
                    ReferencedColumns fk
                    ++ List.map ForeignKeyRow.referencedColumn
                                (foreign_key_rows k rows) |}
      | None => foreign_key_entry k rows
      end.
Proof.
  induction rows as [|row rows IH]; intros m k; cbn [fold_left].
  - unfold foreign_key_entry, foreign_key_rows. cbn.
    destruct (m !! k) as [[n c t rc]|]; cbn; rewrite ?app_nil_r; reflexivity.
  - rewrite IH. unfold scan_foreign_key. rewrite lookup_insert.
    unfold foreign_key_entry, foreign_key_rows. cbn [List.filter].
    destruct (decide (ForeignKeyRow.constraintName row = k)) as [<-|Hne].
    + rewrite String.eqb_refl.
      destruct (m !! ForeignKeyRow.constraintName row) as [[n c t rc]|];
        cbn; rewrite <- ?app_assoc; reflexivity.
    + apply String.eqb_neq in Hne. rewrite Hne.
      destruct (m !! k); reflexivity.
Qed.

Lemma fkMap_lookup (rows : list ForeignKeyRow.t) (k : string) :
  fkMap rows !! k = foreign_key_entry k rows.
Proof.
  unfold fkMap. rewrite foreign_key_scan_lookup, lookup_empty. reflexivity.
Qed.

Lemma foreign_key_entry_name (rows : list ForeignKeyRow.t) (k : string)
    (fk : ForeignKey) :
  foreign_key_entry k rows = Some fk -> FKName fk = k.
Proof.
  unfold foreign_key_entry. destruct (foreign_key_rows k rows); [discriminate|].
  intros [= <-]. reflexivity.
Qed.

Lemma mysql_parsed_indexes (rows : list mysqlparser.IndexRow.t)
    (indexes : list TableIndex) :
  mysqlparser.parseIndexes rows indexes ->
  NoDup (List.map IndexName indexes)
  /\ forall index,
       In index indexes
       <-> mysql_index_entry (IndexName index) rows = Some index.
Proof.
  intros Hparse.
  apply (map_slice IndexName (mysqlparser.indexMap rows)
           (fun k => mysql_index_entry k rows)).
  - apply mysql_indexMap_lookup.
  - apply mysql_index_entry_name.
  - exact Hparse.
Qed.

(** X25.  MySQL [parseIndexes]: whatever order the loop over the map takes,
    the slice holds exactly one index per index name of the rows; its
    columns are the column names of the rows of that name in the order of
    the query, it is unique when [NON_UNIQUE] of the first such row is 0,
    and it is primary exactly when it is named PRIMARY. *)
Theorem mysql_parseIndexes_groups (rows : list mysqlparser.IndexRow.t)
    (indexes : list TableIndex) :
  mysqlparser.parseIndexes rows indexes ->
  NoDup (List.map IndexName indexes)
  /\ forall index,
       In index indexes
       <-> mysql_index_entry (IndexName index) rows = Some index.
Proof. apply mysql_parsed_indexes. Qed.

Lemma mysql_parseIndexes_groups_witness :
  mysqlparser.parseIndexes users_index_rows users_indexes
  /\ NoDup (List.map IndexName users_indexes)
  /\ forall index,
       In index users_indexes
       <-> mysql_index_entry (IndexName index) users_index_rows = Some index.
Proof.
  assert (Hparse : mysqlparser.parseIndexes users_index_rows users_indexes).
  { unfold mysqlparser.parseIndexes.
    replace (List.map snd
               (map_to_list (mysqlparser.indexMap users_index_rows)))
      with (rev users_indexes) by (vm_compute; reflexivity).
    apply Permutation_rev. }
  split; [exact Hparse|].
  exact (mysql_parseIndexes_groups users_index_rows users_indexes Hparse).
Defined.

(** X26.  PostgreSQL [parseIndexes]: one index per index name of the rows,
    with the columns of the rows of that name in the order of the query;
    [IsUnique] and [IsPrimary] are those of the first row of the name. *)
Theorem postgres_parseIndexes_groups (rows : list postgresparser.IndexRow.t)
    (indexes : list TableIndex) :
  postgresparser.parseIndexes rows indexes ->
  NoDup (List.map IndexName indexes)
  /\ forall index,
       In index indexes
       <-> postgres_index_entry (IndexName index) rows = Some index.
Proof.
  intros Hparse.
  apply (map_slice IndexName (postgresparser.indexMap rows)
           (fun k => postgres_index_entry k rows)).
  - intros k. unfold postgresparser.indexMap.
    rewrite postgres_scan_lookup, lookup_empty. reflexivity.
  - intros k index. unfold postgres_index_entry.
    destruct (postgres_index_rows k rows); [discriminate|].
    intros [= <-]. reflexivity.
  - exact Hparse.
Qed.

Lemma postgres_parseIndexes_groups_witness :
  postgresparser.parseIndexes users_pg_index_rows users_pg_indexes
  /\ NoDup (List.map IndexName users_pg_indexes)
  /\ forall index,
       In index users_pg_indexes
       <-> postgres_index_entry (IndexName index) users_pg_index_rows
           = Some index.
Proof.
  assert (Hparse :
            postgresparser.parseIndexes users_pg_index_rows users_pg_indexes).
  { unfold postgresparser.parseIndexes.
    replace (List.map snd
               (map_to_list (postgresparser.indexMap users_pg_index_rows)))
      with (rev users_pg_indexes) by (vm_compute; reflexivity).
    apply Permutation_rev. }
  split; [exact Hparse|].
  exact (postgres_parseIndexes_groups users_pg_index_rows users_pg_indexes
           Hparse).
Defined.

(** X27.  MySQL parser and selection policy together: a column is skipped
    as an auto-increment primary key exactly when the rows of the index
    PRIMARY name this column and no other, and its lower-cased type
    mentions int. *)
Theorem mysql_primary_key_rows (rows : list mysqlparser.IndexRow.t)
    (ts : TableStructure) (column : TableColumn) :
  mysqlparser.parseIndexes rows (Indexes ts) ->
  isPrimaryAutoIncrement ts column = true
  <-> List.map mysqlparser.IndexRow.columnName
               (mysql_index_rows "PRIMARY" rows) = [Name column]
      /\ GoStrings.Contains (GoStrings.ToLower (DataType column)) "int"
         = true.
Proof.
  intros Hparse.
  destruct (mysql_parsed_indexes rows (Indexes ts) Hparse)
    as [_ Hin].
  rewrite isPrimaryAutoIncrement_spec. unfold sole_primary_key.
  split.
  - intros [(index & Hindex & Hprimary & Hcols) Hint].
    split; [|exact Hint].
    apply Hin in Hindex. unfold mysql_index_entry in Hindex.
    destruct (mysql_index_rows (IndexName index) rows) as [|row group] eqn:Hg;
      [discriminate|].
    injection Hindex as Hindex. rewrite <- Hindex in Hprimary, Hcols.
    cbn [IsPrimary IndexColumns] in Hprimary, Hcols.
    apply String.eqb_eq in Hprimary. rewrite <- Hprimary, Hg. exact Hcols.
  - intros [Hcols Hint]. split; [|exact Hint].
    destruct (mysql_index_rows "PRIMARY" rows) as [|row group] eqn:Hg;
      [discriminate|].
    exists {| IndexName := "PRIMARY";
              IndexColumns :=
                List.map mysqlparser.IndexRow.columnName (row :: group);
              IsUnique := mysqlparser.IndexRow.nonUnique row =? 0;
              IsPrimary := true |}.
    split; [|split; [reflexivity | exact Hcols]].
    apply Hin. cbn [IndexName]. unfold mysql_index_entry. rewrite Hg.
    reflexivity.
Qed.

Lemma mysql_primary_key_rows_witness :
  mysqlparser.parseIndexes users_index_rows (Indexes users_parsed)
  /\ (isPrimaryAutoIncrement users_parsed (column "id" "int") = true
      <-> List.map mysqlparser.IndexRow.columnName
                   (mysql_index_rows "PRIMARY" users_index_rows)
          = [Name (column "id" "int")]
          /\ GoStrings.Contains
               (GoStrings.ToLower (DataType (column "id" "int"))) "int"
             = true).
Proof.
  assert (Hparse :
            mysqlparser.parseIndexes users_index_rows (Indexes users_parsed)).
  { unfold mysqlparser.parseIndexes.
    replace (List.map snd
               (map_to_list (mysqlparser.indexMap users_index_rows)))
      with (rev (Indexes users_parsed)) by (vm_compute; reflexivity).
    apply Permutation_rev. }
  split; [exact Hparse|].
  exact (mysql_primary_key_rows users_index_rows users_parsed
           (column "id" "int") Hparse).
Defined.

Lemma parsed_foreign_keys (rows : list ForeignKeyRow.t)
    (fks : list ForeignKey) :
  parseForeignKeys rows fks ->
  NoDup (List.map FKName fks)
  /\ forall fk,
       In fk fks <-> foreign_key_entry (FKName fk) rows = Some fk.
Proof.
  intros Hparse.
  apply (map_slice FKName (fkMap rows) (fun k => foreign_key_entry k rows)).
  - apply fkMap_lookup.
  - apply foreign_key_entry_name.
  - exact Hparse.
Qed.

(** X28.  [parseForeignKeys] (the same loop in both parsers) and the
    selection policy together: a column is treated as a foreign key exactly
    when some row of the foreign-key query names it; and every parsed
    foreign key has at least one column and as many referenced columns as
    columns. *)
Theorem foreign_key_rows_decide (rows : list ForeignKeyRow.t)
    (ts : TableStructure) (column : TableColumn) :
  parseForeignKeys rows (ForeignKeys ts) ->
  isForeignKey ts column
  = existsb (fun row => String.eqb (ForeignKeyRow.columnName row)
                                   (Name column)) rows
  /\ Forall (fun fk => FKColumns fk <> []
                       /\ length (FKColumns fk)
                          = length (ReferencedColumns fk))
            (ForeignKeys ts).
Proof.
  intros Hparse.
  destruct (parsed_foreign_keys rows (ForeignKeys ts) Hparse) as [_ Hin].
  split.
  - apply Bool.eq_true_iff_eq.
    rewrite isForeignKey_spec, existsb_exists. unfold named_in_foreign_key.
    split.
    + intros (fk & Hfk & Hcol). apply Hin in Hfk.
      unfold foreign_key_entry in Hfk.
      destruct (foreign_key_rows (FKName fk) rows) as [|row group] eqn:Hg;
        [discriminate|].
      injection Hfk as Hfk. rewrite <- Hfk in Hcol.
      change (In (Name column)
                 (List.map ForeignKeyRow.columnName (row :: group))) in Hcol.
      apply in_map_iff in Hcol as (r & Hname & Hr).
      exists r. split.
      * rewrite <- Hg in Hr. unfold foreign_key_rows in Hr.
        apply filter_In in Hr as [Hr _]. exact Hr.
      * rewrite Hname. apply String.eqb_refl.
    + intros (r & Hr & Hname). apply String.eqb_eq in Hname.
      assert (Hgroup : In r (foreign_key_rows
                               (ForeignKeyRow.constraintName r) rows)).
      { unfold foreign_key_rows. apply filter_In.
        split; [exact Hr | apply String.eqb_refl]. }
      destruct (foreign_key_rows (ForeignKeyRow.constraintName r) rows)
        as [|row group] eqn:Hg; [contradiction|].
      exists {| FKName := ForeignKeyRow.constraintName r;
                FKColumns :=
                  List.map ForeignKeyRow.columnName (row :: group);
                ReferencedTable := ForeignKeyRow.referencedTable row;
                ReferencedColumns :=
                  List.map ForeignKeyRow.referencedColumn (row :: group) |}.
      split.
      * apply Hin. cbn [FKName]. unfold foreign_key_entry. rewrite Hg.
        reflexivity.
      * cbn [FKColumns]. rewrite <- Hname.
        apply (in_map ForeignKeyRow.columnName). exact Hgroup.
  - apply List.Forall_forall. intros fk Hfk. apply Hin in Hfk.
    unfold foreign_key_entry in Hfk.
    destruct (foreign_key_rows (FKName fk) rows) as [|row group];
      [discriminate|].
    injection Hfk as <-. cbn [FKColumns ReferencedColumns].
    split; [discriminate|].
    change (length (List.map ForeignKeyRow.columnName (row :: group))
            = length (List.map ForeignKeyRow.referencedColumn
                               (row :: group))).
    rewrite !length_map. reflexivity.
Qed.

Lemma foreign_key_rows_decide_witness :
  parseForeignKeys orders_foreign_key_rows
    (ForeignKeys (orders_parsed orders_indexes orders_foreign_keys))
  /\ isForeignKey (orders_parsed orders_indexes orders_foreign_keys)
                  (column "item_rev" "char(4)")
     = existsb (fun row => String.eqb (ForeignKeyRow.columnName row)
                                      (Name (column "item_rev" "char(4)")))
               orders_foreign_key_rows
  /\ Forall (fun fk => FKColumns fk <> []
                       /\ length (FKColumns fk)
                          = length (ReferencedColumns fk))
            (ForeignKeys (orders_parsed orders_indexes orders_foreign_keys)).
Proof.
  assert (Hparse :
            parseForeignKeys orders_foreign_key_rows
              (ForeignKeys (orders_parsed orders_indexes
                                          orders_foreign_keys))).
  { unfold parseForeignKeys.
    replace (List.map snd (map_to_list (fkMap orders_foreign_key_rows)))
      with (rev orders_foreign_keys) by (vm_compute; reflexivity).
    apply Permutation_rev. }
  split; [exact Hparse|].
  exact (foreign_key_rows_decide orders_foreign_key_rows
           (orders_parsed orders_indexes orders_foreign_keys)
           (column "item_rev" "char(4)") Hparse).
Defined.

(** X29.  The parsers hand the indexes and the foreign keys over in the
    order of a loop over a map, which the language leaves open.  The
    selection policy does not see that order: two parses of the same rows
    give the same registry of generators. *)
Theorem parsed_order_immaterial (dbType : string)
    (fkRows : list ForeignKeyRow.t) (ts1 ts2 : TableStructure) :
  Columns ts1 = Columns ts2 ->
  (exists rows, mysqlparser.parseIndexes rows (Indexes ts1)
                /\ mysqlparser.parseIndexes rows (Indexes ts2))
  \/ (exists rows, postgresparser.parseIndexes rows (Indexes ts1)
                   /\ postgresparser.parseIndexes rows (Indexes ts2)) ->
  parseForeignKeys fkRows (ForeignKeys ts1) ->
  parseForeignKeys fkRows (ForeignKeys ts2) ->
  default_registry dbType ts1 = default_registry dbType ts2.
Proof.
  intros Hcols Hidx Hfk1 Hfk2.
  apply default_registry_order_independent; [exact Hcols | |].
  - destruct Hidx as [(rows & H1 & H2) | (rows & H1 & H2)];
      (etransitivity; [exact H1 | symmetry; exact H2]).
  - etransitivity; [exact Hfk1 | symmetry; exact Hfk2].
Qed.

Lemma parsed_order_immaterial_witness :
  default_registry "mysql" (orders_parsed orders_indexes orders_foreign_keys)
  = default_registry "mysql"
      (orders_parsed (rev orders_indexes) (rev orders_foreign_keys)).
Proof.
  apply (parsed_order_immaterial "mysql" orders_foreign_key_rows).
  - reflexivity.
  - left. exists orders_index_rows. cbn [Indexes orders_parsed].
    unfold mysqlparser.parseIndexes.
    replace (List.map snd
               (map_to_list (mysqlparser.indexMap orders_index_rows)))
      with (rev orders_indexes) by (vm_compute; reflexivity).
    split; [apply Permutation_rev | reflexivity].
  - cbn [ForeignKeys orders_parsed]. unfold parseForeignKeys.
    replace (List.map snd (map_to_list (fkMap orders_foreign_key_rows)))
      with (rev orders_foreign_keys) by (vm_compute; reflexivity).
    apply Permutation_rev.
  - cbn [ForeignKeys orders_parsed]. unfold parseForeignKeys.
    replace (List.map snd (map_to_list (fkMap orders_foreign_key_rows)))
      with (rev orders_foreign_keys) by (vm_compute; reflexivity).
    reflexivity.
Defined.
